(** * Hospital management system (hms.c): data-management layer

    A shallow embedding of the records manager of [src/hms.c]: the four
    fixed-capacity tables with their counts and identifier counters, the
    add / delete / cancel / sort / search operations, and the binary save
    file.  Every operation of the C program that reads from the terminal
    takes here, as arguments, the lines and integers it would have read.

    Conventions fixed by the model:
    - a C [int] is a [Z]; [get_int_from_user] only ever returns values in
      the [int] range, and [x++] on a counter wraps to 32 bits;
    - a C string is the [string] of its characters before the terminating
      NUL; functions that read one stop at a NUL character;
    - a global array is a [list] holding the whole storage (live records
      first, stale ones after them) next to its separate count. *)

From Stdlib Require Import ZArith Lia String Ascii.
From stdpp Require Import base tactics option list sorting.

Local Open Scope Z_scope.

(** ** Machine integers *)

Definition INT_MIN : Z := -2147483648.
Definition INT_MAX : Z := 2147483647.

Definition in_int (z : Z) : Prop := INT_MIN <= z <= INT_MAX.

(** Two's complement wrap-around of a 32-bit [int]. *)
Definition wrap_int (z : Z) : Z := (z + 2147483648) mod 4294967296 - 2147483648.

(** ** Constants *)

Definition MAX_PATIENTS : Z := 500.
Definition MAX_DISEASES : Z := 200.
Definition MAX_DOCTORS : Z := 100.
Definition MAX_APPOINTS : Z := 1000.

(** ** Structs *)

Module Patient.
Record t : Type := mk {
  id : Z;
  name : string;       (* char name[100] *)
  age : Z;
  gender : string;     (* char gender[10] *)
  phone : string;      (* char phone[20] *)
  disease : string;    (* char disease[100] *)
  doctorId : Z
}.
Definition zero : t := mk 0 EmptyString 0 EmptyString EmptyString EmptyString 0.
Definition with_doctorId (d : Z) (p : t) : t :=
  mk (id p) (name p) (age p) (gender p) (phone p) (disease p) d.
End Patient.

Module Disease.
Record t : Type := mk {
  id : Z;
  name : string;       (* char name[100] *)
  symptoms : string;   (* char symptoms[200] *)
  treatment : string   (* char treatment[200] *)
}.
Definition zero : t := mk 0 EmptyString EmptyString EmptyString.
End Disease.

Module Doctor.
Record t : Type := mk {
  id : Z;
  name : string;            (* char name[100] *)
  specialization : string;  (* char specialization[100] *)
  phone : string            (* char phone[20] *)
}.
Definition zero : t := mk 0 EmptyString EmptyString EmptyString.
End Doctor.

Module Appointment.
Record t : Type := mk {
  id : Z;
  patientId : Z;
  doctorId : Z;
  date : string;       (* char date[20] *)
  time : string        (* char time[10] *)
}.
Definition zero : t := mk 0 0 0 EmptyString EmptyString.
End Appointment.

#[global] Instance Patient_inhabited : Inhabited Patient.t := populate Patient.zero.
#[global] Instance Disease_inhabited : Inhabited Disease.t := populate Disease.zero.
#[global] Instance Doctor_inhabited : Inhabited Doctor.t := populate Doctor.zero.
#[global] Instance Appointment_inhabited : Inhabited Appointment.t := populate Appointment.zero.

(** ** Globals *)

Record state : Type := mkState {
  patients : list Patient.t;
  diseases : list Disease.t;
  doctors : list Doctor.t;
  appointments : list Appointment.t;
  patientCount : Z;
  diseaseCount : Z;
  doctorCount : Z;
  appointmentCount : Z;
  nextPatientId : Z;
  nextDiseaseId : Z;
  nextDoctorId : Z;
  nextAppointmentId : Z
}.

(** The program's globals at start-up: zeroed arrays, counts 0, counters 1. *)
Definition init_state : state :=
  mkState (replicate (Z.to_nat MAX_PATIENTS) Patient.zero)
          (replicate (Z.to_nat MAX_DISEASES) Disease.zero)
          (replicate (Z.to_nat MAX_DOCTORS) Doctor.zero)
          (replicate (Z.to_nat MAX_APPOINTS) Appointment.zero)
          0 0 0 0 1 1 1 1.

Definition set_patients (v : list Patient.t) (s : state) : state :=
  mkState v (diseases s) (doctors s) (appointments s)
          (patientCount s) (diseaseCount s) (doctorCount s) (appointmentCount s)
          (nextPatientId s) (nextDiseaseId s) (nextDoctorId s) (nextAppointmentId s).
Definition set_diseases (v : list Disease.t) (s : state) : state :=
  mkState (patients s) v (doctors s) (appointments s)
          (patientCount s) (diseaseCount s) (doctorCount s) (appointmentCount s)
          (nextPatientId s) (nextDiseaseId s) (nextDoctorId s) (nextAppointmentId s).
Definition set_doctors (v : list Doctor.t) (s : state) : state :=
  mkState (patients s) (diseases s) v (appointments s)
          (patientCount s) (diseaseCount s) (doctorCount s) (appointmentCount s)
          (nextPatientId s) (nextDiseaseId s) (nextDoctorId s) (nextAppointmentId s).
Definition set_appointments (v : list Appointment.t) (s : state) : state :=
  mkState (patients s) (diseases s) (doctors s) v
          (patientCount s) (diseaseCount s) (doctorCount s) (appointmentCount s)
          (nextPatientId s) (nextDiseaseId s) (nextDoctorId s) (nextAppointmentId s).
Definition set_patientCount (v : Z) (s : state) : state :=
  mkState (patients s) (diseases s) (doctors s) (appointments s)
          v (diseaseCount s) (doctorCount s) (appointmentCount s)
          (nextPatientId s) (nextDiseaseId s) (nextDoctorId s) (nextAppointmentId s).
Definition set_diseaseCount (v : Z) (s : state) : state :=
  mkState (patients s) (diseases s) (doctors s) (appointments s)
          (patientCount s) v (doctorCount s) (appointmentCount s)
          (nextPatientId s) (nextDiseaseId s) (nextDoctorId s) (nextAppointmentId s).
Definition set_doctorCount (v : Z) (s : state) : state :=
  mkState (patients s) (diseases s) (doctors s) (appointments s)
          (patientCount s) (diseaseCount s) v (appointmentCount s)
          (nextPatientId s) (nextDiseaseId s) (nextDoctorId s) (nextAppointmentId s).
Definition set_appointmentCount (v : Z) (s : state) : state :=
  mkState (patients s) (diseases s) (doctors s) (appointments s)
          (patientCount s) (diseaseCount s) (doctorCount s) v
          (nextPatientId s) (nextDiseaseId s) (nextDoctorId s) (nextAppointmentId s).
Definition set_nextPatientId (v : Z) (s : state) : state :=
  mkState (patients s) (diseases s) (doctors s) (appointments s)
          (patientCount s) (diseaseCount s) (doctorCount s) (appointmentCount s)
          v (nextDiseaseId s) (nextDoctorId s) (nextAppointmentId s).
Definition set_nextDiseaseId (v : Z) (s : state) : state :=
  mkState (patients s) (diseases s) (doctors s) (appointments s)
          (patientCount s) (diseaseCount s) (doctorCount s) (appointmentCount s)
          (nextPatientId s) v (nextDoctorId s) (nextAppointmentId s).
Definition set_nextDoctorId (v : Z) (s : state) : state :=
  mkState (patients s) (diseases s) (doctors s) (appointments s)
          (patientCount s) (diseaseCount s) (doctorCount s) (appointmentCount s)
          (nextPatientId s) (nextDiseaseId s) v (nextAppointmentId s).
Definition set_nextAppointmentId (v : Z) (s : state) : state :=
  mkState (patients s) (diseases s) (doctors s) (appointments s)
          (patientCount s) (diseaseCount s) (doctorCount s) (appointmentCount s)
          (nextPatientId s) (nextDiseaseId s) (nextDoctorId s) v.

(** The live portion of each table: the records below its count. *)
Definition live_patients (s : state) : list Patient.t :=
  take (Z.to_nat (patientCount s)) (patients s).
Definition live_diseases (s : state) : list Disease.t :=
  take (Z.to_nat (diseaseCount s)) (diseases s).
Definition live_doctors (s : state) : list Doctor.t :=
  take (Z.to_nat (doctorCount s)) (doctors s).
Definition live_appointments (s : state) : list Appointment.t :=
  take (Z.to_nat (appointmentCount s)) (appointments s).

(** ** Utils: C strings *)

Definition char_code (c : ascii) : Z := Z.of_N (N_of_ascii c).

(** [*s]: the byte a [char*] points at; the terminator at the end. *)
Definition deref (s : string) : Z :=
  match s with
  | EmptyString => 0
  | String c _ => char_code c
  end.

(** The first [n] characters of the C string stored in [s]. *)
Fixpoint c_take (n : nat) (s : string) : string :=
  match n, s with
  | S n', String c s' =>
      if char_code c =? 0 then EmptyString else String c (c_take n' s')
  | _, _ => EmptyString
  end.

(** [getLine(prompt, buffer, size)] on an input line (without its newline):
    [fgets] keeps at most [size - 1] characters, the rest of the line is
    discarded. *)
Definition getLine (size : nat) (line : string) : string :=
  c_take (size - 1) line.

(** [strncpy(dst, src, size - 1); dst[size - 1] = '\0'] for a destination
    buffer of [size] bytes. *)
Definition strncpy_buf (size : nat) (src : string) : string :=
  c_take (size - 1) src.

(** [tolower] of the "C" locale, on an [unsigned char] value. *)
Definition tolower (c : Z) : Z :=
  if (65 <=? c) && (c <=? 90) then c + 32 else c.

(** Conversion of an [unsigned char] value to the type [char], which is
    signed or unsigned depending on the platform. *)
Definition to_char (char_signed : bool) (v : Z) : Z :=
  if char_signed && (128 <=? v) then v - 256 else v.

(** ** What an operation reports

    One constructor per final message of the program; the error kinds use
    the names of the specification. *)

(** The notice printed by the doctor-assignment step of patient intake. *)
Inductive assignment : Type :=
  | DoctorAssigned (docId : Z)     (* "Doctor (ID: %d) assigned." *)
  | NoDoctorFound (docId : Z)      (* "No doctor found with ID %d. Patient assigned 'None'." *)
  | AssignedNone                   (* "Patient assigned 'None'." *)
  | NoDoctorsInSystem.             (* "No doctors in system. Patient assigned 'None'." *)

(** One entry of the appointment listing. *)
Record appointment_row : Type := mkRow {
  row_id : Z;
  row_patient : string;
  row_patientId : Z;
  row_doctor : string;
  row_doctorId : Z;
  row_date : string;
  row_time : string
}.

Inductive outcome : Type :=
  | PatientAdded (id : Z) (notice : assignment)  (* "Patient added successfully! (ID: %d)" *)
  | DoctorAdded (id : Z)                         (* "Doctor added successfully! (ID: %d)" *)
  | DiseaseAdded (id : Z)                        (* "Disease reference added successfully! (ID: %d)" *)
  | AppointmentScheduled (id : Z) (primary_set : bool)
                                                 (* "Appointment scheduled (ID: %d) ...", after the
                                                    "Note: ... set as the primary doctor" when set *)
  | CapacityExceeded                             (* "Max patients/doctors/diseases/appointments reached." *)
  | InvalidId                                    (* "Invalid ID." *)
  | NotFound                                     (* "No patient/appointment found with ID %d." *)
  | Removed                                      (* "Patient deleted successfully." / "Appointment canceled." *)
  | Declined                                     (* "Deletion canceled." / "Canceled." *)
  | NeedPatientAndDoctor                         (* "Need at least one patient and one doctor to schedule." *)
  | InvalidReference                             (* "Invalid patient or doctor ID." *)
  | NotEnoughToSort                              (* "Not enough patients to sort." *)
  | SortedByName                                 (* "Patients sorted by name. ..." *)
  | Matches (found : list Patient.t)             (* one line per match; "No patient named ..." when empty *)
  | AppointmentList (rows : list appointment_row). (* "No appointments scheduled." when empty *)

(** The commands of the menu, with the input each one reads. *)
Inductive command : Type :=
  | AddPatient (name : string) (age : Z) (gender phone disease : string) (docId : Z)
  | SearchPatientByName (name : string)
  | DeletePatient (id : Z) (confirm : string)
  | SortPatientsByName
  | AddDoctor (name specialization phone : string)
  | AddDisease (name symptoms treatment : string)
  | AddAppointment (pid did : Z) (date time : string)
  | DisplayAppointments
  | CancelAppointment (id : Z) (confirm : string).

(** Every integer a command carries came out of [get_int_from_user]. *)
Definition command_valid (c : command) : Prop :=
  match c with
  | AddPatient _ age _ _ _ docId => in_int age /\ in_int docId
  | DeletePatient id _ | CancelAppointment id _ => in_int id
  | AddAppointment pid did _ _ => in_int pid /\ in_int did
  | _ => True
  end.

(** [for (j = i; j < count - 1; j++) arr[j] = arr[j+1];] with the number of
    iterations left as the decreasing argument. *)
Fixpoint shift_left {A : Type} `{Inhabited A} (arr : list A) (j iters : nat) : list A :=
  match iters with
  | O => arr
  | S k => shift_left (<[j := arr !!! S j]> arr) (S j) k
  end.

(** [confirm[0] == 'y' || confirm[0] == 'Y'] *)
Definition confirmed (confirm : string) : bool :=
  (deref confirm =? 121) || (deref confirm =? 89).

(** Lexicographic order on lists of character values, the shorter of two
    lists that agree coming first. *)
Fixpoint lex_leb (k1 k2 : list Z) : bool :=
  match k1, k2 with
  | [], _ => true
  | _ :: _, [] => false
  | x :: k1', y :: k2' => (x <? y) || ((x =? y) && lex_leb k1' k2')
  end.

Section Program.

(** Whether the platform's [char] is signed, and the C library's [qsort]
    applied to the first [n] elements of an array. *)
Variable char_signed : bool.
Variable qsort : (Patient.t -> Patient.t -> Z) -> list Patient.t -> list Patient.t.

(** case-insensitive string compare *)
Fixpoint stricmp_custom (a b : string) : Z :=
  match a, b with
  | String _ a', String _ b' =>
      if (deref a =? 0) || (deref b =? 0)
      then tolower (deref a) - tolower (deref b)
      else
        let ca := to_char char_signed (tolower (deref a)) in
        let cb := to_char char_signed (tolower (deref b)) in
        if ca =? cb then stricmp_custom a' b' else ca - cb
  | _, _ => tolower (deref a) - tolower (deref b)
  end.

(** The sort key the specification speaks of: the characters of the C
    string, lower-cased, as values of type [char]. *)
Fixpoint ci_key (s : string) : list Z :=
  match s with
  | EmptyString => []
  | String c s' =>
      if char_code c =? 0 then []
      else to_char char_signed (tolower (char_code c)) :: ci_key s'
  end.

(** Case-insensitive lexicographic order, and equality, of two names. *)
Definition ci_le (a b : string) : Prop := lex_leb (ci_key a) (ci_key b) = true.
Definition ci_eq (a b : string) : Prop := ci_key a = ci_key b.

(** *** Finder functions *)

Definition findPatientIndex (s : state) (id : Z) : option nat :=
  fst <$> list_find (fun p => Patient.id p = id) (live_patients s).

Definition findDoctorIndex (s : state) (id : Z) : option nat :=
  fst <$> list_find (fun d => Doctor.id d = id) (live_doctors s).

Definition findAppointmentIndex (s : state) (id : Z) : option nat :=
  fst <$> list_find (fun a => Appointment.id a = id) (live_appointments s).

(** *** Doctor operations *)

Definition addDoctor (s : state) (name specialization phone : string) : state * outcome :=
  if MAX_DOCTORS <=? doctorCount s then (s, CapacityExceeded)
  else
    let id := nextDoctorId s in
    let s := set_nextDoctorId (wrap_int (id + 1)) s in
    let d := Doctor.mk id
               (strncpy_buf 100 (getLine 200 name))
               (strncpy_buf 100 (getLine 200 specialization))
               (strncpy_buf 20 (getLine 200 phone)) in
    let s := set_doctors (<[Z.to_nat (doctorCount s) := d]> (doctors s)) s in
    (set_doctorCount (doctorCount s + 1) s, DoctorAdded id).

(** *** Patient operations *)

Definition addPatient (s : state) (name : string) (age : Z)
    (gender phone disease : string) (docId : Z) : state * outcome :=
  if MAX_PATIENTS <=? patientCount s then (s, CapacityExceeded)
  else
    let id := nextPatientId s in
    let s := set_nextPatientId (wrap_int (id + 1)) s in
    let name := strncpy_buf 100 (getLine 200 name) in
    let gender := strncpy_buf 10 (getLine 200 gender) in
    let phone := strncpy_buf 20 (getLine 200 phone) in
    let disease := strncpy_buf 100 (getLine 200 disease) in
    let '(doctorId, notice) :=
      if 0 <? doctorCount s then
        if negb (docId =? 0) && bool_decide (is_Some (findDoctorIndex s docId))
        then (docId, DoctorAssigned docId)
        else (0, if negb (docId =? 0) then NoDoctorFound docId else AssignedNone)
      else (0, NoDoctorsInSystem) in
    let p := Patient.mk id name age gender phone disease doctorId in
    let s := set_patients (<[Z.to_nat (patientCount s) := p]> (patients s)) s in
    (set_patientCount (patientCount s + 1) s, PatientAdded id notice).

Definition searchPatientByName (s : state) (name : string) : state * outcome :=
  let name := getLine 100 name in
  (s, Matches (filter (fun p => stricmp_custom (Patient.name p) name = 0)
                      (live_patients s))).

Definition deletePatient (s : state) (id : Z) (confirm : string) : state * outcome :=
  if id <=? 0 then (s, InvalidId)
  else
    match findPatientIndex s id with
    | Some i =>
        if confirmed (getLine 10 confirm) then
          let arr := shift_left (patients s) i
                       (Z.to_nat (patientCount s - 1 - Z.of_nat i)) in
          let s := set_patients arr s in
          (set_patientCount (patientCount s - 1) s, Removed)
        else (s, Declined)
    | None => (s, NotFound)
    end.

Definition comparePatientsByName (pA pB : Patient.t) : Z :=
  stricmp_custom (Patient.name pA) (Patient.name pB).

Definition sortPatientsByName (s : state) : state * outcome :=
  if patientCount s <? 2 then (s, NotEnoughToSort)
  else
    let n := Z.to_nat (patientCount s) in
    (set_patients (qsort comparePatientsByName (take n (patients s))
                     ++ drop n (patients s)) s,
     SortedByName).

(** *** Disease reference operations *)

Definition addDisease (s : state) (name symptoms treatment : string) : state * outcome :=
  if MAX_DISEASES <=? diseaseCount s then (s, CapacityExceeded)
  else
    let id := nextDiseaseId s in
    let s := set_nextDiseaseId (wrap_int (id + 1)) s in
    let d := Disease.mk id
               (strncpy_buf 100 (getLine 300 name))
               (strncpy_buf 200 (getLine 300 symptoms))
               (strncpy_buf 200 (getLine 300 treatment)) in
    let s := set_diseases (<[Z.to_nat (diseaseCount s) := d]> (diseases s)) s in
    (set_diseaseCount (diseaseCount s + 1) s, DiseaseAdded id).

(** *** Appointments *)

Definition addAppointment (s : state) (pid did : Z) (date time : string) : state * outcome :=
  if MAX_APPOINTS <=? appointmentCount s then (s, CapacityExceeded)
  else if (patientCount s =? 0) || (doctorCount s =? 0) then (s, NeedPatientAndDoctor)
  else
    match findPatientIndex s pid, findDoctorIndex s did with
    | Some pi, Some di =>
        let id := nextAppointmentId s in
        let s := set_nextAppointmentId (wrap_int (id + 1)) s in
        let a := Appointment.mk id pid did (getLine 20 date) (getLine 10 time) in
        let s := set_appointments (<[Z.to_nat (appointmentCount s) := a]> (appointments s)) s in
        let s := set_appointmentCount (appointmentCount s + 1) s in
        if Patient.doctorId (patients s !!! pi) =? 0 then
          (set_patients (<[pi := Patient.with_doctorId did (patients s !!! pi)]> (patients s)) s,
           AppointmentScheduled id true)
        else (s, AppointmentScheduled id false)
    | _, _ => (s, InvalidReference)
    end.

(** The name columns of the listing start as ["Unknown"] and are
    overwritten by [strncpy] when the id resolves. *)
Definition displayAppointments (s : state) : state * outcome :=
  (s, AppointmentList
        (map (fun a =>
                let pid := Appointment.patientId a in
                let did := Appointment.doctorId a in
                let pname :=
                  match findPatientIndex s pid with
                  | Some pi => strncpy_buf 100 (Patient.name (patients s !!! pi))
                  | None => "Unknown"%string
                  end in
                let dname :=
                  match findDoctorIndex s did with
                  | Some di => strncpy_buf 100 (Doctor.name (doctors s !!! di))
                  | None => "Unknown"%string
                  end in
                mkRow (Appointment.id a) pname pid dname did
                      (Appointment.date a) (Appointment.time a))
             (live_appointments s))).

Definition cancelAppointment (s : state) (id : Z) (confirm : string) : state * outcome :=
  if id <=? 0 then (s, InvalidId)
  else
    match findAppointmentIndex s id with
    | Some i =>
        if confirmed (getLine 10 confirm) then
          let arr := shift_left (appointments s) i
                       (Z.to_nat (appointmentCount s - 1 - Z.of_nat i)) in
          let s := set_appointments arr s in
          (set_appointmentCount (appointmentCount s - 1) s, Removed)
        else (s, Declined)
    | None => (s, NotFound)
    end.

(** *** Menu *)

(** The [switch] of [main] on one command. *)
Definition dispatch (c : command) (s : state) : state * outcome :=
  match c with
  | AddPatient name age gender phone disease docId =>
      addPatient s name age gender phone disease docId
  | SearchPatientByName name => searchPatientByName s name
  | DeletePatient id confirm => deletePatient s id confirm
  | SortPatientsByName => sortPatientsByName s
  | AddDoctor name specialization phone => addDoctor s name specialization phone
  | AddDisease name symptoms treatment => addDisease s name symptoms treatment
  | AddAppointment pid did date time => addAppointment s pid did date time
  | DisplayAppointments => displayAppointments s
  | CancelAppointment id confirm => cancelAppointment s id confirm
  end.

(** The session loop over a list of commands: final globals and the
    reports in order. *)
Fixpoint run (cs : list command) (s : state) : state * list outcome :=
  match cs with
  | [] => (s, [])
  | c :: cs' =>
      let '(s1, o) := dispatch c s in
      let '(s2, os) := run cs' s1 in
      (s2, o :: os)
  end.

End Program.


(** ** Persistence

    The save file is a list of bytes (each a [Z] in [0, 256)).  The layout
    is the one of the C structs on a platform with 4-byte little-endian
    two's complement [int]s aligned on 4 bytes: [fwrite] copies the object
    representation of each live record, including the bytes of a character
    buffer after its terminating NUL and the padding bytes, whose values
    the program never sets.  Those bytes are supplied by [junk]. *)

Definition sizeof_Patient : nat := 244.
Definition sizeof_Disease : nat := 504.
Definition sizeof_Doctor : nat := 224.
Definition sizeof_Appointment : nat := 44.

(** Object representation of an [int]. *)
Definition int_bytes (z : Z) : list Z :=
  [z mod 256; z / 256 mod 256; z / 65536 mod 256; z / 16777216 mod 256].

Definition bytes_int (bs : list Z) : Z :=
  match bs with
  | [b0; b1; b2; b3] => wrap_int (b0 + 256 * b1 + 65536 * b2 + 16777216 * b3)
  | _ => 0
  end.

Fixpoint string_bytes (s : string) : list Z :=
  match s with
  | EmptyString => []
  | String c s' => char_code c :: string_bytes s'
  end.

(** The C string held in a character buffer. *)
Fixpoint bytes_cstring (bs : list Z) : string :=
  match bs with
  | [] => EmptyString
  | b :: bs' =>
      if b =? 0 then EmptyString
      else String (ascii_of_N (Z.to_N b)) (bytes_cstring bs')
  end.

(** A [char buf[size]] member at offset [off] of its struct, holding [s]. *)
Definition char_buf (junk : nat -> Z) (off size : nat) (s : string) : list Z :=
  string_bytes s ++ 0 ::
  map junk (seq (off + String.length s + 1) (size - String.length s - 1)).

Definition padding (junk : nat -> Z) (off n : nat) : list Z := map junk (seq off n).

(** The [len] bytes at offset [off] of an object. *)
Definition member (off len : nat) (bs : list Z) : list Z := take len (drop off bs).

Definition encode_Patient (junk : nat -> Z) (p : Patient.t) : list Z :=
  int_bytes (Patient.id p) ++
  char_buf junk 4 100 (Patient.name p) ++
  int_bytes (Patient.age p) ++
  char_buf junk 108 10 (Patient.gender p) ++
  char_buf junk 118 20 (Patient.phone p) ++
  char_buf junk 138 100 (Patient.disease p) ++
  padding junk 238 2 ++
  int_bytes (Patient.doctorId p).

Definition decode_Patient (bs : list Z) : Patient.t :=
  Patient.mk (bytes_int (member 0 4 bs))
             (bytes_cstring (member 4 100 bs))
             (bytes_int (member 104 4 bs))
             (bytes_cstring (member 108 10 bs))
             (bytes_cstring (member 118 20 bs))
             (bytes_cstring (member 138 100 bs))
             (bytes_int (member 240 4 bs)).

Definition encode_Disease (junk : nat -> Z) (d : Disease.t) : list Z :=
  int_bytes (Disease.id d) ++
  char_buf junk 4 100 (Disease.name d) ++
  char_buf junk 104 200 (Disease.symptoms d) ++
  char_buf junk 304 200 (Disease.treatment d).

Definition decode_Disease (bs : list Z) : Disease.t :=
  Disease.mk (bytes_int (member 0 4 bs))
             (bytes_cstring (member 4 100 bs))
             (bytes_cstring (member 104 200 bs))
             (bytes_cstring (member 304 200 bs)).

Definition encode_Doctor (junk : nat -> Z) (d : Doctor.t) : list Z :=
  int_bytes (Doctor.id d) ++
  char_buf junk 4 100 (Doctor.name d) ++
  char_buf junk 104 100 (Doctor.specialization d) ++
  char_buf junk 204 20 (Doctor.phone d).

Definition decode_Doctor (bs : list Z) : Doctor.t :=
  Doctor.mk (bytes_int (member 0 4 bs))
            (bytes_cstring (member 4 100 bs))
            (bytes_cstring (member 104 100 bs))
            (bytes_cstring (member 204 20 bs)).

Definition encode_Appointment (junk : nat -> Z) (a : Appointment.t) : list Z :=
  int_bytes (Appointment.id a) ++
  int_bytes (Appointment.patientId a) ++
  int_bytes (Appointment.doctorId a) ++
  char_buf junk 12 20 (Appointment.date a) ++
  char_buf junk 32 10 (Appointment.time a) ++
  padding junk 42 2.

Definition decode_Appointment (bs : list Z) : Appointment.t :=
  Appointment.mk (bytes_int (member 0 4 bs))
                 (bytes_int (member 4 4 bs))
                 (bytes_int (member 8 4 bs))
                 (bytes_cstring (member 12 20 bs))
                 (bytes_cstring (member 32 10 bs)).

(** [if (count > 0) fwrite(arr, sizeof(T), count, fp);] *)
Definition fwrite_records {A : Type} (encode : (nat -> Z) -> A -> list Z)
    (junk : nat -> nat -> Z) (count : Z) (arr : list A) : list Z :=
  if 0 <? count
  then concat (imap (fun i x => encode (junk i) x) (take (Z.to_nat count) arr))
  else [].

(** The contents of [hospital_data.bin] after [saveData] (when the file
    could be opened; otherwise nothing is written).  [junk t i o] is the
    unset byte at offset [o] of record [i] of table [t]. *)
Definition saveData (junk : nat -> nat -> nat -> Z) (s : state) : list Z :=
  int_bytes (patientCount s) ++
  int_bytes (diseaseCount s) ++
  int_bytes (doctorCount s) ++
  int_bytes (appointmentCount s) ++
  int_bytes (nextPatientId s) ++
  int_bytes (nextDiseaseId s) ++
  int_bytes (nextDoctorId s) ++
  int_bytes (nextAppointmentId s) ++
  fwrite_records encode_Patient (junk 0%nat) (patientCount s) (patients s) ++
  fwrite_records encode_Disease (junk 1%nat) (diseaseCount s) (diseases s) ++
  fwrite_records encode_Doctor (junk 2%nat) (doctorCount s) (doctors s) ++
  fwrite_records encode_Appointment (junk 3%nat) (appointmentCount s) (appointments s).

(** [fread(&x, sizeof(int), 1, fp)] on the rest of the file, [x] holding
    [old]: at the end of the file nothing is read and [x] keeps its value;
    [None] when only part of an [int] is left, which makes [x]
    indeterminate. *)
Definition fread_int (old : Z) (bs : list Z) : option (Z * list Z) :=
  if (4 <=? length bs)%nat then Some (bytes_int (take 4 bs), drop 4 bs)
  else if (length bs =? 0)%nat then Some (old, bs)
  else None.

(** Up to [n] records of [size] bytes each from the front of the file:
    reading stops at the end of the file; [None] when the file ends inside
    a record, which makes that record indeterminate. *)
Fixpoint fread_array {A : Type} (size : nat) (decode : list Z -> A) (n : nat)
    (bs : list Z) : option (list A * list Z) :=
  match n with
  | O => Some ([], bs)
  | S n' =>
      if (size <=? length bs)%nat then
        '(recs, rest) ← fread_array size decode n' (drop size bs);
        Some (decode (take size bs) :: recs, rest)
      else if (length bs =? 0)%nat then Some ([], bs)
      else None
  end.

(** [if (count > 0) fread(arr, sizeof(T), count, fp);] into an array of
    [max] elements: the records read replace the front of the array.
    [None] when a record is cut short or the records read run past the
    end of the array. *)
Definition fread_records {A : Type} (size : nat) (decode : list Z -> A) (max count : Z)
    (arr : list A) (bs : list Z) : option (list A * list Z) :=
  if 0 <? count then
    '(recs, rest) ← fread_array size decode (Z.to_nat count) bs;
    if Z.of_nat (length recs) <=? max
    then Some (recs ++ drop (length recs) arr, rest)
    else None
  else Some (arr, bs).

(** [loadData] on the save file ([None]: there is no file, the globals
    keep their values).  The result is [None] where the C program has no
    defined state. *)
Definition loadData (file : option (list Z)) (s : state) : option state :=
  match file with
  | None => Some s
  | Some bs =>
      '(pc, bs) ← fread_int (patientCount s) bs;
      '(sc, bs) ← fread_int (diseaseCount s) bs;
      '(dc, bs) ← fread_int (doctorCount s) bs;
      '(ac, bs) ← fread_int (appointmentCount s) bs;
      '(np, bs) ← fread_int (nextPatientId s) bs;
      '(ns, bs) ← fread_int (nextDiseaseId s) bs;
      '(nd, bs) ← fread_int (nextDoctorId s) bs;
      '(na, bs) ← fread_int (nextAppointmentId s) bs;
      '(ps, bs) ← fread_records sizeof_Patient decode_Patient MAX_PATIENTS pc (patients s) bs;
      '(ss, bs) ← fread_records sizeof_Disease decode_Disease MAX_DISEASES sc (diseases s) bs;
      '(ds, bs) ← fread_records sizeof_Doctor decode_Doctor MAX_DOCTORS dc (doctors s) bs;
      '(aps, bs) ← fread_records sizeof_Appointment decode_Appointment MAX_APPOINTS ac
                     (appointments s) bs;
      Some (mkState ps ss ds aps pc sc dc ac np ns nd na)
  end.

(** ** Invariants *)

(** The array sizes and the range of the counts. *)
Definition in_bounds (s : state) : Prop :=
  length (patients s) = Z.to_nat MAX_PATIENTS /\
  length (diseases s) = Z.to_nat MAX_DISEASES /\
  length (doctors s) = Z.to_nat MAX_DOCTORS /\
  length (appointments s) = Z.to_nat MAX_APPOINTS /\
  0 <= patientCount s <= MAX_PATIENTS /\
  0 <= diseaseCount s <= MAX_DISEASES /\
  0 <= doctorCount s <= MAX_DOCTORS /\
  0 <= appointmentCount s <= MAX_APPOINTS.

(** [s] is a C string that fits a buffer of [size] bytes. *)
Definition fits (size : nat) (s : string) : Prop := c_take (size - 1) s = s.

Definition wf_Patient (p : Patient.t) : Prop :=
  in_int (Patient.id p) /\ fits 100 (Patient.name p) /\ in_int (Patient.age p) /\
  fits 10 (Patient.gender p) /\ fits 20 (Patient.phone p) /\
  fits 100 (Patient.disease p) /\ in_int (Patient.doctorId p).

Definition wf_Disease (d : Disease.t) : Prop :=
  in_int (Disease.id d) /\ fits 100 (Disease.name d) /\
  fits 200 (Disease.symptoms d) /\ fits 200 (Disease.treatment d).

Definition wf_Doctor (d : Doctor.t) : Prop :=
  in_int (Doctor.id d) /\ fits 100 (Doctor.name d) /\
  fits 100 (Doctor.specialization d) /\ fits 20 (Doctor.phone d).

Definition wf_Appointment (a : Appointment.t) : Prop :=
  in_int (Appointment.id a) /\ in_int (Appointment.patientId a) /\
  in_int (Appointment.doctorId a) /\
  fits 20 (Appointment.date a) /\ fits 10 (Appointment.time a).

(** Every live record holds values of its C types. *)
Definition wf_state (s : state) : Prop :=
  in_bounds s /\
  in_int (nextPatientId s) /\ in_int (nextDiseaseId s) /\
  in_int (nextDoctorId s) /\ in_int (nextAppointmentId s) /\
  Forall wf_Patient (live_patients s) /\
  Forall wf_Disease (live_diseases s) /\
  Forall wf_Doctor (live_doctors s) /\
  Forall wf_Appointment (live_appointments s).

(** Two states with the same counts, counters and live records. *)
Definition same_data (s1 s2 : state) : Prop :=
  patientCount s1 = patientCount s2 /\ diseaseCount s1 = diseaseCount s2 /\
  doctorCount s1 = doctorCount s2 /\ appointmentCount s1 = appointmentCount s2 /\
  nextPatientId s1 = nextPatientId s2 /\ nextDiseaseId s1 = nextDiseaseId s2 /\
  nextDoctorId s1 = nextDoctorId s2 /\ nextAppointmentId s1 = nextAppointmentId s2 /\
  live_patients s1 = live_patients s2 /\ live_diseases s1 = live_diseases s2 /\
  live_doctors s1 = live_doctors s2 /\ live_appointments s1 = live_appointments s2.

(** What the C standard asks of a comparison function handed to [qsort]. *)
Definition consistent {A : Type} (cmp : A -> A -> Z) : Prop :=
  (forall x y, Z.sgn (cmp y x) = - Z.sgn (cmp x y)) /\
  (forall x y z, cmp x y <= 0 -> cmp y z <= 0 -> cmp x z <= 0).

(** What the C standard promises of [qsort] in return: the array is
    reordered into ascending order; nothing is said about ties. *)
Definition qsort_contract
    (qsort : (Patient.t -> Patient.t -> Z) -> list Patient.t -> list Patient.t) : Prop :=
  forall cmp l, consistent cmp ->
    qsort cmp l ≡ₚ l /\ Sorted (fun x y => cmp x y <= 0) (qsort cmp l).

(** A [qsort] that meets the contract: merge sort on [cmp x y <= 0]. *)
Definition merge_qsort (cmp : Patient.t -> Patient.t -> Z) (l : list Patient.t)
    : list Patient.t :=
  @merge_sort _ (fun x y => cmp x y <= 0) (fun x y => decide (cmp x y <= 0)) l.

#[global] Instance ci_eq_dec (char_signed : bool) (a b : string) :
  Decision (ci_eq char_signed a b) :=
  decide (ci_key char_signed a = ci_key char_signed b).

Section Reachable.

Variable char_signed : bool.
Variable qsort : (Patient.t -> Patient.t -> Z) -> list Patient.t -> list Patient.t.

(** The states of a session: the empty database or a file saved by an
    earlier session is loaded at start-up, then commands run. *)
Inductive reachable : state -> Prop :=
  | reach_init : reachable init_state
  | reach_step c s :
      reachable s -> command_valid c ->
      reachable (fst (dispatch char_signed qsort c s))
  | reach_load junk s s' :
      reachable s -> loadData (Some (saveData junk s)) init_state = Some s' ->
      reachable s'.

End Reachable.

(** The ids reported by the successful adds of each type, in order. *)
Definition patient_ids (os : list outcome) : list Z :=
  omap (fun o => match o with PatientAdded id _ => Some id | _ => None end) os.
Definition doctor_ids (os : list outcome) : list Z :=
  omap (fun o => match o with DoctorAdded id => Some id | _ => None end) os.
Definition disease_ids (os : list outcome) : list Z :=
  omap (fun o => match o with DiseaseAdded id => Some id | _ => None end) os.
Definition appointment_ids (os : list outcome) : list Z :=
  omap (fun o => match o with AppointmentScheduled id _ => Some id | _ => None end) os.

(** [1; 2; ...; n] *)
Definition first_ids (n : nat) : list Z := map Z.of_nat (seq 1 n).

(** ** Sample sessions *)

(** A session that fills every table to its capacity. *)
Definition fill_commands : list command :=
  replicate 100 (AddDoctor "Dr. Smith" "Cardiology" "555-0100") ++
  replicate 200 (AddDisease "Influenza" "Fever, cough" "Rest, fluids") ++
  replicate 500 (AddPatient "John" 42 "M" "555-0199" "Influenza" 1) ++
  replicate 1000 (AddAppointment 1 1 "2026-01-15" "09:30").

Definition full_state : state :=
  Eval vm_compute in fst (run true merge_qsort fill_commands init_state).

(** One doctor and one patient registered without a doctor ... *)
Definition intake_only : state :=
  Eval vm_compute in
    fst (run true merge_qsort
           [AddDoctor "Dr. Smith" "Cardiology" "555-0100";
            AddPatient "John" 42 "M" "555-0199" "Influenza" 0]
           init_state).

(** ... and then one appointment of that patient with that doctor. *)
Definition small_clinic : state :=
  Eval vm_compute in fst (addAppointment intake_only 1 1 "2026-01-15" "09:30").

(** Three patients registered in the order Bob, alice, Charlie. *)
Definition ward : state :=
  Eval vm_compute in
    fst (run true merge_qsort
           [AddPatient "Bob" 51 "M" "555-0111" "Angina" 0;
            AddPatient "alice" 34 "F" "555-0112" "Migraine" 0;
            AddPatient "Charlie" 8 "M" "555-0113" "Measles" 0]
           init_state).

(** A session that interleaves adds of every type with a delete and a
    cancel. *)
Definition busy_session : list command :=
  [AddPatient "Bob" 51 "M" "555-0111" "Angina" 0;
   AddDoctor "Dr. Smith" "Cardiology" "555-0100";
   AddPatient "alice" 34 "F" "555-0112" "Migraine" 1;
   DeletePatient 1 "y";
   AddDisease "Influenza" "Fever, cough" "Rest, fluids";
   AddAppointment 2 1 "2026-01-15" "09:30";
   AddPatient "Charlie" 8 "M" "555-0113" "Measles" 9;
   CancelAppointment 1 "Y";
   AddAppointment 3 1 "2026-01-16" "11:00";
   AddAppointment 1 1 "2026-01-17" "11:00";
   SortPatientsByName;
   AddDoctor "Dr. Jones" "Neurology" "555-0102";
   AddAppointment 2 2 "2026-01-18" "08:15"].

(** [a; a+1; ...], [n] of them. *)
Fixpoint count_from (a : Z) (n : nat) : list Z :=
  match n with
  | O => []
  | S n' => a :: count_from (a + 1) n'
  end.

(** [n] copies of the character [c]. *)
Fixpoint copies (n : nat) (c : ascii) : string :=
  match n with
  | O => EmptyString
  | S n' => String c (copies n' c)
  end.

(** The empty database with one patient whose name fills its buffer. *)
Definition long_name_clinic : state :=
  Eval vm_compute in
    fst (addPatient init_state (copies 99 "a") 42 "M" "555-0199" "Influenza" 0).

(** ** Views and searches that only read the tables *)

(** The doctor line of a patient entry. *)
Inductive doctor_column : Type :=
  | DoctorNamed (name : string) (id : Z)   (* "Doctor: %s (ID: %d)" *)
  | DoctorUnknown (id : Z)                 (* "Doctor: Unknown (ID: %d)" *)
  | DoctorNotAssigned.                     (* "Doctor: Not Assigned" *)

Inductive view : Type :=
  | NothingToShow                          (* "No patients available." and the like *)
  | PatientList (rows : list (Patient.t * doctor_column))
  | DoctorList (rows : list (Z * string * string))
  | DiseaseList (rows : list Disease.t)
  | PatientFound (p : Patient.t) (doctor : doctor_column)   (* "Patient Found!" *)
  | PatientNotFound (id : Z)               (* "Patient with ID %d not found." *)
  | PatientInvalidId.                      (* "Invalid ID." *)

(** Helper to safely get patient name for prompts *)
Definition getPatientName (s : state) (id : Z) : string :=
  match findPatientIndex s id with
  | Some i => Patient.name (patients s !!! i)
  | None => "Unknown"%string
  end.

Definition displayDoctors (s : state) : view :=
  if doctorCount s =? 0 then NothingToShow
  else DoctorList (map (fun d => (Doctor.id d, Doctor.name d, Doctor.specialization d))
                       (live_doctors s)).

Definition viewDoctors (s : state) : view := displayDoctors s.

Definition viewPatients (s : state) : view :=
  if patientCount s =? 0 then NothingToShow
  else PatientList
         (map (fun p =>
                 (p,
                  if negb (Patient.doctorId p =? 0) then
                    DoctorNamed
                      match findDoctorIndex s (Patient.doctorId p) with
                      | Some doc_idx => strncpy_buf 100 (Doctor.name (doctors s !!! doc_idx))
                      | None => "Unknown"%string
                      end
                      (Patient.doctorId p)
                  else DoctorNotAssigned))
              (live_patients s)).

Definition searchPatientById (s : state) (id : Z) : view :=
  if id <=? 0 then PatientInvalidId
  else
    match findPatientIndex s id with
    | Some i =>
        let p := patients s !!! i in
        PatientFound p
          (if negb (Patient.doctorId p =? 0) then
             match findDoctorIndex s (Patient.doctorId p) with
             | Some j => DoctorNamed (Doctor.name (doctors s !!! j)) (Doctor.id (doctors s !!! j))
             | None => DoctorUnknown (Patient.doctorId p)
             end
           else DoctorNotAssigned)
    | None => PatientNotFound id
    end.

Definition displayDiseases (s : state) : view :=
  if diseaseCount s =? 0 then NothingToShow
  else DiseaseList (live_diseases s).

(** ** Integer input *)

(** What [strtol(buffer, &endptr, 10)] hands back: the value, the number
    of characters before [endptr], and whether [errno] was set to
    [ERANGE]. *)
Record strtol_result : Type := mkStrtol {
  strtol_value : Z;
  strtol_consumed : nat;
  strtol_erange : bool
}.

Inductive rejection : Type :=
  | NotANumber          (* "Invalid input. Please enter a number." *)
  | NotOnlyANumber      (* "Invalid input. Please enter only a number." *)
  | OutOfRange          (* "Number is out of range." *)
  | OutOfIdRange.       (* "Number is out of range for an ID." *)

(** The rest of a C string from its [n]-th character on. *)
Fixpoint c_drop (n : nat) (s : string) : string :=
  match n, s with
  | S n', String _ s' => c_drop n' s'
  | _, _ => s
  end.

(** ** Terminal input *)

Definition nul : ascii := "000"%char.
Definition newline : ascii := "010"%char.

(** The characters [fgets] stores when it may store [n] of them: those
    up to and including the first newline, at most [n]; and the input
    left behind. *)
Fixpoint fgets_chars (n : nat) (input : string) : string * string :=
  match n, input with
  | S n', String c input' =>
      if char_code c =? 10 then (String c EmptyString, input')
      else let '(stored, rest) := fgets_chars n' input' in (String c stored, rest)
  | _, _ => (EmptyString, input)
  end.

(** [fgets(buffer, size, stdin)] on the characters still to come from
    the standard input: [None] is the [NULL] returned at the end of the
    input. *)
Definition fgets (size : nat) (input : string) : option (string * string) :=
  match input with
  | EmptyString => None
  | _ => Some (fgets_chars (size - 1) input)
  end.

(** [while ((c = getchar()) != '\n' && c != EOF) {}] *)
Fixpoint clear_input (input : string) : string :=
  match input with
  | EmptyString => EmptyString
  | String c input' => if char_code c =? 10 then input' else clear_input input'
  end.

Module Stdin.

(** [getLine(prompt, buffer, size)] on the standard input: the C string
    left in [buffer] and the input left behind.  [strlen] sees the
    stored characters up to the first NUL; when that is none,
    [strlen(buffer) - 1] wraps and [buffer[ln]] lies outside the buffer
    ([None]). *)
Definition getLine (size : nat) (input : string) : option (string * string) :=
  match fgets size input with
  | Some (stored, rest) =>
      let buffer := c_take (String.length stored) stored in
      match String.length buffer with
      | O => None
      | S ln =>
          if deref (c_drop ln buffer) =? 10 then Some (c_take ln buffer, rest)
          else Some (buffer, clear_input rest)
      end
  | None => Some (EmptyString, input)
  end.

End Stdin.

(** A typed line without NUL and newline characters, and one without
    newline characters. *)
Fixpoint plain_line (l : string) : bool :=
  match l with
  | EmptyString => true
  | String c l' => negb (char_code c =? 0) && negb (char_code c =? 10) && plain_line l'
  end.

Fixpoint no_newline (l : string) : bool :=
  match l with
  | EmptyString => true
  | String c l' => negb (char_code c =? 10) && no_newline l'
  end.

(** The standard input made of the typed [lines], each ended by Enter,
    and then [rest]. *)
Fixpoint typed (lines : list string) (rest : string) : string :=
  match lines with
  | [] => rest
  | l :: lines' => (l ++ String newline (typed lines' rest))%string
  end.

Section IntegerInput.

(** The C library's [strtol] in base 10 and the bounds of [long]. *)
Variable strtol : string -> strtol_result.
Variable LONG_MIN LONG_MAX : Z.

(** The checks of one round of the loop of [get_int_from_user] on the
    line just read into [buffer]. *)
Definition check_int (buffer : string) : rejection + Z :=
  let r := strtol buffer in
  let value := strtol_value r in
  if (strtol_consumed r =? 0)%nat then inl NotANumber
  else if negb (deref (c_drop (strtol_consumed r) buffer) =? 0) then inl NotOnlyANumber
  else if strtol_erange r && ((value =? LONG_MAX) || (value =? LONG_MIN)) then inl OutOfRange
  else if (INT_MAX <? value) || (value <? INT_MIN) then inl OutOfIdRange
  else inr (wrap_int value).

(** What [get_int_from_user] comes to on a given standard input. *)
Inductive reading : Type :=
  | Returned (value : Z) (rest : string) (complaints : list rejection)
      (* the [int] returned, the input left, the complaints printed *)
  | NeverReturns (complaints : list rejection)
      (* end of input reached on a rejected read: every further round
         reads the empty string and is rejected alike *)
  | OutOfBounds (complaints : list rejection).
      (* [getLine] read outside its buffer *)

Definition complain (why : rejection) (r : reading) : reading :=
  match r with
  | Returned v rest whys => Returned v rest (why :: whys)
  | NeverReturns whys => NeverReturns (why :: whys)
  | OutOfBounds whys => OutOfBounds (why :: whys)
  end.

(** At most [rounds] rounds of the [while (1)] loop of
    [get_int_from_user] on the standard input [input]; [None] when the
    loop is still running after them. *)
Fixpoint get_int_from_user_rounds (rounds : nat) (input : string) : option reading :=
  match rounds with
  | O => None
  | S rounds' =>
      match Stdin.getLine 100 input with
      | None => Some (OutOfBounds [])
      | Some (buffer, rest) =>
          match check_int buffer with
          | inr v => Some (Returned v rest [])
          | inl why =>
              match input with
              | EmptyString => Some (NeverReturns [why])
              | _ => complain why <$> get_int_from_user_rounds rounds' rest
              end
          end
      end
  end.

(** Every round before the end of the input takes at least one character
    of it, so one round per character and one more decide the loop. *)
Definition get_int_from_user (input : string) : option reading :=
  get_int_from_user_rounds (S (String.length input)) input.

Definition get_choice (input : string) : option reading :=
  get_int_from_user input.

End IntegerInput.

(** A [strtol] for base 10 as the C standard describes it, with a 64-bit
    [long]: white space, an optional sign, digits; the value saturates
    with [ERANGE]. *)
Definition is_space (c : Z) : bool :=
  (c =? 32) || ((9 <=? c) && (c <=? 13)).

Fixpoint skip_spaces (s : string) : nat * string :=
  match s with
  | String c s' => if is_space (char_code c) then
                     let '(n, r) := skip_spaces s' in (S n, r)
                   else (O, s)
  | EmptyString => (O, s)
  end.

Fixpoint read_digits (s : string) (acc : Z) : nat * Z :=
  match s with
  | String c s' =>
      let d := char_code c in
      if (48 <=? d) && (d <=? 57) then
        let '(n, v) := read_digits s' (10 * acc + (d - 48)) in (S n, v)
      else (O, acc)
  | EmptyString => (O, acc)
  end.

Definition strtol10 (s : string) : strtol_result :=
  let '(nsp, s1) := skip_spaces s in
  let '(nsign, negative, s2) :=
    match s1 with
    | String c s' =>
        if char_code c =? 45 then (1%nat, true, s')
        else if char_code c =? 43 then (1%nat, false, s')
        else (0%nat, false, s1)
    | EmptyString => (0%nat, false, s1)
    end in
  let '(nd, magnitude) := read_digits s2 0 in
  if (nd =? 0)%nat then mkStrtol 0 0 false
  else
    let v := if negative then - magnitude else magnitude in
    if 9223372036854775807 <? v then mkStrtol 9223372036854775807 (nsp + nsign + nd) true
    else if v <? -9223372036854775808 then mkStrtol (-9223372036854775808) (nsp + nsign + nd) true
    else mkStrtol v (nsp + nsign + nd) false.

(** ** Main *)

(** One pass of the menu: the choice typed and the input its operation
    then reads. *)
Inductive menu_choice : Type :=
  | Choose (c : command)                  (* 1, 4, 5, 6, 7, 9, 11, 12, 13 *)
  | ChooseViewPatients                    (* 2 *)
  | ChooseSearchPatientById (id : Z)      (* 3 *)
  | ChooseViewDoctors                     (* 8 *)
  | ChooseDisplayDiseases                 (* 10 *)
  | ChooseSave                            (* 14 *)
  | ChooseExit                            (* 15 *)
  | ChooseOther (n : Z).                  (* anything else *)

Inductive shown : Type :=
  | Report (o : outcome)
  | View (v : view)
  | Saved                (* "Data saved successfully." *)
  | SaveFailed           (* "Error: Could not open save file for writing." *)
  | InvalidChoice        (* "Invalid choice. Try again." *)
  | Goodbye.             (* "Exiting. Goodbye!" *)

Definition menu_choice_valid (c : menu_choice) : Prop :=
  match c with
  | Choose c => command_valid c
  | _ => True
  end.

(** [saveData] against the file system: [writable] tells whether
    [fopen(..., "wb")] succeeds; when it does not, the file stays as it
    was. *)
Definition saveData_file (writable : bool) (junk : nat -> nat -> nat -> Z)
    (s : state) (file : option (list Z)) : option (list Z) * shown :=
  if writable then (Some (saveData junk s), Saved) else (file, SaveFailed).

Record session : Type := mkSession {
  globals : state;
  file : option (list Z);
  screen : list shown;
  running : bool
}.

Section Main.

Variable char_signed : bool.
Variable qsort : (Patient.t -> Patient.t -> Z) -> list Patient.t -> list Patient.t.
Variable writable : bool.

(** The unset bytes of the records in memory when the save happens with
    [n] choices still to come. *)
Variable junk : nat -> nat -> nat -> nat -> Z.

(** The [while (running)] loop of [main] over the choices typed. *)
Fixpoint menu_loop (cs : list menu_choice) (s : state) (f : option (list Z)) : session :=
  match cs with
  | [] => mkSession s f [] true
  | c :: cs' =>
      match c with
      | ChooseExit =>
          let '(f', msg) := saveData_file writable (junk (length cs')) s f in
          mkSession s f' [msg; Goodbye] false
      | _ =>
          let '(s', f', msg) :=
            match c with
            | Choose c => let '(s', o) := dispatch char_signed qsort c s in (s', f, Report o)
            | ChooseViewPatients => (s, f, View (viewPatients s))
            | ChooseSearchPatientById id => (s, f, View (searchPatientById s id))
            | ChooseViewDoctors => (s, f, View (viewDoctors s))
            | ChooseDisplayDiseases => (s, f, View (displayDiseases s))
            | ChooseSave =>
                let '(f', msg) := saveData_file writable (junk (length cs')) s f in
                (s, f', msg)
            | _ => (s, f, InvalidChoice)
            end in
          let r := menu_loop cs' s' f' in
          mkSession (globals r) (file r) (msg :: screen r) (running r)
      end
  end.

(** [main]: load, then the loop.  [None] where [loadData] leaves the
    globals undefined. *)
Definition main (f : option (list Z)) (cs : list menu_choice) : option session :=
  s ← loadData f init_state; Some (menu_loop cs s f).

End Main.

(** ** Invariants of the tables *)

(** Doctors and diseases are only ever appended: the live records carry
    the ids 1, 2, ..., count in that order. *)
Definition dense_ids (s : state) : Prop :=
  map Doctor.id (live_doctors s) = first_ids (Z.to_nat (doctorCount s)) /\
  nextDoctorId s = doctorCount s + 1 /\
  map Disease.id (live_diseases s) = first_ids (Z.to_nat (diseaseCount s)) /\
  nextDiseaseId s = diseaseCount s + 1.

(** Every doctor id stored on a live patient or appointment is 0 (on a
    patient only) or the id of a registered doctor. *)
Definition references_ok (s : state) : Prop :=
  Forall (fun p => Patient.doctorId p = 0 \/ 1 <= Patient.doctorId p <= doctorCount s)
         (live_patients s) /\
  Forall (fun a => 1 <= Appointment.doctorId a <= doctorCount s) (live_appointments s).

(** Patients and appointments, which can be removed: the live ids are
    distinct and were all handed out by the counter. *)
Definition distinct_ids (s : state) : Prop :=
  1 <= nextPatientId s /\
  Forall (fun p => 1 <= Patient.id p < nextPatientId s) (live_patients s) /\
  NoDup (map Patient.id (live_patients s)) /\
  1 <= nextAppointmentId s /\
  Forall (fun a => 1 <= Appointment.id a < nextAppointmentId s) (live_appointments s) /\
  NoDup (map Appointment.id (live_appointments s)).

(** ASCII letters of a string turned to lower case. *)
Fixpoint lower (s : string) : string :=
  match s with
  | EmptyString => EmptyString
  | String c s' => String (ascii_of_N (Z.to_N (tolower (char_code c)))) (lower s')
  end.

(** A save file cut off right after its eight integers. *)
Definition header_only (pc sc dc ac np ns nd na : Z) : list Z :=
  int_bytes pc ++ int_bytes sc ++ int_bytes dc ++ int_bytes ac ++
  int_bytes np ++ int_bytes ns ++ int_bytes nd ++ int_bytes na.

(** [patients[findPatientIndex(id)]], when the id is found. *)
Definition patient_with_id (s : state) (id : Z) : option Patient.t :=
  (fun i => patients s !!! i) <$> findPatientIndex s id.

(** The doctor line [col] shown for patient [p] is right: no doctor when
    the patient has none, else the name and id of the registered doctor
    whose id the patient stores. *)
Definition doctor_line_right (s : state) (p : Patient.t) (col : doctor_column) : Prop :=
  (Patient.doctorId p = 0 /\ col = DoctorNotAssigned) \/
  (Patient.doctorId p <> 0 /\
   exists d, d ∈ live_doctors s /\ Doctor.id d = Patient.doctorId p /\
             col = DoctorNamed (Doctor.name d) (Patient.doctorId p)).

(** The table operations among the choices typed before the first Exit. *)
Fixpoint commands_of (cs : list menu_choice) : list command :=
  match cs with
  | [] => []
  | ChooseExit :: _ => []
  | Choose c :: cs' => c :: commands_of cs'
  | _ :: cs' => commands_of cs'
  end.

(** A session: some doctors and patients, a look at the lists, a save in
    between, more work, Exit (and a choice typed too late). *)
Definition busy_choices : list menu_choice :=
  [Choose (AddDoctor "Dr. Smith" "Cardiology" "555-0100");
   Choose (AddPatient "Bob" 51 "M" "555-0111" "Angina" 1);
   ChooseViewPatients;
   ChooseSave;
   Choose (AddPatient "alice" 34 "F" "555-0112" "Migraine" 0);
   ChooseOther 0;
   Choose (AddAppointment 2 1 "2026-01-15" "09:30");
   ChooseSearchPatientById 2;
   ChooseExit;
   Choose (DeletePatient 1 "y")].

(** * Properties *)

(** ** Finder functions *)

Lemma find_index_Some {A : Type} (P : A -> Prop) `{forall x, Decision (P x)}
    (l : list A) (i : nat) :
  fst <$> list_find P l = Some i ->
  exists x, l !! i = Some x /\ P x /\ forall j y, l !! j = Some y -> (j < i)%nat -> ~ P y.
Proof.
  destruct (list_find P l) as [[i' x]|] eqn:E; cbn; [|discriminate].
  intros [= <-]. apply list_find_Some in E. exists x. exact E.
Qed.

Lemma find_index_None {A : Type} (P : A -> Prop) `{forall x, Decision (P x)}
    (l : list A) :
  fst <$> list_find P l = None <-> Forall (fun x => ~ P x) l.
Proof.
  destruct (list_find P l) as [[i x]|] eqn:E; cbn.
  - split; [discriminate|]. intros HF.
    apply list_find_Some in E as (Hl & HP & _).
    rewrite Forall_forall in HF.
    destruct (HF x); [by eapply list_elem_of_lookup_2 | done].
  - split; [|done]. intros _. by apply list_find_None in E.
Qed.

Lemma find_index_elem {A : Type} (P : A -> Prop) `{forall x, Decision (P x)}
    (l : list A) (x : A) :
  x ∈ l -> P x -> exists i, fst <$> list_find P l = Some i.
Proof.
  intros Hin HP.
  destruct (fst <$> list_find P l) as [i|] eqn:E; [eauto|].
  apply find_index_None in E. rewrite Forall_forall in E.
  destruct (E x Hin HP).
Qed.

Lemma lookup_take_Some_inv {A : Type} (l : list A) (n i : nat) (x : A) :
  take n l !! i = Some x -> l !! i = Some x /\ (i < n)%nat.
Proof.
  intros E. assert (i < n)%nat.
  { apply lookup_lt_Some in E. rewrite length_take in E. lia. }
  split; [|done]. by rewrite lookup_take_lt in E.
Qed.

Lemma findPatientIndex_Some s id i :
  findPatientIndex s id = Some i ->
  exists p, patients s !! i = Some p /\ Patient.id p = id /\
            (Z.of_nat i < patientCount s) /\ live_patients s !! i = Some p.
Proof.
  intros E. apply find_index_Some in E as (p & Hp & Hid & _).
  pose proof Hp as Hp'. apply lookup_take_Some_inv in Hp as [Hp Hlt].
  exists p. repeat split; try done. lia.
Qed.

Lemma findDoctorIndex_Some s id i :
  findDoctorIndex s id = Some i -> 0 < doctorCount s.
Proof.
  intros E. apply find_index_Some in E as (p & Hp & _).
  apply lookup_take_Some_inv in Hp as [_ Hlt]. lia.
Qed.

(** Writing one past the live records of an array extends them. *)
Lemma take_insert_next {A : Type} (arr : list A) (n : Z) (x : A) :
  0 <= n -> (Z.to_nat n < length arr)%nat ->
  take (Z.to_nat (n + 1)) (<[Z.to_nat n := x]> arr) = take (Z.to_nat n) arr ++ [x].
Proof.
  intros Hn Hlt. replace (Z.to_nat (n + 1)) with (S (Z.to_nat n)) by lia.
  rewrite (take_S_r _ _ x) by (by apply list_lookup_insert_eq).
  f_equal. by rewrite take_insert_ge.
Qed.

(** ** C6: adds into a full table *)

(** C6. When a table is at its bound (patients 500, diseases 200, doctors
    100, appointments 1000) the corresponding add reports
    [CapacityExceeded] and returns the state it was given: contents, count
    and next-id counter are untouched.  In particular the patient table
    still has exactly 500 live records after an attempted 501st add. *)
Theorem add_at_capacity_noop (s : state) :
  (patientCount s = MAX_PATIENTS ->
     forall name age gender phone disease docId,
       addPatient s name age gender phone disease docId = (s, CapacityExceeded)) /\
  (diseaseCount s = MAX_DISEASES ->
     forall name symptoms treatment,
       addDisease s name symptoms treatment = (s, CapacityExceeded)) /\
  (doctorCount s = MAX_DOCTORS ->
     forall name specialization phone,
       addDoctor s name specialization phone = (s, CapacityExceeded)) /\
  (appointmentCount s = MAX_APPOINTS ->
     forall pid did date time,
       addAppointment s pid did date time = (s, CapacityExceeded)) /\
  (patientCount s = MAX_PATIENTS -> in_bounds s ->
     forall name age gender phone disease docId,
       length (live_patients (fst (addPatient s name age gender phone disease docId))) = 500%nat).
Proof.
  repeat split.
  - intros E *. unfold addPatient. rewrite E. reflexivity.
  - intros E *. unfold addDisease. rewrite E. reflexivity.
  - intros E *. unfold addDoctor. rewrite E. reflexivity.
  - intros E *. unfold addAppointment. rewrite E. reflexivity.
  - intros E (Hlen & _) *. unfold addPatient. rewrite E. simpl.
    unfold live_patients. rewrite length_take, Hlen, E. reflexivity.
Qed.

Lemma full_state_in_bounds : in_bounds full_state.
Proof. repeat split; vm_compute; congruence. Qed.

Lemma add_at_capacity_noop_witness :
  addPatient full_state "Jane" 30 "F" "555-0101" "Asthma" 1 = (full_state, CapacityExceeded) /\
  addDisease full_state "Asthma" "Wheezing" "Inhaler" = (full_state, CapacityExceeded) /\
  addDoctor full_state "Dr. Jones" "Neurology" "555-0102" = (full_state, CapacityExceeded) /\
  addAppointment full_state 1 1 "2026-02-01" "10:00" = (full_state, CapacityExceeded) /\
  length (live_patients (fst (addPatient full_state "Jane" 30 "F" "555-0101" "Asthma" 1)))
    = 500%nat.
Proof.
  destruct (add_at_capacity_noop full_state) as (Hp & Hs & Hd & Ha & Hn).
  split; [apply Hp; reflexivity|].
  split; [apply Hs; reflexivity|].
  split; [apply Hd; reflexivity|].
  split; [apply Ha; reflexivity|].
  apply Hn; [reflexivity | exact full_state_in_bounds].
Defined.

(** ** C9: intake with a doctor id that resolves to nobody *)

(** C9, as stated, fails on "silently ... exactly as if no doctor had
    been requested": for a non-zero id that matches no doctor,
    [addPatient] prints that no doctor was found with that id, a notice
    it does not print when no doctor is requested (id 0).  Only the
    states of the two runs are the same. *)
Lemma addPatient_unknown_doctor_counterexample :
  findDoctorIndex small_clinic 7 = None /\
  snd (addPatient small_clinic "Jane" 30 "F" "555-0101" "Asthma" 7)
    = PatientAdded 2 (NoDoctorFound 7) /\
  snd (addPatient small_clinic "Jane" 30 "F" "555-0101" "Asthma" 0)
    = PatientAdded 2 AssignedNone /\
  snd (addPatient small_clinic "Jane" 30 "F" "555-0101" "Asthma" 7)
    <> snd (addPatient small_clinic "Jane" 30 "F" "555-0101" "Asthma" 0) /\
  fst (addPatient small_clinic "Jane" 30 "F" "555-0101" "Asthma" 7)
    = fst (addPatient small_clinic "Jane" 30 "F" "555-0101" "Asthma" 0).
Proof. split_and!; vm_compute; (reflexivity || discriminate). Qed.

(** C9 (amended). During patient intake into a table with room left, a
    doctor id that matches no existing doctor (whether it is non-zero and
    unknown, or no doctor exists at all) does not reject the patient:
    the add reports success with the next patient id, the new record is
    appended to the live records carrying that id and [doctorId] 0, and
    the resulting state is the one obtained by asking for no doctor
    (id 0).  The fallback is not silent: the report carries the notice of
    the assignment step, which is "no doctor found with this id" for a
    non-zero id while doctors exist, "assigned none" for id 0, and "no
    doctors in system" when the doctor table is empty. *)
Theorem addPatient_unknown_doctor (s : state) (name : string) (age : Z)
    (gender phone disease : string) (docId : Z) :
  in_bounds s -> patientCount s < MAX_PATIENTS ->
  findDoctorIndex s docId = None \/ doctorCount s = 0 ->
  let s' := fst (addPatient s name age gender phone disease docId) in
  snd (addPatient s name age gender phone disease docId)
    = PatientAdded (nextPatientId s)
        (if 0 <? doctorCount s
         then if docId =? 0 then AssignedNone else NoDoctorFound docId
         else NoDoctorsInSystem) /\
  live_patients s' =
    live_patients s ++
      [Patient.mk (nextPatientId s) (strncpy_buf 100 (getLine 200 name)) age
         (strncpy_buf 10 (getLine 200 gender)) (strncpy_buf 20 (getLine 200 phone))
         (strncpy_buf 100 (getLine 200 disease)) 0] /\
  patientCount s' = patientCount s + 1 /\
  s' = fst (addPatient s name age gender phone disease 0).
Proof.
  intros Hb Hroom Hdoc s'. subst s'.
  destruct Hb as (Hlen & _ & _ & _ & Hcnt & _).
  unfold addPatient.
  destruct (MAX_PATIENTS <=? patientCount s) eqn:Hfull; [lia|].
  assert (Hno : (if 0 <? doctorCount s
                 then negb (docId =? 0)
                      && bool_decide (is_Some (findDoctorIndex s docId))
                 else false) = false).
  { destruct Hdoc as [E|E].
    - destruct (0 <? doctorCount s); [|done].
      rewrite E, bool_decide_eq_false_2, andb_false_r; [done|].
      by intros [? ?].
    - rewrite E. done. }
  change (findDoctorIndex (set_nextPatientId (wrap_int (nextPatientId s + 1)) s) docId)
    with (findDoctorIndex s docId).
  cbn [set_nextPatientId doctorCount patientCount patients].
  destruct (0 <? doctorCount s) eqn:Hdc.
  - rewrite Hno. cbn. repeat split.
    + by destruct (docId =? 0).
    + unfold live_patients. cbn. apply take_insert_next; [lia|].
      rewrite Hlen. unfold MAX_PATIENTS in *. lia.
  - cbn. repeat split.
    unfold live_patients. cbn. apply take_insert_next; [lia|].
    rewrite Hlen. unfold MAX_PATIENTS in *. lia.
Qed.

Lemma addPatient_unknown_doctor_witness :
  let s' := fst (addPatient small_clinic "Jane" 30 "F" "555-0101" "Asthma" 7) in
  snd (addPatient small_clinic "Jane" 30 "F" "555-0101" "Asthma" 7)
    = PatientAdded 2 (NoDoctorFound 7) /\
  live_patients s' =
    live_patients small_clinic ++ [Patient.mk 2 "Jane" 30 "F" "555-0101" "Asthma" 0] /\
  patientCount s' = 2 /\
  s' = fst (addPatient small_clinic "Jane" 30 "F" "555-0101" "Asthma" 0).
Proof.
  apply (addPatient_unknown_doctor small_clinic "Jane" 30 "F" "555-0101" "Asthma" 7).
  - repeat split; vm_compute; congruence.
  - reflexivity.
  - left. reflexivity.
Defined.

(** ** C1: the primary doctor set by scheduling *)

(** C1. When an appointment is created (the patient id and the doctor id
    both resolve and the appointment table has room), the appointment is
    recorded with the given doctor, and the referenced patient's
    [doctorId] becomes that doctor if it was 0 and stays what it was
    otherwise; nothing else of that patient, and no other patient,
    changes. *)
Theorem addAppointment_primary_doctor (s : state) (pid did : Z) (date time : string)
    (pi : nat) (p : Patient.t) :
  in_bounds s -> appointmentCount s < MAX_APPOINTS ->
  findPatientIndex s pid = Some pi -> is_Some (findDoctorIndex s did) ->
  patients s !! pi = Some p ->
  let s' := fst (addAppointment s pid did date time) in
  (exists primary_set,
     snd (addAppointment s pid did date time)
       = AppointmentScheduled (nextAppointmentId s) primary_set) /\
  live_appointments s' =
    live_appointments s ++
      [Appointment.mk (nextAppointmentId s) pid did (getLine 20 date) (getLine 10 time)] /\
  (Patient.doctorId p = 0 ->
     patients s' !! pi = Some (Patient.with_doctorId did p)) /\
  (Patient.doctorId p <> 0 -> patients s' !! pi = Some p) /\
  (forall j, j <> pi -> patients s' !! j = patients s !! j) /\
  patientCount s' = patientCount s.
Proof.
  intros Hb Hroom Hpi [di Hdi] Hp s'. subst s'.
  destruct Hb as (_ & _ & _ & Hlen & _ & _ & _ & Hcnt).
  pose proof (findPatientIndex_Some _ _ _ Hpi) as (p' & Hp' & _ & Hlt & _).
  pose proof (findDoctorIndex_Some _ _ _ Hdi) as Hdc.
  assert (p' = p) as -> by congruence.
  unfold addAppointment.
  destruct (MAX_APPOINTS <=? appointmentCount s) eqn:Hfull; [lia|].
  destruct (patientCount s =? 0) eqn:Hpc; [lia|].
  destruct (doctorCount s =? 0) eqn:Hdc0; [lia|].
  rewrite Hpi, Hdi. cbn.
  rewrite (list_lookup_total_correct _ _ _ Hp).
  assert (Happ : take (Z.to_nat (appointmentCount s + 1))
                   (<[Z.to_nat (appointmentCount s) :=
                        Appointment.mk (nextAppointmentId s) pid did
                          (getLine 20 date) (getLine 10 time)]> (appointments s))
                 = live_appointments s ++
                     [Appointment.mk (nextAppointmentId s) pid did
                        (getLine 20 date) (getLine 10 time)]).
  { apply take_insert_next; [lia|]. rewrite Hlen. unfold MAX_APPOINTS in *. lia. }
  destruct (Patient.doctorId p =? 0) eqn:Hz; cbn; unfold live_appointments; cbn.
  - repeat split; try done.
    + eauto.
    + intros _. apply list_lookup_insert_eq. by eapply lookup_lt_Some.
    + intros Hne. lia.
    + intros j Hj. by apply list_lookup_insert_ne.
  - repeat split; try done.
    + eauto.
    + intros E. lia.
Qed.

Lemma addAppointment_primary_doctor_witness :
  let s := fst (addPatient small_clinic "Jane" 30 "F" "555-0101" "Asthma" 0) in
  let s' := fst (addAppointment s 2 1 "2026-02-01" "10:00") in
  (exists primary_set,
     snd (addAppointment s 2 1 "2026-02-01" "10:00") = AppointmentScheduled 2 primary_set) /\
  live_appointments s' =
    live_appointments s ++ [Appointment.mk 2 2 1 "2026-02-01" "10:00"] /\
  (0 = 0 -> patients s' !! 1%nat = Some (Patient.mk 2 "Jane" 30 "F" "555-0101" "Asthma" 1)) /\
  (0 <> 0 -> patients s' !! 1%nat = Some (Patient.mk 2 "Jane" 30 "F" "555-0101" "Asthma" 0)) /\
  (forall j, j <> 1%nat -> patients s' !! j = patients s !! j) /\
  patientCount s' = patientCount s.
Proof.
  intros s s'.
  apply (addAppointment_primary_doctor s 2 1 "2026-02-01" "10:00" 1
           (Patient.mk 2 "Jane" 30 "F" "555-0101" "Asthma" 0)).
  - repeat split; vm_compute; congruence.
  - reflexivity.
  - reflexivity.
  - exists 0%nat. reflexivity.
  - reflexivity.
Defined.

(** ** C5: scheduling against a missing patient or doctor *)

(** C5, as stated, fails: the capacity guard of [addAppointment] comes
    before the ids are even read, so on a full appointment table an
    unknown patient id is answered with [CapacityExceeded]. *)
Lemma addAppointment_invalid_reference_counterexample :
  findPatientIndex full_state 9999 = None /\
  snd (addAppointment full_state 9999 1 "2026-02-01" "10:00") = CapacityExceeded /\
  snd (addAppointment full_state 9999 1 "2026-02-01" "10:00") <> InvalidReference.
Proof. repeat split. vm_compute. discriminate. Qed.

(** C5 (amended). Scheduling with a patient id or a doctor id that
    matches no existing record never changes the state (no appointment is
    appended, the next-appointment-id counter and every patient's
    [doctorId] stay as they were), and the attempt is answered by the
    first guard that applies: [CapacityExceeded] on a full appointment
    table, the need-a-patient-and-a-doctor notice when either table is
    empty, and [InvalidReference] otherwise. *)
Theorem addAppointment_invalid_reference (s : state) (pid did : Z) (date time : string) :
  findPatientIndex s pid = None \/ findDoctorIndex s did = None ->
  fst (addAppointment s pid did date time) = s /\
  snd (addAppointment s pid did date time) =
    (if MAX_APPOINTS <=? appointmentCount s then CapacityExceeded
     else if (patientCount s =? 0) || (doctorCount s =? 0) then NeedPatientAndDoctor
     else InvalidReference) /\
  (appointmentCount s < MAX_APPOINTS -> patientCount s <> 0 -> doctorCount s <> 0 ->
   addAppointment s pid did date time = (s, InvalidReference)).
Proof.
  intros Hmiss.
  assert (Hbody : match findPatientIndex s pid, findDoctorIndex s did with
                  | Some _, Some _ => False
                  | _, _ => True
                  end).
  { destruct Hmiss as [-> | ->]; [done|]. by destruct (findPatientIndex s pid). }
  unfold addAppointment.
  destruct (MAX_APPOINTS <=? appointmentCount s) eqn:Hfull.
  { repeat split; try done. lia. }
  destruct ((patientCount s =? 0) || (doctorCount s =? 0)) eqn:Hempty.
  { repeat split; try done. intros _ Hp Hd.
    apply orb_true_iff in Hempty as [E|E]; lia. }
  destruct (findPatientIndex s pid), (findDoctorIndex s did); done.
Qed.

Lemma addAppointment_invalid_reference_witness :
  fst (addAppointment small_clinic 5 1 "2026-02-01" "10:00") = small_clinic /\
  snd (addAppointment small_clinic 5 1 "2026-02-01" "10:00") = InvalidReference /\
  (appointmentCount small_clinic < MAX_APPOINTS ->
   patientCount small_clinic <> 0 -> doctorCount small_clinic <> 0 ->
   addAppointment small_clinic 5 1 "2026-02-01" "10:00" = (small_clinic, InvalidReference)).
Proof.
  apply (addAppointment_invalid_reference small_clinic 5 1 "2026-02-01" "10:00").
  left. reflexivity.
Defined.

(** ** C10: what deleting and cancelling leave alone *)

(** C10. [deletePatient] writes only the patient array and its count:
    the appointment table (array and count), like the other tables and
    all four counters, is returned as it was, so an
    appointment of the deleted patient stays and its [patientId] then
    resolves to no patient, the listing showing the name ["Unknown"].
    [cancelAppointment] returns the patient array and its count as they
    were, so no [doctorId] changes, not even one that the cancelled
    appointment had set when it was created. *)
Theorem delete_and_cancel_frame :
  (forall s id confirm,
     let s' := fst (deletePatient s id confirm) in
     appointments s' = appointments s /\ appointmentCount s' = appointmentCount s /\
     doctors s' = doctors s /\ doctorCount s' = doctorCount s /\
     diseases s' = diseases s /\ diseaseCount s' = diseaseCount s /\
     nextPatientId s' = nextPatientId s /\ nextDiseaseId s' = nextDiseaseId s /\
     nextDoctorId s' = nextDoctorId s /\ nextAppointmentId s' = nextAppointmentId s) /\
  (forall s id confirm,
     let s' := fst (cancelAppointment s id confirm) in
     patients s' = patients s /\ patientCount s' = patientCount s /\
     doctors s' = doctors s /\ doctorCount s' = doctorCount s /\
     diseases s' = diseases s /\ diseaseCount s' = diseaseCount s /\
     nextPatientId s' = nextPatientId s /\ nextDiseaseId s' = nextDiseaseId s /\
     nextDoctorId s' = nextDoctorId s /\ nextAppointmentId s' = nextAppointmentId s) /\
  (let s' := fst (deletePatient small_clinic 1 "y") in
   live_patients s' = [] /\
   live_appointments s' = [Appointment.mk 1 1 1 "2026-01-15" "09:30"] /\
   findPatientIndex s' 1 = None /\
   snd (displayAppointments s')
     = AppointmentList [mkRow 1 "Unknown" 1 "Dr. Smith" 1 "2026-01-15" "09:30"]) /\
  (live_patients intake_only = [Patient.mk 1 "John" 42 "M" "555-0199" "Influenza" 0] /\
   addAppointment intake_only 1 1 "2026-01-15" "09:30"
     = (small_clinic, AppointmentScheduled 1 true) /\
   live_patients small_clinic = [Patient.mk 1 "John" 42 "M" "555-0199" "Influenza" 1] /\
   live_appointments (fst (cancelAppointment small_clinic 1 "y")) = [] /\
   live_patients (fst (cancelAppointment small_clinic 1 "y"))
     = [Patient.mk 1 "John" 42 "M" "555-0199" "Influenza" 1]).
Proof.
  split; [|split; [|split]].
  - intros s id confirm. unfold deletePatient.
    destruct (id <=? 0); [done|].
    destruct (findPatientIndex s id); [|done].
    by destruct (confirmed _).
  - intros s id confirm. unfold cancelAppointment.
    destruct (id <=? 0); [done|].
    destruct (findAppointmentIndex s id); [|done].
    by destruct (confirmed _).
  - repeat split; vm_compute; reflexivity.
  - repeat split; vm_compute; reflexivity.
Qed.

(** ** C4: deleting a patient, cancelling an appointment *)

(** The shift loop moves the [k] elements after position [j] one place
    down and leaves the rest of the array alone. *)
Lemma shift_left_spec {A : Type} `{Inhabited A} (k : nat) :
  forall (arr : list A) (j : nat),
    (j + k < length arr)%nat ->
    shift_left arr j k = take j arr ++ take k (drop (S j) arr) ++ drop (j + k) arr.
Proof.
  induction k as [|k IH]; intros arr j Hlen; simpl.
  - rewrite Nat.add_0_r. by rewrite take_drop.
  - destruct (lookup_lt_is_Some_2 arr (S j)) as [x Hx]; [lia|].
    rewrite (list_lookup_total_correct _ _ _ Hx).
    rewrite IH by (rewrite length_insert; lia).
    rewrite (take_S_r (<[j:=x]> arr) j x)
      by (apply list_lookup_insert_eq; lia).
    rewrite take_insert_ge by lia.
    rewrite !drop_insert_lt by lia.
    rewrite (drop_S arr x (S j) Hx).
    rewrite <- app_assoc. simpl.
    by replace (S (j + k)) with (j + S k)%nat by lia.
Qed.

(** On the live records the loop followed by [count--] is the removal of
    position [i]. *)
Lemma shift_left_live {A : Type} `{Inhabited A} (arr : list A) (n : Z) (i : nat) :
  (Z.to_nat n <= length arr)%nat -> Z.of_nat i < n ->
  take (Z.to_nat (n - 1)) (shift_left arr i (Z.to_nat (n - 1 - Z.of_nat i)))
  = take i arr ++ drop (S i) (take (Z.to_nat n) arr).
Proof.
  intros Hlen Hi.
  rewrite shift_left_spec by lia.
  rewrite take_app_ge by (rewrite length_take; lia).
  rewrite length_take, Nat.min_l by lia.
  f_equal.
  rewrite take_app_le by (rewrite length_take, length_drop; lia).
  rewrite take_take, take_drop_commute.
  do 2 f_equal. lia.
Qed.

(** The first record with a given key splits the list around it. *)
Lemma find_index_split {A : Type} (P : A -> Prop) `{forall x, Decision (P x)}
    (l : list A) (i : nat) :
  fst <$> list_find P l = Some i ->
  exists l1 x l2, l = l1 ++ x :: l2 /\ length l1 = i /\ P x /\
                  Forall (fun y => ~ P y) l1 /\
                  take i l = l1 /\ drop (S i) l = l2.
Proof.
  intros E. apply find_index_Some in E as (x & Hx & HP & Hbefore).
  exists (take i l), x, (drop (S i) l).
  assert (i < length l)%nat by (by eapply lookup_lt_Some).
  repeat split; try done.
  - by rewrite <- (take_drop_middle l i x Hx) at 1.
  - rewrite length_take. lia.
  - apply Forall_forall. intros y Hy.
    apply list_elem_of_lookup in Hy as [j Hj].
    apply lookup_take_Some_inv in Hj as [Hj Hlt]. eauto.
Qed.

(** C4, as stated, fails for ids that are not positive: [deletePatient]
    and [cancelAppointment] reject them as invalid before looking
    anything up, so the absent id 0 is not answered with [NotFound]. *)
Lemma delete_by_id_counterexample :
  findPatientIndex small_clinic 0 = None /\
  snd (deletePatient small_clinic 0 "y") = InvalidId /\
  snd (deletePatient small_clinic 0 "y") <> NotFound /\
  findAppointmentIndex small_clinic 0 = None /\
  snd (cancelAppointment small_clinic 0 "y") = InvalidId /\
  snd (cancelAppointment small_clinic 0 "y") <> NotFound.
Proof. repeat split; vm_compute; discriminate. Qed.

(** C4 (amended). For every table state within its array bounds and
    every positive id: a confirmed delete of a patient (cancel of an
    appointment) whose id is present removes the first record carrying
    that id and nothing else, the records before and after it keeping
    their order and all their fields, and the count drops by exactly 1; a
    delete or cancel of an absent id reports [NotFound] and returns the
    state unchanged.  An id that is not positive is reported as invalid,
    and a delete or cancel that is not confirmed does nothing, again with
    the state unchanged. *)
Theorem delete_by_id (s : state) (id : Z) (confirm : string) :
  in_bounds s ->
  (0 < id -> confirmed (getLine 10 confirm) = true ->
   (exists p, p ∈ live_patients s /\ Patient.id p = id) ->
   exists l1 p l2,
     live_patients s = l1 ++ p :: l2 /\ Patient.id p = id /\
     Forall (fun q => Patient.id q <> id) l1 /\
     snd (deletePatient s id confirm) = Removed /\
     live_patients (fst (deletePatient s id confirm)) = l1 ++ l2 /\
     patientCount (fst (deletePatient s id confirm)) = patientCount s - 1) /\
  (0 < id -> (forall p, p ∈ live_patients s -> Patient.id p <> id) ->
   deletePatient s id confirm = (s, NotFound)) /\
  (id <= 0 -> deletePatient s id confirm = (s, InvalidId)) /\
  (confirmed (getLine 10 confirm) = false -> fst (deletePatient s id confirm) = s) /\
  (0 < id -> confirmed (getLine 10 confirm) = true ->
   (exists a, a ∈ live_appointments s /\ Appointment.id a = id) ->
   exists l1 a l2,
     live_appointments s = l1 ++ a :: l2 /\ Appointment.id a = id /\
     Forall (fun b => Appointment.id b <> id) l1 /\
     snd (cancelAppointment s id confirm) = Removed /\
     live_appointments (fst (cancelAppointment s id confirm)) = l1 ++ l2 /\
     appointmentCount (fst (cancelAppointment s id confirm)) = appointmentCount s - 1) /\
  (0 < id -> (forall a, a ∈ live_appointments s -> Appointment.id a <> id) ->
   cancelAppointment s id confirm = (s, NotFound)) /\
  (id <= 0 -> cancelAppointment s id confirm = (s, InvalidId)) /\
  (confirmed (getLine 10 confirm) = false -> fst (cancelAppointment s id confirm) = s).
Proof.
  intros (Hlp & _ & _ & Hla & Hcp & _ & _ & Hca).
  split_and!.
  - intros Hid Hyes (p & Hin & Hp).
    destruct (find_index_elem (fun q => Patient.id q = id) _ p Hin Hp) as [i Hi].
    pose proof Hi as Hsplit.
    apply find_index_split in Hsplit as (l1 & q & l2 & Hl & Hlen & Hq & Hl1 & Ht & Hd).
    assert (Hlt : Z.of_nat i < patientCount s).
    { apply (f_equal length) in Hl. unfold live_patients in Hl.
      rewrite length_take, length_app in Hl. simpl in Hl. lia. }
    exists l1, q, l2. unfold deletePatient.
    destruct (id <=? 0) eqn:Hneg; [lia|].
    change (findPatientIndex s id) with
      (fst <$> list_find (fun q => Patient.id q = id) (live_patients s)).
    rewrite Hi, Hyes. cbn. repeat split; try done.
    unfold live_patients at 1. cbn.
    rewrite shift_left_live by (rewrite ?Hlp; unfold MAX_PATIENTS in *; lia).
    rewrite <- Hd, <- Ht. unfold live_patients.
    rewrite take_take. f_equal. f_equal. lia.
  - intros Hid Habs. unfold deletePatient.
    destruct (id <=? 0) eqn:Hneg; [lia|].
    assert (findPatientIndex s id = None) as ->; [|done].
    apply find_index_None, Forall_forall. exact Habs.
  - intros Hid. unfold deletePatient.
    destruct (id <=? 0) eqn:Hneg; [done|lia].
  - intros Hno. unfold deletePatient. rewrite Hno.
    destruct (id <=? 0); [done|]. by destruct (findPatientIndex s id).
  - intros Hid Hyes (a & Hin & Ha).
    destruct (find_index_elem (fun b => Appointment.id b = id) _ a Hin Ha) as [i Hi].
    pose proof Hi as Hsplit.
    apply find_index_split in Hsplit as (l1 & b & l2 & Hl & Hlen & Hb & Hl1 & Ht & Hd).
    assert (Hlt : Z.of_nat i < appointmentCount s).
    { apply (f_equal length) in Hl. unfold live_appointments in Hl.
      rewrite length_take, length_app in Hl. simpl in Hl. lia. }
    exists l1, b, l2. unfold cancelAppointment.
    destruct (id <=? 0) eqn:Hneg; [lia|].
    change (findAppointmentIndex s id) with
      (fst <$> list_find (fun b => Appointment.id b = id) (live_appointments s)).
    rewrite Hi, Hyes. cbn. repeat split; try done.
    unfold live_appointments at 1. cbn.
    rewrite shift_left_live by (rewrite ?Hla; unfold MAX_APPOINTS in *; lia).
    rewrite <- Hd, <- Ht. unfold live_appointments.
    rewrite take_take. f_equal. f_equal. lia.
  - intros Hid Habs. unfold cancelAppointment.
    destruct (id <=? 0) eqn:Hneg; [lia|].
    assert (findAppointmentIndex s id = None) as ->; [|done].
    apply find_index_None, Forall_forall. exact Habs.
  - intros Hid. unfold cancelAppointment.
    destruct (id <=? 0) eqn:Hneg; [done|lia].
  - intros Hno. unfold cancelAppointment. rewrite Hno.
    destruct (id <=? 0); [done|]. by destruct (findAppointmentIndex s id).
Qed.

Lemma ward_in_bounds : in_bounds ward.
Proof. repeat split; vm_compute; congruence. Qed.

Lemma delete_by_id_witness :
  exists l1 p l2,
    live_patients ward = l1 ++ p :: l2 /\ Patient.id p = 2 /\
    Forall (fun q => Patient.id q <> 2) l1 /\
    snd (deletePatient ward 2 "y") = Removed /\
    live_patients (fst (deletePatient ward 2 "y")) = l1 ++ l2 /\
    patientCount (fst (deletePatient ward 2 "y")) = patientCount ward - 1.
Proof.
  destruct (delete_by_id ward 2 "y" ward_in_bounds) as (Hdel & _).
  apply Hdel.
  - lia.
  - reflexivity.
  - exists (Patient.mk 2 "alice" 34 "F" "555-0112" "Migraine" 0).
    split; [|reflexivity].
    apply (list_elem_of_lookup_2 _ 1%nat). reflexivity.
Defined.

(** ** C3: identifiers count up from 1 *)

Section Counter.

Variable char_signed : bool.
Variable qsort : (Patient.t -> Patient.t -> Z) -> list Patient.t -> list Patient.t.

(** One identifier counter and the reports that hand out its values. *)
Variable next : state -> Z.
Variable issued : outcome -> option Z.

Hypothesis dispatch_next :
  forall c s,
    match issued (snd (dispatch char_signed qsort c s)) with
    | Some id =>
        id = next s /\ next (fst (dispatch char_signed qsort c s)) = wrap_int (id + 1)
    | None => next (fst (dispatch char_signed qsort c s)) = next s
    end.

Lemma run_issued (cs : list command) :
  forall s,
    INT_MIN <= next s ->
    next s + Z.of_nat (length (omap issued (snd (run char_signed qsort cs s)))) <= INT_MAX ->
    omap issued (snd (run char_signed qsort cs s))
    = count_from (next s) (length (omap issued (snd (run char_signed qsort cs s)))).
Proof.
  induction cs as [|c cs IH]; intros s Hlo Hhi; [done|].
  simpl in *. pose proof (dispatch_next c s) as Hc.
  destruct (dispatch char_signed qsort c s) as [s1 o].
  specialize (IH s1).
  destruct (run char_signed qsort cs s1) as [s2 os].
  cbn [fst snd] in *. cbn [omap list_omap] in *.
  destruct (issued o) as [id|].
  - destruct Hc as [-> Hnext]. cbn [length] in *.
    assert (Hw : wrap_int (next s + 1) = next s + 1).
    { unfold wrap_int, INT_MIN, INT_MAX in *.
      rewrite Z.mod_small; lia. }
    rewrite Hw in Hnext. rewrite Hnext in IH.
    cbn [count_from]. f_equal. apply IH; lia.
  - rewrite Hc in IH. apply IH; lia.
Qed.

End Counter.

Ltac dispatch_cases :=
  intros c s; destruct c; cbn [dispatch];
  unfold addPatient, searchPatientByName, deletePatient, sortPatientsByName,
    addDoctor, addDisease, addAppointment, displayAppointments, cancelAppointment;
  repeat match goal with
         | |- context [if ?b then _ else _] => destruct b
         | |- context [findPatientIndex ?s ?i] => destruct (findPatientIndex s i)
         | |- context [findDoctorIndex ?s ?i] => destruct (findDoctorIndex s i)
         | |- context [findAppointmentIndex ?s ?i] => destruct (findAppointmentIndex s i)
         end;
  done.

Lemma dispatch_nextPatientId char_signed qsort :
  forall c s,
    match (match snd (dispatch char_signed qsort c s) with
           | PatientAdded id _ => Some id | _ => None end) with
    | Some id =>
        id = nextPatientId s /\
        nextPatientId (fst (dispatch char_signed qsort c s)) = wrap_int (id + 1)
    | None => nextPatientId (fst (dispatch char_signed qsort c s)) = nextPatientId s
    end.
Proof. dispatch_cases. Qed.

Lemma dispatch_nextDoctorId char_signed qsort :
  forall c s,
    match (match snd (dispatch char_signed qsort c s) with
           | DoctorAdded id => Some id | _ => None end) with
    | Some id =>
        id = nextDoctorId s /\
        nextDoctorId (fst (dispatch char_signed qsort c s)) = wrap_int (id + 1)
    | None => nextDoctorId (fst (dispatch char_signed qsort c s)) = nextDoctorId s
    end.
Proof. dispatch_cases. Qed.

Lemma dispatch_nextDiseaseId char_signed qsort :
  forall c s,
    match (match snd (dispatch char_signed qsort c s) with
           | DiseaseAdded id => Some id | _ => None end) with
    | Some id =>
        id = nextDiseaseId s /\
        nextDiseaseId (fst (dispatch char_signed qsort c s)) = wrap_int (id + 1)
    | None => nextDiseaseId (fst (dispatch char_signed qsort c s)) = nextDiseaseId s
    end.
Proof. dispatch_cases. Qed.

Lemma dispatch_nextAppointmentId char_signed qsort :
  forall c s,
    match (match snd (dispatch char_signed qsort c s) with
           | AppointmentScheduled id _ => Some id | _ => None end) with
    | Some id =>
        id = nextAppointmentId s /\
        nextAppointmentId (fst (dispatch char_signed qsort c s)) = wrap_int (id + 1)
    | None =>
        nextAppointmentId (fst (dispatch char_signed qsort c s)) = nextAppointmentId s
    end.
Proof. dispatch_cases. Qed.

Lemma first_ids_count_from (n : nat) : first_ids n = count_from 1 n.
Proof.
  unfold first_ids. change 1 with (Z.of_nat 1). generalize 1%nat.
  induction n as [|n IH]; intros k; [done|].
  cbn [seq map count_from]. f_equal.
  rewrite IH. f_equal. lia.
Qed.

(** C3. Starting from the empty database, whatever commands are run
    (adds of any type, deletes, cancels, sorts, searches, in any order),
    if the successful adds of a type number at most that type's capacity
    then the ids they report are 1, 2, 3, ... in order: the N-th
    successful add of a type is given id N. *)
Theorem ids_count_up (char_signed : bool)
    (qsort : (Patient.t -> Patient.t -> Z) -> list Patient.t -> list Patient.t)
    (cs : list command) :
  let os := snd (run char_signed qsort cs init_state) in
  (Z.of_nat (length (patient_ids os)) <= MAX_PATIENTS ->
     patient_ids os = first_ids (length (patient_ids os))) /\
  (Z.of_nat (length (doctor_ids os)) <= MAX_DOCTORS ->
     doctor_ids os = first_ids (length (doctor_ids os))) /\
  (Z.of_nat (length (disease_ids os)) <= MAX_DISEASES ->
     disease_ids os = first_ids (length (disease_ids os))) /\
  (Z.of_nat (length (appointment_ids os)) <= MAX_APPOINTS ->
     appointment_ids os = first_ids (length (appointment_ids os))).
Proof.
  intros os. subst os. rewrite !first_ids_count_from.
  unfold MAX_PATIENTS, MAX_DOCTORS, MAX_DISEASES, MAX_APPOINTS.
  repeat split; intros Hn.
  - apply (run_issued char_signed qsort nextPatientId _
             (dispatch_nextPatientId char_signed qsort) cs init_state).
    + vm_compute. discriminate.
    + change (nextPatientId init_state) with 1. unfold INT_MAX.
      fold (patient_ids (snd (run char_signed qsort cs init_state))). lia.
  - apply (run_issued char_signed qsort nextDoctorId _
             (dispatch_nextDoctorId char_signed qsort) cs init_state).
    + vm_compute. discriminate.
    + change (nextDoctorId init_state) with 1. unfold INT_MAX.
      fold (doctor_ids (snd (run char_signed qsort cs init_state))). lia.
  - apply (run_issued char_signed qsort nextDiseaseId _
             (dispatch_nextDiseaseId char_signed qsort) cs init_state).
    + vm_compute. discriminate.
    + change (nextDiseaseId init_state) with 1. unfold INT_MAX.
      fold (disease_ids (snd (run char_signed qsort cs init_state))). lia.
  - apply (run_issued char_signed qsort nextAppointmentId _
             (dispatch_nextAppointmentId char_signed qsort) cs init_state).
    + vm_compute. discriminate.
    + change (nextAppointmentId init_state) with 1. unfold INT_MAX.
      fold (appointment_ids (snd (run char_signed qsort cs init_state))). lia.
Qed.

Lemma ids_count_up_witness :
  let os := snd (run true merge_qsort busy_session init_state) in
  patient_ids os = [1; 2; 3] /\
  doctor_ids os = [1; 2] /\
  disease_ids os = [1] /\
  appointment_ids os = [1; 2; 3].
Proof.
  destruct (ids_count_up true merge_qsort busy_session) as (Hp & Hd & Hs & Ha).
  split; [apply Hp; vm_compute; discriminate|].
  split; [apply Hd; vm_compute; discriminate|].
  split; [apply Hs; vm_compute; discriminate|].
  apply Ha; vm_compute; discriminate.
Defined.

(** ** Case-insensitive comparison *)

Lemma char_code_range (c : ascii) : 0 <= char_code c < 256.
Proof.
  unfold char_code. pose proof (N_ascii_bounded c). lia.
Qed.

Lemma tolower_pos (c : Z) : 0 < c -> 0 < tolower c.
Proof. unfold tolower. case_match; lia. Qed.

Lemma tolower_0 : tolower 0 = 0.
Proof. reflexivity. Qed.

Lemma lex_leb_refl (k : list Z) : lex_leb k k = true.
Proof.
  induction k as [|x k IH]; [done|]. simpl.
  rewrite IH, Z.eqb_refl. apply orb_true_r.
Qed.

Lemma lex_leb_total (k1 k2 : list Z) : lex_leb k1 k2 = true \/ lex_leb k2 k1 = true.
Proof.
  revert k2. induction k1 as [|x k1 IH]; intros [|y k2]; simpl; auto.
  destruct (IH k2) as [-> | ->];
    destruct (Z.ltb_spec x y), (Z.ltb_spec y x), (Z.eqb_spec x y), (Z.eqb_spec y x);
    simpl; auto; lia.
Qed.

Lemma lex_leb_trans (k1 k2 k3 : list Z) :
  lex_leb k1 k2 = true -> lex_leb k2 k3 = true -> lex_leb k1 k3 = true.
Proof.
  revert k2 k3. induction k1 as [|x k1 IH]; intros [|y k2] [|z k3]; simpl; auto;
    try discriminate.
  intros H12 H23.
  apply orb_true_iff in H12 as [H12|H12], H23 as [H23|H23];
    rewrite ?andb_true_iff, ?Z.ltb_lt, ?Z.eqb_eq in *.
  - apply orb_true_iff. left. apply Z.ltb_lt. lia.
  - apply orb_true_iff. left. apply Z.ltb_lt. lia.
  - apply orb_true_iff. left. apply Z.ltb_lt. lia.
  - destruct H12 as [-> H12], H23 as [-> H23].
    rewrite Z.eqb_refl, (IH _ _ H12 H23). apply orb_true_r.
Qed.

Lemma lex_leb_antisym (k1 k2 : list Z) :
  lex_leb k1 k2 = true -> lex_leb k2 k1 = true -> k1 = k2.
Proof.
  revert k2. induction k1 as [|x k1 IH]; intros [|y k2]; simpl; auto;
    try discriminate.
  intros H12 H21.
  apply orb_true_iff in H12 as [H12|H12], H21 as [H21|H21];
    rewrite ?andb_true_iff, ?Z.ltb_lt, ?Z.eqb_eq in *; try lia.
  destruct H12 as [-> H12], H21 as [_ H21]. f_equal. by apply IH.
Qed.

Section Compare.

Variable char_signed : bool.

(** [stricmp_custom] orders two strings as [lex_leb] orders their keys. *)
Lemma stricmp_custom_le (a b : string) :
  stricmp_custom char_signed a b <= 0 <-> ci_le char_signed a b.
Proof.
  unfold ci_le. revert b.
  induction a as [|x a IH]; intros [|y b]; cbn [stricmp_custom ci_key deref].
  - done.
  - pose proof (char_code_range y). rewrite tolower_0.
    split; [done|]. intros _.
    destruct (Z.eq_dec (char_code y) 0) as [->|]; [done|].
    pose proof (tolower_pos (char_code y)). lia.
  - pose proof (char_code_range x). rewrite tolower_0.
    destruct (Z.eqb_spec (char_code x) 0) as [->|]; [done|].
    pose proof (tolower_pos (char_code x)). simpl. split; [lia|done].
  - pose proof (char_code_range x). pose proof (char_code_range y).
    destruct (Z.eqb_spec (char_code x) 0) as [Hx|Hx],
             (Z.eqb_spec (char_code y) 0) as [Hy|Hy]; cbn [orb].
    + rewrite Hx, Hy. done.
    + rewrite Hx, tolower_0. pose proof (tolower_pos (char_code y)).
      split; [done|lia].
    + rewrite Hy, tolower_0. pose proof (tolower_pos (char_code x)).
      simpl. split; [lia|done].
    + cbn [lex_leb].
      destruct (Z.eqb_spec (to_char char_signed (tolower (char_code x)))
                           (to_char char_signed (tolower (char_code y)))) as [E|E].
      * rewrite IH, E, Z.ltb_irrefl. done.
      * rewrite andb_false_l, orb_false_r, Z.ltb_lt. lia.
Qed.

(** Swapping the arguments flips the sign of the result. *)
Lemma stricmp_custom_swap (a b : string) :
  Z.sgn (stricmp_custom char_signed b a) = - Z.sgn (stricmp_custom char_signed a b).
Proof.
  revert b.
  induction a as [|x a IH]; intros [|y b]; cbn [stricmp_custom deref].
  - done.
  - rewrite <- Z.sgn_opp. f_equal. lia.
  - rewrite <- Z.sgn_opp. f_equal. lia.
  - rewrite (orb_comm (char_code y =? 0)).
    destruct ((char_code x =? 0) || (char_code y =? 0)).
    + rewrite <- Z.sgn_opp. f_equal. lia.
    + rewrite (Z.eqb_sym (to_char char_signed (tolower (char_code y)))).
      destruct (_ =? _); [apply IH|].
      rewrite <- Z.sgn_opp. f_equal. lia.
Qed.

Lemma stricmp_custom_eq (a b : string) :
  stricmp_custom char_signed a b = 0 <-> ci_eq char_signed a b.
Proof.
  unfold ci_eq. split.
  - intros E. apply lex_leb_antisym; apply stricmp_custom_le.
    + lia.
    + pose proof (stricmp_custom_swap a b) as Hs. rewrite E in Hs. simpl in Hs.
      destruct (stricmp_custom char_signed b a); simpl in Hs; lia.
  - intros E.
    assert (H1 : stricmp_custom char_signed a b <= 0).
    { apply stricmp_custom_le. unfold ci_le. rewrite E. apply lex_leb_refl. }
    assert (H2 : stricmp_custom char_signed b a <= 0).
    { apply stricmp_custom_le. unfold ci_le. rewrite E. apply lex_leb_refl. }
    pose proof (stricmp_custom_swap a b) as Hs.
    destruct (stricmp_custom char_signed a b), (stricmp_custom char_signed b a);
      simpl in Hs; lia.
Qed.

(** On ASCII text the key is the list of lower-cased character codes,
    whatever the signedness of [char]. *)
Lemma ci_key_ascii (s : string) :
  Forall (fun b => 0 < b < 128) (string_bytes s) ->
  ci_key char_signed s = map tolower (string_bytes s).
Proof.
  induction s as [|c s IH]; [done|].
  cbn [string_bytes ci_key map]. intros Hs.
  apply Forall_cons in Hs as [Hc Hs].
  destruct (Z.eqb_spec (char_code c) 0) as [E|_]; [lia|].
  rewrite IH by done. f_equal.
  unfold to_char, tolower.
  destruct char_signed; [|done]. cbn [andb].
  repeat case_match; lia.
Qed.

(** The comparison function handed to [qsort] is a valid one. *)
Lemma comparePatientsByName_consistent :
  consistent (comparePatientsByName char_signed).
Proof.
  split.
  - intros p q. apply stricmp_custom_swap.
  - intros p q r. unfold comparePatientsByName.
    rewrite !stricmp_custom_le. apply lex_leb_trans.
Qed.

Lemma ci_le_trans : Transitive (ci_le char_signed).
Proof. intros a b c. apply lex_leb_trans. Qed.

End Compare.

(** ** C8: search by name *)

(** C8, as stated, fails for a query longer than the 99 characters the
    input buffer holds: only its first 99 characters are compared, so a
    patient whose name is a proper prefix of the query is reported. *)
Lemma searchPatientByName_counterexample :
  snd (searchPatientByName true long_name_clinic (copies 100 "a"))
    = Matches [Patient.mk 1 (copies 99 "a") 42 "M" "555-0199" "Influenza" 0] /\
  ~ ci_eq true (copies 99 "a") (copies 100 "a").
Proof. split; vm_compute; [reflexivity | discriminate]. Qed.

(** C8 (amended). For every patient table and every query string that
    fits the input buffer (a C string of at most 99 characters),
    [searchPatientByName] reports exactly the live patients whose whole
    name equals the query up to the case of ASCII letters, in table
    order, possibly none, and returns the state untouched; a longer query
    is compared by its first 99 characters.  The queries "john", "John"
    and "JOHN" give identical reports. *)
Theorem searchPatientByName_matches (char_signed : bool) (s : state) (query : string) :
  fst (searchPatientByName char_signed s query) = s /\
  snd (searchPatientByName char_signed s query)
    = Matches (filter (fun p => ci_eq char_signed (Patient.name p) (getLine 100 query))
                      (live_patients s)) /\
  (fits 100 query ->
   snd (searchPatientByName char_signed s query)
     = Matches (filter (fun p => ci_eq char_signed (Patient.name p) query)
                       (live_patients s))) /\
  searchPatientByName char_signed s "john" = searchPatientByName char_signed s "John" /\
  searchPatientByName char_signed s "John" = searchPatientByName char_signed s "JOHN".
Proof.
  assert (Hfilter : forall q,
            filter (fun p => stricmp_custom char_signed (Patient.name p) q = 0)
                   (live_patients s)
            = filter (fun p => ci_eq char_signed (Patient.name p) q) (live_patients s)).
  { intros q. apply list_filter_iff. intros p. apply stricmp_custom_eq. }
  unfold searchPatientByName. cbn [fst snd].
  split; [done|]. split; [by rewrite Hfilter|].
  split.
  { intros Hfit. unfold fits in Hfit. unfold getLine. rewrite Hfit.
    by rewrite Hfilter. }
  rewrite !Hfilter.
  split; do 2 f_equal; apply list_filter_iff; intros p; unfold ci_eq;
    by destruct char_signed.
Qed.

Lemma searchPatientByName_matches_witness :
  snd (searchPatientByName true ward "ALICE")
    = Matches [Patient.mk 2 "alice" 34 "F" "555-0112" "Migraine" 0].
Proof.
  destruct (searchPatientByName_matches true ward "ALICE") as (_ & _ & Hfit & _).
  exact (Hfit eq_refl).
Defined.

(** ** C7: sort by name *)

Lemma Sorted_weaken {A : Type} (R1 R2 : A -> A -> Prop) (l : list A) :
  (forall x y, R1 x y -> R2 x y) -> Sorted R1 l -> Sorted R2 l.
Proof.
  intros HR. induction 1 as [|x l _ IH Hhd]; constructor; [done|].
  destruct Hhd; constructor; auto.
Qed.

(** Merge sort on [cmp x y <= 0] is one of the sorts the C standard
    allows [qsort] to be. *)
Lemma merge_qsort_contract : qsort_contract merge_qsort.
Proof.
  intros cmp l [Hswap Htrans]. unfold merge_qsort. split.
  - apply merge_sort_Permutation.
  - apply Sorted_merge_sort. intros x y.
    pose proof (Hswap x y) as Hs.
    destruct (cmp x y) eqn:Ex, (cmp y x) eqn:Ey; simpl in Hs; try lia;
      try discriminate.
Qed.

(** C7. With a [qsort] that honours the C standard, [sortPatientsByName]
    on a table of at least two patients reorders the live records into a
    permutation of themselves that ascends in the case-insensitive
    lexicographic order of the names (records whose names are equal up
    to case may come out in any order); on fewer than two patients it
    reports that there is not enough to sort and returns the state as it
    was.  In particular patients named Bob, alice and Charlie come out
    as alice, Bob, Charlie. *)
Theorem sortPatientsByName_sorted (char_signed : bool)
    (qsort : (Patient.t -> Patient.t -> Z) -> list Patient.t -> list Patient.t)
    (s : state) :
  qsort_contract qsort -> in_bounds s ->
  (2 <= patientCount s ->
     snd (sortPatientsByName char_signed qsort s) = SortedByName /\
     live_patients (fst (sortPatientsByName char_signed qsort s)) ≡ₚ live_patients s /\
     Sorted (fun p q => ci_le char_signed (Patient.name p) (Patient.name q))
            (live_patients (fst (sortPatientsByName char_signed qsort s))) /\
     patientCount (fst (sortPatientsByName char_signed qsort s)) = patientCount s) /\
  (patientCount s < 2 ->
     sortPatientsByName char_signed qsort s = (s, NotEnoughToSort)) /\
  (map Patient.name (live_patients s) ≡ₚ ["Bob"; "alice"; "Charlie"]%string ->
     map Patient.name (live_patients (fst (sortPatientsByName char_signed qsort s)))
       = ["alice"; "Bob"; "Charlie"]%string).
Proof.
  intros Hq (Hlen & _ & _ & _ & Hcnt & _).
  assert (Hmany :
    2 <= patientCount s ->
    snd (sortPatientsByName char_signed qsort s) = SortedByName /\
    live_patients (fst (sortPatientsByName char_signed qsort s)) ≡ₚ live_patients s /\
    Sorted (fun p q => ci_le char_signed (Patient.name p) (Patient.name q))
           (live_patients (fst (sortPatientsByName char_signed qsort s))) /\
    patientCount (fst (sortPatientsByName char_signed qsort s)) = patientCount s).
  { intros Htwo. unfold sortPatientsByName.
    destruct (patientCount s <? 2) eqn:Hlt; [lia|]. cbn [fst snd].
    destruct (Hq (comparePatientsByName char_signed)
                 (take (Z.to_nat (patientCount s)) (patients s))
                 (comparePatientsByName_consistent char_signed)) as [Hperm Hsorted].
    assert (Hlive :
      live_patients
        (set_patients
           (qsort (comparePatientsByName char_signed)
                  (take (Z.to_nat (patientCount s)) (patients s))
            ++ drop (Z.to_nat (patientCount s)) (patients s)) s)
      = qsort (comparePatientsByName char_signed)
              (take (Z.to_nat (patientCount s)) (patients s))).
    { unfold live_patients. cbn. apply take_app_length'.
      rewrite (Permutation_length Hperm), length_take.
      unfold MAX_PATIENTS in *. lia. }
    rewrite Hlive. repeat split; try done.
    eapply Sorted_weaken; [|exact Hsorted].
    intros p q. apply stricmp_custom_le. }
  split; [exact Hmany|]. split.
  { intros Hlt. unfold sortPatientsByName.
    destruct (patientCount s <? 2) eqn:E; [done|lia]. }
  intros Hnames.
  assert (Htwo : 2 <= patientCount s).
  { apply Permutation_length in Hnames.
    rewrite length_map in Hnames. unfold live_patients in Hnames.
    rewrite length_take in Hnames. simpl in Hnames. lia. }
  destruct (Hmany Htwo) as (_ & Hperm & Hsorted & _).
  apply (@Sorted_unique_strong _ (ci_le char_signed) (ci_le_trans char_signed)).
  - intros x1 x2 Hx1 Hx2.
    rewrite Hperm, Hnames in Hx1.
    unfold ci_le.
    repeat match goal with
           | H : _ ∈ _ :: _ |- _ => apply elem_of_cons in H as [->|H]
           | H : _ ∈ [] |- _ => by apply elem_of_nil in H
           end;
      destruct char_signed; vm_compute; congruence.
  - apply (Sorted_fmap _ (fun p q => ci_le char_signed (Patient.name p) (Patient.name q)));
      [done|exact Hsorted].
  - destruct char_signed; repeat constructor.
  - rewrite Hperm, Hnames.
    rewrite (Permutation_swap "Bob"%string "alice"%string). done.
Qed.

Lemma sortPatientsByName_sorted_witness :
  snd (sortPatientsByName true merge_qsort ward) = SortedByName /\
  map Patient.name (live_patients (fst (sortPatientsByName true merge_qsort ward)))
    = ["alice"; "Bob"; "Charlie"]%string.
Proof.
  destruct (sortPatientsByName_sorted true merge_qsort ward
              merge_qsort_contract ward_in_bounds) as (Hmany & _ & Hnames).
  split.
  - apply Hmany. vm_compute. discriminate.
  - apply Hnames. reflexivity.
Defined.

(** ** Persistence: object representations *)

Lemma wrap_int_in_int (z : Z) : in_int (wrap_int z).
Proof.
  unfold in_int, wrap_int, INT_MIN, INT_MAX.
  pose proof (Z.mod_pos_bound (z + 2147483648) 4294967296). lia.
Qed.

Lemma bytes_int_int_bytes (z : Z) : in_int z -> bytes_int (int_bytes z) = z.
Proof.
  unfold in_int, INT_MIN, INT_MAX, int_bytes, bytes_int, wrap_int. intros Hz.
  Z.div_mod_to_equations. lia.
Qed.

Lemma length_int_bytes (z : Z) : length (int_bytes z) = 4%nat.
Proof. reflexivity. Qed.

Lemma length_string_bytes (s : string) : length (string_bytes s) = String.length s.
Proof. induction s as [|c s IH]; simpl; congruence. Qed.

Lemma ascii_of_char_code (c : ascii) : ascii_of_N (Z.to_N (char_code c)) = c.
Proof. unfold char_code. rewrite N2Z.id. apply ascii_N_embedding. Qed.

(** A string that [c_take n] leaves alone has at most [n] characters,
    none of them NUL. *)
Lemma c_take_fixed_length (n : nat) (s : string) :
  c_take n s = s -> (String.length s <= n)%nat.
Proof.
  revert s. induction n as [|n IH]; intros [|c s]; simpl; try done; try lia.
  destruct (char_code c =? 0); [done|].
  intros [= E]. apply IH in E. lia.
Qed.

Lemma bytes_cstring_string_bytes (n : nat) (s : string) (rest : list Z) :
  c_take n s = s -> bytes_cstring (string_bytes s ++ 0 :: rest) = s.
Proof.
  revert s. induction n as [|n IH]; intros [|c s]; simpl; try done.
  destruct (char_code c =? 0) eqn:Ec; [done|].
  intros [= E]. by rewrite ascii_of_char_code, (IH _ E).
Qed.

Lemma length_char_buf (junk : nat -> Z) (off size : nat) (s : string) :
  fits size s -> (0 < size)%nat -> length (char_buf junk off size s) = size.
Proof.
  intros Hfit Hsize. apply c_take_fixed_length in Hfit.
  unfold char_buf.
  rewrite length_app, length_string_bytes. simpl.
  rewrite length_map, length_seq. lia.
Qed.

Lemma member_here (len : nat) (a b : list Z) :
  length a = len -> member 0 len (a ++ b) = a.
Proof. intros <-. unfold member. simpl. apply take_app_length. Qed.

Lemma member_skip (off len : nat) (a b : list Z) :
  (length a <= off)%nat -> member off len (a ++ b) = member (off - length a) len b.
Proof.
  intros Hle. unfold member. rewrite drop_app_ge by done. done.
Qed.

Lemma member_all (len : nat) (a : list Z) :
  length a = len -> member 0 len a = a.
Proof. intros <-. unfold member. simpl. apply take_ge. done. Qed.

Lemma bytes_cstring_char_buf (junk : nat -> Z) (off size : nat) (s : string) :
  fits size s -> bytes_cstring (char_buf junk off size s) = s.
Proof. intros Hfit. unfold char_buf. by eapply bytes_cstring_string_bytes. Qed.

Ltac layout_len :=
  repeat first
    [ rewrite length_int_bytes
    | rewrite length_char_buf by (first [assumption | simpl; lia])
    | rewrite length_app
    | progress (unfold padding; rewrite length_map, length_seq) ];
  simpl; lia.

Ltac layout_member :=
  repeat (rewrite member_skip by layout_len;
          repeat first
            [ rewrite length_int_bytes
            | rewrite length_char_buf by (first [assumption | simpl; lia]) ];
          cbn [Nat.sub]);
  first [ rewrite member_here by layout_len | rewrite member_all by layout_len ].

Lemma decode_encode_Patient (junk : nat -> Z) (p : Patient.t) :
  wf_Patient p ->
  decode_Patient (encode_Patient junk p) = p /\
  length (encode_Patient junk p) = sizeof_Patient.
Proof.
  destruct p as [id name age gender phone disease doctorId].
  unfold wf_Patient, decode_Patient, encode_Patient.
  cbn [Patient.id Patient.name Patient.age Patient.gender Patient.phone
       Patient.disease Patient.doctorId].
  intros (Hid & Hname & Hage & Hgender & Hphone & Hdisease & Hdoc).
  split.
  - f_equal.
    + layout_member. by apply bytes_int_int_bytes.
    + layout_member. by apply bytes_cstring_char_buf.
    + layout_member. by apply bytes_int_int_bytes.
    + layout_member. by apply bytes_cstring_char_buf.
    + layout_member. by apply bytes_cstring_char_buf.
    + layout_member. by apply bytes_cstring_char_buf.
    + layout_member. by apply bytes_int_int_bytes.
  - unfold sizeof_Patient. layout_len.
Qed.

Lemma decode_encode_Disease (junk : nat -> Z) (d : Disease.t) :
  wf_Disease d ->
  decode_Disease (encode_Disease junk d) = d /\
  length (encode_Disease junk d) = sizeof_Disease.
Proof.
  destruct d as [id name symptoms treatment].
  unfold wf_Disease, decode_Disease, encode_Disease.
  cbn [Disease.id Disease.name Disease.symptoms Disease.treatment].
  intros (Hid & Hname & Hsymptoms & Htreatment).
  split.
  - f_equal.
    + layout_member. by apply bytes_int_int_bytes.
    + layout_member. by apply bytes_cstring_char_buf.
    + layout_member. by apply bytes_cstring_char_buf.
    + layout_member. by apply bytes_cstring_char_buf.
  - unfold sizeof_Disease. layout_len.
Qed.

Lemma decode_encode_Doctor (junk : nat -> Z) (d : Doctor.t) :
  wf_Doctor d ->
  decode_Doctor (encode_Doctor junk d) = d /\
  length (encode_Doctor junk d) = sizeof_Doctor.
Proof.
  destruct d as [id name specialization phone].
  unfold wf_Doctor, decode_Doctor, encode_Doctor.
  cbn [Doctor.id Doctor.name Doctor.specialization Doctor.phone].
  intros (Hid & Hname & Hspecialization & Hphone).
  split.
  - f_equal.
    + layout_member. by apply bytes_int_int_bytes.
    + layout_member. by apply bytes_cstring_char_buf.
    + layout_member. by apply bytes_cstring_char_buf.
    + layout_member. by apply bytes_cstring_char_buf.
  - unfold sizeof_Doctor. layout_len.
Qed.

Lemma decode_encode_Appointment (junk : nat -> Z) (a : Appointment.t) :
  wf_Appointment a ->
  decode_Appointment (encode_Appointment junk a) = a /\
  length (encode_Appointment junk a) = sizeof_Appointment.
Proof.
  destruct a as [id patientId doctorId date time].
  unfold wf_Appointment, decode_Appointment, encode_Appointment.
  cbn [Appointment.id Appointment.patientId Appointment.doctorId
       Appointment.date Appointment.time].
  intros (Hid & Hpatient & Hdoctor & Hdate & Htime).
  split.
  - f_equal.
    + layout_member. by apply bytes_int_int_bytes.
    + layout_member. by apply bytes_int_int_bytes.
    + layout_member. by apply bytes_int_int_bytes.
    + layout_member. by apply bytes_cstring_char_buf.
    + layout_member. by apply bytes_cstring_char_buf.
  - unfold sizeof_Appointment. layout_len.
Qed.

(** ** Persistence: reading back what was written *)

Lemma fread_int_int_bytes (old z : Z) (rest : list Z) :
  in_int z -> fread_int old (int_bytes z ++ rest) = Some (z, rest).
Proof.
  intros Hz. unfold fread_int.
  rewrite length_app, length_int_bytes. cbn [Nat.leb Nat.add].
  rewrite take_app_length', drop_app_length' by done.
  by rewrite bytes_int_int_bytes.
Qed.

Section Records.

Context {A : Type}.
Variable wf : A -> Prop.
Variable encode : (nat -> Z) -> A -> list Z.
Variable decode : list Z -> A.
Variable size : nat.

Hypothesis decode_encode :
  forall junk x, wf x -> decode (encode junk x) = x /\ length (encode junk x) = size.

Lemma fread_array_written (l : list A) :
  forall (junk : nat -> nat -> Z) (rest : list Z),
    Forall wf l ->
    fread_array size decode (length l)
      (concat (imap (fun i x => encode (junk i) x) l) ++ rest)
    = Some (l, rest).
Proof.
  induction l as [|x l IH]; intros junk rest Hwf; [done|].
  apply Forall_cons in Hwf as [Hx Hl].
  destruct (decode_encode (junk 0%nat) x Hx) as [Hdec Hlen].
  cbn [length fread_array imap concat].
  rewrite <- app_assoc, length_app, Hlen.
  rewrite (proj2 (Nat.leb_le _ _)) by lia.
  rewrite drop_app_length', take_app_length' by done.
  change (imap ((fun i x => encode (junk i) x) ∘ S) l)
    with (imap (fun i x => encode ((junk ∘ S) i) x) l).
  rewrite IH by done. cbn. by rewrite Hdec.
Qed.

(** Reading back the records of a table yields its live records, in
    front of whatever the target array held beyond them. *)
Lemma fread_records_written (max count : Z) (arr arr0 : list A)
    (junk : nat -> nat -> Z) (rest : list Z) :
  0 <= count <= max -> (Z.to_nat count <= length arr)%nat ->
  Forall wf (take (Z.to_nat count) arr) ->
  exists arr',
    fread_records size decode max count arr0
      (fwrite_records encode junk count arr ++ rest) = Some (arr', rest) /\
    take (Z.to_nat count) arr' = take (Z.to_nat count) arr /\
    (length arr0 = Z.to_nat max -> length arr' = Z.to_nat max).
Proof.
  intros Hcount Hlen Hwf. unfold fread_records, fwrite_records.
  destruct (0 <? count) eqn:Hpos.
  - assert (Hn : Z.to_nat count = length (take (Z.to_nat count) arr)).
    { rewrite length_take. lia. }
    revert Hwf Hn. generalize (take (Z.to_nat count) arr). intros l Hwf Hn.
    rewrite Hn.
    rewrite fread_array_written by done. cbn.
    rewrite (proj2 (Z.leb_le _ _)) by lia.
    eexists. split; [done|]. split.
    + apply take_app_length.
    + intros Hlen0. rewrite length_app, length_drop, Hlen0. lia.
  - exists arr0. split; [done|].
    replace (Z.to_nat count) with 0%nat by lia. done.
Qed.

End Records.

(** Loading a file saved from a well-formed state succeeds and restores
    its counts, counters and live records, whatever the unset bytes of
    the file were and whatever the arrays held before. *)
Lemma loadData_saveData (junk : nat -> nat -> nat -> Z) (s s0 : state) :
  wf_state s ->
  exists s', loadData (Some (saveData junk s)) s0 = Some s' /\ same_data s' s /\
             (in_bounds s0 -> in_bounds s').
Proof.
  intros ((Hlp & Hls & Hld & Hla & Hcp & Hcs & Hcd & Hca)
          & Hnp & Hns & Hnd & Hna & Hwp & Hws & Hwd & Hwa).
  assert (Hint : forall c m, 0 <= c <= m -> m <= 1000 -> in_int c).
  { unfold in_int, INT_MIN, INT_MAX. lia. }
  unfold loadData, saveData.
  repeat (rewrite fread_int_int_bytes
            by first [assumption | eapply Hint; [eassumption | done] ]; cbn [mbind option_bind]).
  destruct (fread_records_written wf_Patient encode_Patient decode_Patient sizeof_Patient
              decode_encode_Patient MAX_PATIENTS (patientCount s) (patients s) (patients s0)
              (junk 0%nat)
              (fwrite_records encode_Disease (junk 1%nat) (diseaseCount s) (diseases s) ++
               fwrite_records encode_Doctor (junk 2%nat) (doctorCount s) (doctors s) ++
               fwrite_records encode_Appointment (junk 3%nat) (appointmentCount s)
                 (appointments s)))
    as (ps & -> & Hps & Hpl); [done | rewrite Hlp; lia | done |].
  cbn [mbind option_bind].
  destruct (fread_records_written wf_Disease encode_Disease decode_Disease sizeof_Disease
              decode_encode_Disease MAX_DISEASES (diseaseCount s) (diseases s) (diseases s0)
              (junk 1%nat)
              (fwrite_records encode_Doctor (junk 2%nat) (doctorCount s) (doctors s) ++
               fwrite_records encode_Appointment (junk 3%nat) (appointmentCount s)
                 (appointments s)))
    as (ss & -> & Hss & Hsl); [done | rewrite Hls; lia | done |].
  cbn [mbind option_bind].
  destruct (fread_records_written wf_Doctor encode_Doctor decode_Doctor sizeof_Doctor
              decode_encode_Doctor MAX_DOCTORS (doctorCount s) (doctors s) (doctors s0)
              (junk 2%nat)
              (fwrite_records encode_Appointment (junk 3%nat) (appointmentCount s)
                 (appointments s)))
    as (ds & -> & Hds & Hdl); [done | rewrite Hld; lia | done |].
  cbn [mbind option_bind].
  rewrite <- (app_nil_r (fwrite_records encode_Appointment _ _ _)).
  destruct (fread_records_written wf_Appointment encode_Appointment decode_Appointment
              sizeof_Appointment decode_encode_Appointment MAX_APPOINTS
              (appointmentCount s) (appointments s) (appointments s0) (junk 3%nat) [])
    as (aps & -> & Haps & Hal); [done | rewrite Hla; lia | done |].
  cbn [mbind option_bind].
  eexists. split; [reflexivity|]. split.
  - repeat split; done.
  - intros (H1 & H2 & H3 & H4 & _). repeat split; cbn; auto; lia.
Qed.

(** ** Reachable states are well formed *)

Lemma c_take_idem (n : nat) (s : string) : c_take n (c_take n s) = c_take n s.
Proof.
  revert s. induction n as [|n IH]; intros [|c s]; simpl; try done.
  destruct (char_code c =? 0) eqn:Ec; [done|].
  simpl. by rewrite Ec, IH.
Qed.

Lemma fits_getLine (size : nat) (line : string) : fits size (getLine size line).
Proof. apply c_take_idem. Qed.

Lemma fits_strncpy_buf (size : nat) (src : string) : fits size (strncpy_buf size src).
Proof. apply c_take_idem. Qed.

Lemma length_shift_left {A : Type} `{Inhabited A} (k : nat) :
  forall (arr : list A) (j : nat), length (shift_left arr j k) = length arr.
Proof.
  induction k as [|k IH]; intros arr j; simpl; [done|].
  by rewrite IH, length_insert.
Qed.

Lemma in_int_0 : in_int 0.
Proof. unfold in_int, INT_MIN, INT_MAX. lia. Qed.

Ltac state_simpl :=
  cbn [fst snd set_patients set_diseases set_doctors set_appointments
       set_patientCount set_diseaseCount set_doctorCount set_appointmentCount
       set_nextPatientId set_nextDiseaseId set_nextDoctorId set_nextAppointmentId
       patients diseases doctors appointments
       patientCount diseaseCount doctorCount appointmentCount
       nextPatientId nextDiseaseId nextDoctorId nextAppointmentId].

Ltac wf_goals :=
  unfold wf_state, in_bounds, live_patients, live_diseases, live_doctors,
    live_appointments;
  state_simpl; split_and!.

Ltac wf_frame :=
  first [ assumption
        | rewrite length_insert; assumption
        | apply wrap_int_in_int
        | lia ].

Ltac wf_record :=
  apply Forall_singleton;
  unfold wf_Patient, wf_Disease, wf_Doctor, wf_Appointment;
  cbn [Patient.id Patient.name Patient.age Patient.gender Patient.phone
       Patient.disease Patient.doctorId
       Disease.id Disease.name Disease.symptoms Disease.treatment
       Doctor.id Doctor.name Doctor.specialization Doctor.phone
       Appointment.id Appointment.patientId Appointment.doctorId
       Appointment.date Appointment.time];
  split_and!; auto using fits_strncpy_buf, fits_getLine.

Ltac wf_open :=
  intros ((Hlp & Hls & Hld & Hla & Hcp & Hcs & Hcd & Hca)
          & Hnp & Hns & Hnd & Hna & Hwp & Hws & Hwd & Hwa).

Lemma addDoctor_wf (s : state) (name specialization phone : string) :
  wf_state s -> wf_state (fst (addDoctor s name specialization phone)).
Proof.
  intros Hwf. pose proof Hwf as Hwf'. revert Hwf'. wf_open. unfold addDoctor.
  destruct (MAX_DOCTORS <=? doctorCount s) eqn:Hfull; [done|].
  wf_goals; try wf_frame.
  rewrite take_insert_next by (rewrite ?Hld; unfold MAX_DOCTORS in *; lia).
  apply Forall_app. split; [done|].
  wf_record.
Qed.

Lemma addDisease_wf (s : state) (name symptoms treatment : string) :
  wf_state s -> wf_state (fst (addDisease s name symptoms treatment)).
Proof.
  intros Hwf. pose proof Hwf as Hwf'. revert Hwf'. wf_open. unfold addDisease.
  destruct (MAX_DISEASES <=? diseaseCount s) eqn:Hfull; [done|].
  wf_goals; try wf_frame.
  rewrite take_insert_next by (rewrite ?Hls; unfold MAX_DISEASES in *; lia).
  apply Forall_app. split; [done|].
  wf_record.
Qed.

Lemma findDoctorIndex_in_int (s : state) (docId : Z) :
  Forall wf_Doctor (live_doctors s) ->
  is_Some (findDoctorIndex s docId) -> in_int docId.
Proof.
  intros Hwd [i Hi]. apply find_index_Some in Hi as (d & Hd & <- & _).
  rewrite Forall_forall in Hwd.
  apply list_elem_of_lookup_2, Hwd in Hd. apply Hd.
Qed.

Lemma addPatient_wf (s : state) (name : string) (age : Z)
    (gender phone disease : string) (docId : Z) :
  in_int age ->
  wf_state s -> wf_state (fst (addPatient s name age gender phone disease docId)).
Proof.
  intros Hage Hwf. pose proof Hwf as Hwf'. revert Hwf'. wf_open. unfold addPatient.
  destruct (MAX_PATIENTS <=? patientCount s) eqn:Hfull; [done|].
  change (findDoctorIndex (set_nextPatientId (wrap_int (nextPatientId s + 1)) s) docId)
    with (findDoctorIndex s docId).
  cbn [set_nextPatientId doctorCount patientCount patients].
  set (choice := if 0 <? doctorCount s
                 then if negb (docId =? 0)
                         && bool_decide (is_Some (findDoctorIndex s docId))
                      then (docId, DoctorAssigned docId)
                      else (0, if negb (docId =? 0) then NoDoctorFound docId
                               else AssignedNone)
                 else (0, NoDoctorsInSystem)).
  assert (Hchoice : in_int (fst choice)).
  { subst choice. destruct (0 <? doctorCount s); [|apply in_int_0].
    destruct (negb (docId =? 0)); cbn [andb]; [|apply in_int_0].
    case_bool_decide; [|apply in_int_0].
    by eapply findDoctorIndex_in_int. }
  destruct choice as [doctorId notice]. cbn [fst] in Hchoice.
  wf_goals; try wf_frame.
  rewrite take_insert_next by (rewrite ?Hlp; unfold MAX_PATIENTS in *; lia).
  apply Forall_app. split; [done|].
  wf_record.
Qed.

Lemma addAppointment_wf (s : state) (pid did : Z) (date time : string) :
  in_int pid -> in_int did ->
  wf_state s -> wf_state (fst (addAppointment s pid did date time)).
Proof.
  intros Hpid Hdid Hwf. pose proof Hwf as Hwf'. revert Hwf'. wf_open.
  unfold addAppointment.
  destruct (MAX_APPOINTS <=? appointmentCount s) eqn:Hfull; [done|].
  destruct ((patientCount s =? 0) || (doctorCount s =? 0)); [done|].
  destruct (findPatientIndex s pid) as [pi|] eqn:Hpi; [|done].
  destruct (findDoctorIndex s did) as [di|] eqn:Hdi; [|done].
  apply findPatientIndex_Some in Hpi as (p & Hp & Hpid' & Hlt & Hlive).
  state_simpl.
  rewrite (list_lookup_total_correct _ _ _ Hp).
  assert (Hnew : Forall wf_Appointment
                   (take (Z.to_nat (appointmentCount s + 1))
                      (<[Z.to_nat (appointmentCount s) :=
                           Appointment.mk (nextAppointmentId s) pid did
                             (getLine 20 date) (getLine 10 time)]> (appointments s)))).
  { rewrite take_insert_next by (rewrite ?Hla; unfold MAX_APPOINTS in *; lia).
    apply Forall_app. split; [done|].
    wf_record. }
  assert (Hwfp : wf_Patient p).
  { rewrite Forall_forall in Hwp. by apply Hwp, (list_elem_of_lookup_2 _ pi). }
  destruct (Patient.doctorId p =? 0); wf_goals; try wf_frame.
  rewrite take_insert_lt by lia.
  apply Forall_insert; [done|].
  destruct Hwfp as (? & ? & ? & ? & ? & ? & ?). unfold wf_Patient. by split_and!.
Qed.

Lemma shift_left_wf {A : Type} `{Inhabited A} (P : A -> Prop) (arr : list A)
    (n : Z) (i : nat) :
  (Z.to_nat n <= length arr)%nat -> Z.of_nat i < n ->
  Forall P (take (Z.to_nat n) arr) ->
  Forall P (take (Z.to_nat (n - 1)) (shift_left arr i (Z.to_nat (n - 1 - Z.of_nat i)))).
Proof.
  intros Hlen Hi HP. rewrite shift_left_live by done.
  apply Forall_app. split.
  - replace (take i arr) with (take i (take (Z.to_nat n) arr))
      by (rewrite take_take; f_equal; lia).
    by apply Forall_take.
  - by apply Forall_drop.
Qed.

Lemma deletePatient_wf (s : state) (id : Z) (confirm : string) :
  wf_state s -> wf_state (fst (deletePatient s id confirm)).
Proof.
  intros Hwf. pose proof Hwf as Hwf'. revert Hwf'. wf_open. unfold deletePatient.
  destruct (id <=? 0); [done|].
  destruct (findPatientIndex s id) as [i|] eqn:Hi; [|done].
  destruct (confirmed _); [|done].
  apply findPatientIndex_Some in Hi as (p & Hp & _ & Hlt & _).
  wf_goals; try wf_frame.
  - by rewrite length_shift_left.
  - apply shift_left_wf; [rewrite Hlp; unfold MAX_PATIENTS in *; lia | done | done].
Qed.

Lemma cancelAppointment_wf (s : state) (id : Z) (confirm : string) :
  wf_state s -> wf_state (fst (cancelAppointment s id confirm)).
Proof.
  intros Hwf. pose proof Hwf as Hwf'. revert Hwf'. wf_open. unfold cancelAppointment.
  destruct (id <=? 0); [done|].
  destruct (findAppointmentIndex s id) as [i|] eqn:Hi; [|done].
  destruct (confirmed _); [|done].
  apply find_index_Some in Hi as (a & Ha & _).
  apply lookup_take_Some_inv in Ha as [Ha Hlt].
  wf_goals; try wf_frame.
  - by rewrite length_shift_left.
  - apply shift_left_wf; [rewrite Hla; unfold MAX_APPOINTS in *; lia | lia | done].
Qed.

Lemma sortPatientsByName_wf (char_signed : bool)
    (qsort : (Patient.t -> Patient.t -> Z) -> list Patient.t -> list Patient.t)
    (s : state) :
  qsort_contract qsort ->
  wf_state s -> wf_state (fst (sortPatientsByName char_signed qsort s)).
Proof.
  intros Hq Hwf. pose proof Hwf as Hwf'. revert Hwf'. wf_open.
  unfold sortPatientsByName.
  destruct (patientCount s <? 2); [done|].
  destruct (Hq (comparePatientsByName char_signed)
               (take (Z.to_nat (patientCount s)) (patients s))
               (comparePatientsByName_consistent char_signed)) as [Hperm _].
  assert (Hlen : length (qsort (comparePatientsByName char_signed)
                           (take (Z.to_nat (patientCount s)) (patients s)))
                 = Z.to_nat (patientCount s)).
  { rewrite (Permutation_length Hperm), length_take.
    rewrite Hlp. unfold MAX_PATIENTS in *. lia. }
  wf_goals; try wf_frame.
  - rewrite length_app, Hlen, length_drop, Hlp. unfold MAX_PATIENTS in *. lia.
  - rewrite take_app_length' by done. by rewrite Hperm.
Qed.

Lemma dispatch_wf (char_signed : bool)
    (qsort : (Patient.t -> Patient.t -> Z) -> list Patient.t -> list Patient.t)
    (c : command) (s : state) :
  qsort_contract qsort -> command_valid c ->
  wf_state s -> wf_state (fst (dispatch char_signed qsort c s)).
Proof.
  intros Hq Hc Hwf. destruct c; cbn [dispatch command_valid] in *.
  - apply addPatient_wf; tauto.
  - done.
  - by apply deletePatient_wf.
  - by apply sortPatientsByName_wf.
  - by apply addDoctor_wf.
  - by apply addDisease_wf.
  - apply addAppointment_wf; tauto.
  - done.
  - by apply cancelAppointment_wf.
Qed.

Lemma init_state_wf : wf_state init_state.
Proof.
  unfold wf_state, in_bounds, in_int, INT_MIN, INT_MAX,
    MAX_PATIENTS, MAX_DISEASES, MAX_DOCTORS, MAX_APPOINTS.
  split_and!; try apply length_replicate; try (cbn; lia); apply Forall_nil_2.
Qed.

(** A state with the data of a well-formed state, in arrays of the right
    sizes, is well formed. *)
Lemma same_data_wf (s s' : state) :
  same_data s' s -> in_bounds s' -> wf_state s -> wf_state s'.
Proof.
  intros (E1 & E2 & E3 & E4 & E5 & E6 & E7 & E8 & E9 & E10 & E11 & E12) Hb.
  wf_open. unfold wf_state.
  rewrite E5, E6, E7, E8, E9, E10, E11, E12. by split_and!.
Qed.

Lemma reachable_wf (char_signed : bool)
    (qsort : (Patient.t -> Patient.t -> Z) -> list Patient.t -> list Patient.t)
    (s : state) :
  qsort_contract qsort -> reachable char_signed qsort s -> wf_state s.
Proof.
  intros Hq. induction 1 as [|c s Hs IH Hc|junk s s' Hs IH Hload].
  - apply init_state_wf.
  - by apply dispatch_wf.
  - destruct (loadData_saveData junk s init_state IH) as (s'' & Hload' & Hsame & Hb).
    assert (s'' = s') as -> by congruence.
    eapply same_data_wf; [done | | done].
    apply Hb, init_state_wf.
Qed.

Lemma reachable_run (char_signed : bool)
    (qsort : (Patient.t -> Patient.t -> Z) -> list Patient.t -> list Patient.t)
    (cs : list command) :
  forall s, reachable char_signed qsort s -> Forall command_valid cs ->
            reachable char_signed qsort (fst (run char_signed qsort cs s)).
Proof.
  induction cs as [|c cs IH]; intros s Hs Hcs; [done|].
  apply Forall_cons in Hcs as [Hc Hcs]. simpl.
  pose proof (reach_step char_signed qsort c s Hs Hc) as Hstep.
  destruct (dispatch char_signed qsort c s) as [s1 o].
  specialize (IH s1 Hstep Hcs).
  by destruct (run char_signed qsort cs s1).
Qed.

(** ** C2: save then load *)

(** C2. For every state [s] reachable in a session (with a [qsort] that
    honours the C standard), loading the bytes that saving [s] produces
    succeeds and yields a state equal to [s] in every count, every
    next-id counter and every field of every live record of the four
    tables.  This holds for any values of the bytes the program leaves
    unset in the file, and whatever the globals were before the load. *)
Theorem save_load_roundtrip (char_signed : bool)
    (qsort : (Patient.t -> Patient.t -> Z) -> list Patient.t -> list Patient.t)
    (junk : nat -> nat -> nat -> Z) (s s0 : state) :
  qsort_contract qsort -> reachable char_signed qsort s ->
  exists s', loadData (Some (saveData junk s)) s0 = Some s' /\ same_data s' s.
Proof.
  intros Hq Hs.
  destruct (loadData_saveData junk s s0 (reachable_wf _ _ _ Hq Hs)) as (s' & Hload & Hsame & _).
  eauto.
Qed.

Lemma save_load_roundtrip_witness :
  exists s',
    loadData (Some (saveData (fun _ _ _ => 204)
                             (fst (run true merge_qsort busy_session init_state))))
             init_state = Some s' /\
    same_data s' (fst (run true merge_qsort busy_session init_state)).
Proof.
  apply (save_load_roundtrip true merge_qsort).
  - exact merge_qsort_contract.
  - apply reachable_run; [apply reach_init|].
    repeat constructor; vm_compute; congruence.
Defined.

(** * Further properties of the program *)

(** ** The tables of doctors and diseases are append-only *)

Lemma first_ids_S (n : nat) : first_ids (S n) = first_ids n ++ [Z.of_nat (S n)].
Proof. unfold first_ids. by rewrite seq_S, map_app. Qed.

Lemma first_ids_lookup (n i : nat) (x : Z) :
  first_ids n !! i = Some x -> x = Z.of_nat (S i).
Proof.
  unfold first_ids. rewrite list_lookup_fmap. intros E.
  destruct (seq 1 n !! i) as [k|] eqn:Ek; [|done].
  apply lookup_seq in Ek as [-> _]. cbn in E. by injection E as <-.
Qed.

Lemma elem_of_first_ids (n : nat) (x : Z) :
  x ∈ first_ids n <-> 1 <= x <= Z.of_nat n.
Proof.
  unfold first_ids. rewrite list_elem_of_fmap. split.
  - intros (k & -> & Hk). apply elem_of_seq in Hk. lia.
  - intros Hx. exists (Z.to_nat x). split; [lia|]. apply elem_of_seq. lia.
Qed.

Ltac dispatch_frame :=
  intros c s Hne; destruct c; try (exfalso; by eapply Hne); cbn [dispatch];
  unfold addPatient, searchPatientByName, deletePatient, sortPatientsByName,
    addDoctor, addDisease, addAppointment, displayAppointments, cancelAppointment;
  repeat match goal with
         | |- context [if ?b then _ else _] => destruct b
         | |- context [findPatientIndex ?s ?i] => destruct (findPatientIndex s i)
         | |- context [findDoctorIndex ?s ?i] => destruct (findDoctorIndex s i)
         | |- context [findAppointmentIndex ?s ?i] => destruct (findAppointmentIndex s i)
         end;
  done.

(** Only [addDoctor] writes the doctor table, its count or its counter. *)
Lemma dispatch_doctors_frame char_signed qsort :
  forall c s,
    (forall name specialization phone, c <> AddDoctor name specialization phone) ->
    doctors (fst (dispatch char_signed qsort c s)) = doctors s /\
    doctorCount (fst (dispatch char_signed qsort c s)) = doctorCount s /\
    nextDoctorId (fst (dispatch char_signed qsort c s)) = nextDoctorId s.
Proof. dispatch_frame. Qed.

(** Only [addDisease] writes the disease table, its count or its counter. *)
Lemma dispatch_diseases_frame char_signed qsort :
  forall c s,
    (forall name symptoms treatment, c <> AddDisease name symptoms treatment) ->
    diseases (fst (dispatch char_signed qsort c s)) = diseases s /\
    diseaseCount (fst (dispatch char_signed qsort c s)) = diseaseCount s /\
    nextDiseaseId (fst (dispatch char_signed qsort c s)) = nextDiseaseId s.
Proof. dispatch_frame. Qed.

Lemma dispatch_dense_ids char_signed qsort (c : command) (s : state) :
  in_bounds s -> dense_ids s -> dense_ids (fst (dispatch char_signed qsort c s)).
Proof.
  intros (_ & Hls & Hld & _ & _ & Hcs & Hcd & _) (Hd & Hnd & Hs & Hns).
  unfold dense_ids, live_doctors, live_diseases in *.
  pose proof (dispatch_doctors_frame char_signed qsort c s) as Hfd.
  pose proof (dispatch_diseases_frame char_signed qsort c s) as Hfs.
  destruct c as [ | | | | name specialization phone | name symptoms treatment | | | ];
    try (destruct (Hfd ltac:(done)) as (-> & -> & ->);
         destruct (Hfs ltac:(done)) as (-> & -> & ->); done).
  - destruct (Hfs ltac:(done)) as (-> & -> & ->). clear Hfd Hfs.
    split_and!; try done; cbn [dispatch]; unfold addDoctor;
      destruct (MAX_DOCTORS <=? doctorCount s) eqn:Hfull; try done; state_simpl.
    + rewrite take_insert_next by (rewrite ?Hld; unfold MAX_DOCTORS in *; lia).
      rewrite map_app, Hd. cbn [map Doctor.id].
      replace (Z.to_nat (doctorCount s + 1)) with (S (Z.to_nat (doctorCount s))) by lia.
      rewrite first_ids_S. do 2 f_equal. lia.
    + rewrite Hnd. unfold wrap_int, MAX_DOCTORS in *. rewrite Z.mod_small; lia.
  - destruct (Hfd ltac:(done)) as (-> & -> & ->). clear Hfd Hfs.
    split_and!; try done; cbn [dispatch]; unfold addDisease;
      destruct (MAX_DISEASES <=? diseaseCount s) eqn:Hfull; try done; state_simpl.
    + rewrite take_insert_next by (rewrite ?Hls; unfold MAX_DISEASES in *; lia).
      rewrite map_app, Hs. cbn [map Disease.id].
      replace (Z.to_nat (diseaseCount s + 1)) with (S (Z.to_nat (diseaseCount s))) by lia.
      rewrite first_ids_S. do 2 f_equal. lia.
    + rewrite Hns. unfold wrap_int, MAX_DISEASES in *. rewrite Z.mod_small; lia.
Qed.

Lemma same_data_dense_ids (s s' : state) :
  same_data s' s -> dense_ids s -> dense_ids s'.
Proof.
  intros (E1 & E2 & E3 & E4 & E5 & E6 & E7 & E8 & E9 & E10 & E11 & E12).
  unfold dense_ids. by rewrite E2, E3, E6, E7, E10, E11.
Qed.

Lemma reachable_dense_ids (char_signed : bool)
    (qsort : (Patient.t -> Patient.t -> Z) -> list Patient.t -> list Patient.t)
    (s : state) :
  qsort_contract qsort -> reachable char_signed qsort s -> dense_ids s.
Proof.
  intros Hq. induction 1 as [|c s Hs IH Hc|junk s s' Hs IH Hload].
  - by vm_compute.
  - apply dispatch_dense_ids; [|done]. by apply (reachable_wf _ _ _ Hq Hs).
  - destruct (loadData_saveData junk s init_state (reachable_wf _ _ _ Hq Hs))
      as (s'' & Hload' & Hsame & _).
    assert (s'' = s') as -> by congruence.
    by eapply same_data_dense_ids.
Qed.

(** With dense ids a doctor id resolves exactly when it lies between 1
    and the count, and then to the position just below it. *)
Lemma findDoctorIndex_dense (s : state) (id : Z) :
  0 <= doctorCount s -> dense_ids s ->
  findDoctorIndex s id =
    if (1 <=? id) && (id <=? doctorCount s) then Some (Z.to_nat (id - 1)) else None.
Proof.
  intros Hc (Hd & _). unfold findDoctorIndex.
  destruct ((1 <=? id) && (id <=? doctorCount s)) eqn:Hin.
  - assert (Hmem : id ∈ map Doctor.id (live_doctors s)).
    { rewrite Hd. apply elem_of_first_ids. lia. }
    apply list_elem_of_fmap in Hmem as (d & Hid & Hmem).
    destruct (find_index_elem (fun d => Doctor.id d = id) _ d Hmem (eq_sym Hid)) as [i Hi].
    rewrite Hi. f_equal.
    apply find_index_Some in Hi as (d' & Hd' & Hid' & _).
    assert (Hi : map Doctor.id (live_doctors s) !! i = Some id).
    { rewrite list_lookup_fmap, Hd'. cbn. by rewrite Hid'. }
    rewrite Hd in Hi. apply first_ids_lookup in Hi. lia.
  - apply find_index_None, Forall_forall. intros d Hmem Hid.
    assert (Hx : id ∈ map Doctor.id (live_doctors s)).
    { apply list_elem_of_fmap. eauto. }
    rewrite Hd in Hx. apply elem_of_first_ids in Hx. lia.
Qed.

(** X1. In every reachable state the doctor table holds exactly the ids
    1, 2, ..., [doctorCount] in order and its counter is one past the
    count, and likewise the disease table: no operation removes,
    reorders or renumbers these records.  A doctor id therefore resolves
    exactly when it lies between 1 and the count, to the position just
    below it. *)
Theorem doctors_and_diseases_append_only (char_signed : bool)
    (qsort : (Patient.t -> Patient.t -> Z) -> list Patient.t -> list Patient.t)
    (s : state) :
  qsort_contract qsort -> reachable char_signed qsort s ->
  map Doctor.id (live_doctors s) = first_ids (Z.to_nat (doctorCount s)) /\
  nextDoctorId s = doctorCount s + 1 /\
  map Disease.id (live_diseases s) = first_ids (Z.to_nat (diseaseCount s)) /\
  nextDiseaseId s = diseaseCount s + 1 /\
  (forall id, findDoctorIndex s id =
                if (1 <=? id) && (id <=? doctorCount s)
                then Some (Z.to_nat (id - 1)) else None).
Proof.
  intros Hq Hs.
  pose proof (reachable_dense_ids _ _ _ Hq Hs) as Hd.
  pose proof (reachable_wf _ _ _ Hq Hs) as ((_ & _ & _ & _ & _ & _ & Hcd & _) & _).
  destruct Hd as (H1 & H2 & H3 & H4). split_and!; try done.
  intros id. apply findDoctorIndex_dense; [lia | done].
Qed.

Lemma busy_session_reachable :
  reachable true merge_qsort (fst (run true merge_qsort busy_session init_state)).
Proof.
  apply reachable_run; [apply reach_init|].
  repeat constructor; vm_compute; congruence.
Qed.

Lemma doctors_and_diseases_append_only_witness :
  let s := fst (run true merge_qsort busy_session init_state) in
  map Doctor.id (live_doctors s) = [1; 2] /\
  nextDoctorId s = 3 /\
  map Disease.id (live_diseases s) = [1] /\
  nextDiseaseId s = 2 /\
  (forall id, findDoctorIndex s id =
                if (1 <=? id) && (id <=? 2) then Some (Z.to_nat (id - 1)) else None).
Proof.
  exact (doctors_and_diseases_append_only true merge_qsort _
           merge_qsort_contract busy_session_reachable).
Defined.

(** ** Doctor references always resolve *)

Lemma is_Some_findDoctorIndex (s : state) (id : Z) :
  0 <= doctorCount s -> dense_ids s ->
  is_Some (findDoctorIndex s id) <-> 1 <= id <= doctorCount s.
Proof.
  intros Hc Hd. rewrite (findDoctorIndex_dense s id Hc Hd).
  destruct ((1 <=? id) && (id <=? doctorCount s)) eqn:E.
  - split; [lia | by eauto].
  - split; [by intros [? ?] | lia].
Qed.

Ltac refs_goals :=
  unfold references_ok, live_patients, live_appointments; state_simpl; split.

Lemma dispatch_references_ok char_signed qsort (c : command) (s : state) :
  qsort_contract qsort -> in_bounds s -> dense_ids s ->
  references_ok s -> references_ok (fst (dispatch char_signed qsort c s)).
Proof.
  intros Hq (Hlp & _ & Hld & Hla & Hcp & _ & Hcd & Hca) Hd [Hrp Hra].
  assert (Hdoc : forall id, is_Some (findDoctorIndex s id) -> 1 <= id <= doctorCount s).
  { intros id. apply is_Some_findDoctorIndex; [lia | done]. }
  unfold live_patients, live_appointments in Hrp, Hra.
  destruct c as [name age gender phone disease docId | q | id confirm |
                 | name specialization phone | name symptoms treatment
                 | pid did date time | | id confirm]; cbn [dispatch].
  - unfold addPatient.
    destruct (MAX_PATIENTS <=? patientCount s) eqn:Hfull; [done|].
    change (findDoctorIndex (set_nextPatientId (wrap_int (nextPatientId s + 1)) s) docId)
      with (findDoctorIndex s docId).
    cbn [set_nextPatientId doctorCount patientCount patients].
    set (choice := if 0 <? doctorCount s
                   then if negb (docId =? 0)
                           && bool_decide (is_Some (findDoctorIndex s docId))
                        then (docId, DoctorAssigned docId)
                        else (0, if negb (docId =? 0) then NoDoctorFound docId
                                 else AssignedNone)
                   else (0, NoDoctorsInSystem)).
    assert (Hchoice : fst choice = 0 \/ 1 <= fst choice <= doctorCount s).
    { subst choice. destruct (0 <? doctorCount s); [|by left].
      destruct (negb (docId =? 0)); cbn [andb]; [|by left].
      case_bool_decide; [|by left]. right. by apply Hdoc. }
    destruct choice as [doctorId notice]. cbn [fst] in Hchoice.
    refs_goals; [|done].
    rewrite take_insert_next by (rewrite ?Hlp; unfold MAX_PATIENTS in *; lia).
    apply Forall_app. split; [done|]. by apply Forall_singleton.
  - done.
  - unfold deletePatient.
    destruct (id <=? 0); [done|].
    destruct (findPatientIndex s id) as [i|] eqn:Hi; [|done].
    destruct (confirmed _); [|done].
    apply findPatientIndex_Some in Hi as (p & Hp & _ & Hlt & _).
    refs_goals; [|done].
    apply shift_left_wf; [rewrite Hlp; unfold MAX_PATIENTS in *; lia | done | done].
  - unfold sortPatientsByName.
    destruct (patientCount s <? 2); [done|].
    destruct (Hq (comparePatientsByName char_signed)
                 (take (Z.to_nat (patientCount s)) (patients s))
                 (comparePatientsByName_consistent char_signed)) as [Hperm _].
    refs_goals; [|done].
    rewrite take_app_length'.
    + by rewrite Hperm.
    + rewrite (Permutation_length Hperm), length_take.
      rewrite Hlp. unfold MAX_PATIENTS in *. lia.
  - unfold addDoctor.
    destruct (MAX_DOCTORS <=? doctorCount s); [done|].
    refs_goals.
    + eapply Forall_impl; [exact Hrp|]. intros p Hp. cbn in Hp. lia.
    + eapply Forall_impl; [exact Hra|]. intros a Ha. cbn in Ha. lia.
  - unfold addDisease.
    destruct (MAX_DISEASES <=? diseaseCount s); [done|]. by refs_goals.
  - unfold addAppointment.
    destruct (MAX_APPOINTS <=? appointmentCount s) eqn:Hfull; [done|].
    destruct ((patientCount s =? 0) || (doctorCount s =? 0)); [done|].
    destruct (findPatientIndex s pid) as [pi|] eqn:Hpi; [|done].
    destruct (findDoctorIndex s did) as [di|] eqn:Hdi; [|done].
    assert (Hdid : 1 <= did <= doctorCount s) by (apply Hdoc; rewrite Hdi; eauto).
    apply findPatientIndex_Some in Hpi as (p & Hp & _ & Hlt & Hlive).
    state_simpl. rewrite (list_lookup_total_correct _ _ _ Hp).
    assert (Hnew : Forall (fun a => 1 <= Appointment.doctorId a <= doctorCount s)
                     (take (Z.to_nat (appointmentCount s + 1))
                        (<[Z.to_nat (appointmentCount s) :=
                             Appointment.mk (nextAppointmentId s) pid did
                               (getLine 20 date) (getLine 10 time)]> (appointments s)))).
    { rewrite take_insert_next by (rewrite ?Hla; unfold MAX_APPOINTS in *; lia).
      apply Forall_app. split; [done|]. by apply Forall_singleton. }
    destruct (Patient.doctorId p =? 0); refs_goals; try done.
    rewrite take_insert_lt by lia.
    apply Forall_insert; [done|]. cbn. by right.
  - done.
  - unfold cancelAppointment.
    destruct (id <=? 0); [done|].
    destruct (findAppointmentIndex s id) as [i|] eqn:Hi; [|done].
    destruct (confirmed _); [|done].
    apply find_index_Some in Hi as (a & Ha & _).
    apply lookup_take_Some_inv in Ha as [Ha Hlt].
    refs_goals; [done|].
    apply shift_left_wf; [rewrite Hla; unfold MAX_APPOINTS in *; lia | lia | done].
Qed.

Lemma reachable_references_ok (char_signed : bool)
    (qsort : (Patient.t -> Patient.t -> Z) -> list Patient.t -> list Patient.t)
    (s : state) :
  qsort_contract qsort -> reachable char_signed qsort s -> references_ok s.
Proof.
  intros Hq. induction 1 as [|c s Hs IH Hc|junk s s' Hs IH Hload].
  - split; apply Forall_nil_2.
  - apply dispatch_references_ok; try done.
    + by apply (reachable_wf _ _ _ Hq Hs).
    + by apply (reachable_dense_ids _ _ _ Hq Hs).
  - destruct (loadData_saveData junk s init_state (reachable_wf _ _ _ Hq Hs))
      as (s'' & Hload' & Hsame & _).
    assert (s'' = s') as -> by congruence.
    destruct Hsame as (E1 & E2 & E3 & E4 & E5 & E6 & E7 & E8 & E9 & E10 & E11 & E12).
    unfold references_ok. by rewrite E3, E9, E12.
Qed.

(** X2. In every reachable state every live appointment names a doctor
    that exists, and every live patient either has no doctor (0) or
    names one that exists: [addPatient] and [addAppointment] only store
    ids that [findDoctorIndex] resolved, and nothing ever removes a
    doctor.  (An appointment's patient, in contrast, may be gone.) *)
Theorem doctor_references_resolve (char_signed : bool)
    (qsort : (Patient.t -> Patient.t -> Z) -> list Patient.t -> list Patient.t)
    (s : state) :
  qsort_contract qsort -> reachable char_signed qsort s ->
  (forall a, a ∈ live_appointments s ->
     is_Some (findDoctorIndex s (Appointment.doctorId a))) /\
  (forall p, p ∈ live_patients s ->
     Patient.doctorId p = 0 \/ is_Some (findDoctorIndex s (Patient.doctorId p))).
Proof.
  intros Hq Hs.
  pose proof (reachable_dense_ids _ _ _ Hq Hs) as Hd.
  pose proof (reachable_wf _ _ _ Hq Hs) as ((_ & _ & _ & _ & _ & _ & Hcd & _) & _).
  destruct (reachable_references_ok _ _ _ Hq Hs) as [Hrp Hra].
  rewrite Forall_forall in Hrp. rewrite Forall_forall in Hra.
  split.
  - intros a Ha. apply is_Some_findDoctorIndex; [lia | done | by apply Hra].
  - intros p Hp. destruct (Hrp p Hp) as [E|E]; [by left|right].
    apply is_Some_findDoctorIndex; [lia | done | done].
Qed.

Lemma doctor_references_resolve_witness :
  let s := fst (run true merge_qsort busy_session init_state) in
  (forall a, a ∈ live_appointments s ->
     is_Some (findDoctorIndex s (Appointment.doctorId a))) /\
  (forall p, p ∈ live_patients s ->
     Patient.doctorId p = 0 \/ is_Some (findDoctorIndex s (Patient.doctorId p))).
Proof.
  exact (doctor_references_resolve true merge_qsort _
           merge_qsort_contract busy_session_reachable).
Defined.

(** ** Array bounds *)

Ltac bounds_goals := unfold in_bounds; state_simpl; split_and!.

Lemma dispatch_in_bounds char_signed qsort (c : command) (s : state) :
  qsort_contract qsort -> in_bounds s -> in_bounds (fst (dispatch char_signed qsort c s)).
Proof.
  intros Hq Hb. pose proof Hb as (Hlp & Hls & Hld & Hla & Hcp & Hcs & Hcd & Hca).
  destruct c as [name age gender phone disease docId | q | id confirm |
                 | name specialization phone | name symptoms treatment
                 | pid did date time | | id confirm]; cbn [dispatch].
  - unfold addPatient.
    destruct (MAX_PATIENTS <=? patientCount s) eqn:Hfull; [done|].
    cbn zeta. case_match. bounds_goals; try wf_frame.
  - done.
  - unfold deletePatient.
    destruct (id <=? 0); [done|].
    destruct (findPatientIndex s id) as [i|] eqn:Hi; [|done].
    destruct (confirmed _); [|done].
    apply findPatientIndex_Some in Hi as (p & Hp & _ & Hlt & _).
    bounds_goals; try wf_frame. by rewrite length_shift_left.
  - unfold sortPatientsByName.
    destruct (patientCount s <? 2); [done|].
    destruct (Hq (comparePatientsByName char_signed)
                 (take (Z.to_nat (patientCount s)) (patients s))
                 (comparePatientsByName_consistent char_signed)) as [Hperm _].
    bounds_goals; try wf_frame.
    rewrite length_app, (Permutation_length Hperm), length_take, length_drop, Hlp.
    unfold MAX_PATIENTS in *. lia.
  - unfold addDoctor.
    destruct (MAX_DOCTORS <=? doctorCount s) eqn:Hfull; [done|].
    bounds_goals; try wf_frame.
  - unfold addDisease.
    destruct (MAX_DISEASES <=? diseaseCount s) eqn:Hfull; [done|].
    bounds_goals; try wf_frame.
  - unfold addAppointment.
    destruct (MAX_APPOINTS <=? appointmentCount s) eqn:Hfull; [done|].
    destruct ((patientCount s =? 0) || (doctorCount s =? 0)); [done|].
    destruct (findPatientIndex s pid) as [pi|]; [|done].
    destruct (findDoctorIndex s did) as [di|]; [|done].
    cbn zeta. case_match; bounds_goals; try wf_frame.
  - done.
  - unfold cancelAppointment.
    destruct (id <=? 0); [done|].
    destruct (findAppointmentIndex s id) as [i|] eqn:Hi; [|done].
    destruct (confirmed _); [|done].
    apply find_index_Some in Hi as (a & Ha & _).
    apply lookup_take_Some_inv in Ha as [Ha Hlt].
    bounds_goals; try wf_frame. by rewrite length_shift_left.
Qed.

Lemma run_in_bounds char_signed qsort (cs : list command) :
  forall s, qsort_contract qsort -> in_bounds s ->
            in_bounds (fst (run char_signed qsort cs s)).
Proof.
  induction cs as [|c cs IH]; intros s Hq Hb; [done|]. simpl.
  pose proof (dispatch_in_bounds char_signed qsort c s Hq Hb) as Hstep.
  destruct (dispatch char_signed qsort c s) as [s1 o].
  specialize (IH s1 Hq Hstep).
  by destruct (run char_signed qsort cs s1).
Qed.

Lemma init_state_in_bounds : in_bounds init_state.
Proof. apply init_state_wf. Qed.

(** X3. From the empty database, whatever commands are typed, with
    whatever integers and lines, every count stays between 0 and the
    size of its array, and the arrays keep their sizes. *)
Theorem counts_stay_in_bounds (char_signed : bool)
    (qsort : (Patient.t -> Patient.t -> Z) -> list Patient.t -> list Patient.t)
    (cs : list command) :
  qsort_contract qsort ->
  let s := fst (run char_signed qsort cs init_state) in
  0 <= patientCount s <= MAX_PATIENTS /\ length (patients s) = 500%nat /\
  0 <= diseaseCount s <= MAX_DISEASES /\ length (diseases s) = 200%nat /\
  0 <= doctorCount s <= MAX_DOCTORS /\ length (doctors s) = 100%nat /\
  0 <= appointmentCount s <= MAX_APPOINTS /\ length (appointments s) = 1000%nat.
Proof.
  intros Hq s.
  destruct (run_in_bounds char_signed qsort cs init_state Hq init_state_in_bounds)
    as (Hlp & Hls & Hld & Hla & Hcp & Hcs & Hcd & Hca).
  subst s. split_and!;
    first [lia | exact Hlp | exact Hls | exact Hld | exact Hla].
Qed.

Lemma counts_stay_in_bounds_witness :
  let s := fst (run true merge_qsort fill_commands init_state) in
  0 <= patientCount s <= MAX_PATIENTS /\ length (patients s) = 500%nat /\
  0 <= diseaseCount s <= MAX_DISEASES /\ length (diseases s) = 200%nat /\
  0 <= doctorCount s <= MAX_DOCTORS /\ length (doctors s) = 100%nat /\
  0 <= appointmentCount s <= MAX_APPOINTS /\ length (appointments s) = 1000%nat.
Proof.
  exact (counts_stay_in_bounds true merge_qsort fill_commands merge_qsort_contract).
Defined.

(** ** Patient and appointment ids are never reused *)

Lemma NoDup_fmap_remove {A B : Type} (f : A -> B) (l : list A) (i : nat) :
  NoDup (map f l) -> NoDup (map f (take i l ++ drop (S i) l)).
Proof.
  intros Hnd. rewrite <- delete_take_drop.
  eapply sublist_NoDup; [exact Hnd|].
  apply (fmap_sublist f), sublist_delete.
Qed.

Lemma NoDup_fmap_snoc {A : Type} (f : A -> Z) (l : list A) (x : A) (bound : Z) :
  Forall (fun y => f y < bound) l -> bound <= f x ->
  NoDup (map f l) -> NoDup (map f (l ++ [x])).
Proof.
  intros Hl Hx Hnd. rewrite map_app. apply NoDup_app. split_and!; [done| |].
  - intros y Hy Hin. apply list_elem_of_fmap in Hy as (z & -> & Hz).
    rewrite Forall_forall in Hl. apply Hl in Hz.
    apply list_elem_of_singleton in Hin. simpl in Hin. lia.
  - apply NoDup_singleton.
Qed.

Lemma wrap_int_succ (z : Z) : INT_MIN <= z -> z < INT_MAX -> wrap_int (z + 1) = z + 1.
Proof.
  unfold wrap_int, INT_MIN, INT_MAX. intros. rewrite Z.mod_small; lia.
Qed.

Ltac ids_goals :=
  unfold distinct_ids, live_patients, live_appointments; state_simpl; split_and!.

Lemma dispatch_distinct_ids char_signed qsort (c : command) (s : state) :
  qsort_contract qsort -> in_bounds s ->
  nextPatientId s < INT_MAX -> nextAppointmentId s < INT_MAX ->
  distinct_ids s ->
  distinct_ids (fst (dispatch char_signed qsort c s)) /\
  nextPatientId (fst (dispatch char_signed qsort c s)) <= nextPatientId s + 1 /\
  nextAppointmentId (fst (dispatch char_signed qsort c s)) <= nextAppointmentId s + 1.
Proof.
  intros Hq (Hlp & _ & _ & Hla & Hcp & _ & _ & Hca) Hnp Hna.
  intros Hids. pose proof Hids as (Hp1 & Hpr & Hpn & Ha1 & Har & Han).
  unfold live_patients, live_appointments in Hpr, Hpn, Har, Han.
  assert (Hmin : INT_MIN <= 1) by (unfold INT_MIN; lia).
  destruct c as [name age gender phone disease docId | q | id confirm |
                 | name specialization phone | name symptoms treatment
                 | pid did date time | | id confirm]; cbn [dispatch].
  - unfold addPatient.
    destruct (MAX_PATIENTS <=? patientCount s) eqn:Hfull; [split_and!; [done | cbn [fst]; lia..]|].
    cbn zeta. case_match. state_simpl. rewrite wrap_int_succ by lia.
    split; [|lia].
    ids_goals; try done; try lia;
      rewrite take_insert_next by (rewrite ?Hlp; unfold MAX_PATIENTS in *; lia).
    + apply Forall_app. split.
      * eapply Forall_impl; [exact Hpr|]. intros p Hp. cbn in Hp. lia.
      * apply Forall_singleton. cbn. lia.
    + eapply NoDup_fmap_snoc; [| |done].
      * eapply Forall_impl; [exact Hpr|]. intros p Hp. cbn in Hp. apply Hp.
      * cbn. lia.
  - unfold searchPatientByName. split_and!; [done | cbn [fst]; lia..].
  - unfold deletePatient.
    destruct (id <=? 0); [split_and!; [done | cbn [fst]; lia..]|].
    destruct (findPatientIndex s id) as [i|] eqn:Hi; [|split_and!; [done | cbn [fst]; lia..]].
    destruct (confirmed _); [|split_and!; [done | cbn [fst]; lia..]].
    apply findPatientIndex_Some in Hi as (p & Hp & _ & Hlt & _).
    state_simpl. split; [|lia].
    ids_goals; try done.
    + apply shift_left_wf; [rewrite Hlp; unfold MAX_PATIENTS in *; lia | done | done].
    + rewrite shift_left_live by (rewrite ?Hlp; unfold MAX_PATIENTS in *; lia).
      replace (take i (patients s))
        with (take i (take (Z.to_nat (patientCount s)) (patients s)))
        by (rewrite take_take; f_equal; lia).
      by apply NoDup_fmap_remove.
  - unfold sortPatientsByName.
    destruct (patientCount s <? 2); [split_and!; [done | cbn [fst]; lia..]|].
    destruct (Hq (comparePatientsByName char_signed)
                 (take (Z.to_nat (patientCount s)) (patients s))
                 (comparePatientsByName_consistent char_signed)) as [Hperm _].
    state_simpl. split; [|lia].
    ids_goals; try done;
      rewrite take_app_length'
        by (rewrite (Permutation_length Hperm), length_take, Hlp;
            unfold MAX_PATIENTS in *; lia).
    + by rewrite Hperm.
    + by rewrite Hperm.
  - unfold addDoctor.
    destruct (MAX_DOCTORS <=? doctorCount s); split_and!; try done; state_simpl; lia.
  - unfold addDisease.
    destruct (MAX_DISEASES <=? diseaseCount s); split_and!; try done; state_simpl; lia.
  - unfold addAppointment.
    destruct (MAX_APPOINTS <=? appointmentCount s) eqn:Hfull; [split_and!; [done | cbn [fst]; lia..]|].
    destruct ((patientCount s =? 0) || (doctorCount s =? 0)); [split_and!; [done | cbn [fst]; lia..]|].
    destruct (findPatientIndex s pid) as [pi|] eqn:Hpi; [|split_and!; [done | cbn [fst]; lia..]].
    destruct (findDoctorIndex s did) as [di|] eqn:Hdi; [|split_and!; [done | cbn [fst]; lia..]].
    apply findPatientIndex_Some in Hpi as (p & Hp & _ & Hlt & Hlive).
    state_simpl. rewrite (list_lookup_total_correct _ _ _ Hp).
    rewrite wrap_int_succ by lia.
    assert (Hrange : Forall (fun a => 1 <= Appointment.id a < nextAppointmentId s + 1)
                       (take (Z.to_nat (appointmentCount s + 1))
                          (<[Z.to_nat (appointmentCount s) :=
                               Appointment.mk (nextAppointmentId s) pid did
                                 (getLine 20 date) (getLine 10 time)]> (appointments s)))).
    { rewrite take_insert_next by (rewrite ?Hla; unfold MAX_APPOINTS in *; lia).
      apply Forall_app. split.
      - eapply Forall_impl; [exact Har|]. intros a Ha. cbn in Ha. lia.
      - apply Forall_singleton. cbn. lia. }
    assert (Hnodup : NoDup (map Appointment.id
                       (take (Z.to_nat (appointmentCount s + 1))
                          (<[Z.to_nat (appointmentCount s) :=
                               Appointment.mk (nextAppointmentId s) pid did
                                 (getLine 20 date) (getLine 10 time)]> (appointments s))))).
    { rewrite take_insert_next by (rewrite ?Hla; unfold MAX_APPOINTS in *; lia).
      eapply NoDup_fmap_snoc; [| |done].
      - eapply Forall_impl; [exact Har|]. intros a Ha. cbn in Ha. apply Ha.
      - cbn. lia. }
    destruct (Patient.doctorId p =? 0); state_simpl; (split; [|lia]);
      ids_goals; try done; try lia.
    + rewrite take_insert_lt by lia. apply Forall_insert; [done|].
      rewrite Forall_forall in Hpr. cbn.
      apply (Hpr p). by apply (list_elem_of_lookup_2 _ pi).
    + rewrite take_insert_lt by lia.
      change (@map Patient.t Z) with (@fmap list _ Patient.t Z).
      rewrite list_fmap_insert. cbn.
      rewrite list_insert_id; [done|].
      unfold live_patients in Hlive. rewrite list_lookup_fmap, Hlive. done.
  - unfold displayAppointments. split_and!; [done | cbn [fst]; lia..].
  - unfold cancelAppointment.
    destruct (id <=? 0); [split_and!; [done | cbn [fst]; lia..]|].
    destruct (findAppointmentIndex s id) as [i|] eqn:Hi; [|split_and!; [done | cbn [fst]; lia..]].
    destruct (confirmed _); [|split_and!; [done | cbn [fst]; lia..]].
    apply find_index_Some in Hi as (a & Ha & _).
    apply lookup_take_Some_inv in Ha as [Ha Hlt].
    state_simpl. split; [|lia].
    ids_goals; try done.
    + apply shift_left_wf; [rewrite Hla; unfold MAX_APPOINTS in *; lia | lia | done].
    + rewrite shift_left_live by (rewrite ?Hla; unfold MAX_APPOINTS in *; lia).
      replace (take i (appointments s))
        with (take i (take (Z.to_nat (appointmentCount s)) (appointments s)))
        by (rewrite take_take; f_equal; lia).
      by apply NoDup_fmap_remove.
Qed.

Lemma run_distinct_ids char_signed qsort (cs : list command) :
  forall s,
    qsort_contract qsort -> in_bounds s -> distinct_ids s ->
    nextPatientId s + Z.of_nat (length cs) <= INT_MAX ->
    nextAppointmentId s + Z.of_nat (length cs) <= INT_MAX ->
    distinct_ids (fst (run char_signed qsort cs s)).
Proof.
  induction cs as [|c cs IH]; intros s Hq Hb Hids Hp Ha; [done|].
  cbn [length] in Hp, Ha. simpl.
  pose proof (dispatch_in_bounds char_signed qsort c s Hq Hb) as Hb1.
  destruct (dispatch_distinct_ids char_signed qsort c s Hq Hb) as (Hids1 & Hp1 & Ha1);
    [lia | lia | done |].
  destruct (dispatch char_signed qsort c s) as [s1 o]. cbn [fst] in *.
  specialize (IH s1 Hq Hb1 Hids1).
  destruct (run char_signed qsort cs s1). apply IH; lia.
Qed.

Lemma init_state_distinct_ids : distinct_ids init_state.
Proof.
  unfold distinct_ids. split_and!; try (cbn; lia);
    first [apply Forall_nil_2 | apply NoDup_nil_2].
Qed.

Section Issued.

Variable char_signed : bool.
Variable qsort : (Patient.t -> Patient.t -> Z) -> list Patient.t -> list Patient.t.

(** One identifier counter and the reports that hand out its values. *)
Variable next : state -> Z.
Variable issued : outcome -> option Z.

Hypothesis dispatch_next :
  forall c s,
    match issued (snd (dispatch char_signed qsort c s)) with
    | Some id =>
        id = next s /\ next (fst (dispatch char_signed qsort c s)) = wrap_int (id + 1)
    | None => next (fst (dispatch char_signed qsort c s)) = next s
    end.

(** The counter stands at its start plus the number of ids handed out. *)
Lemma run_next (cs : list command) :
  forall s,
    INT_MIN <= next s -> next s + Z.of_nat (length cs) <= INT_MAX ->
    (length (omap issued (snd (run char_signed qsort cs s))) <= length cs)%nat /\
    next (fst (run char_signed qsort cs s))
    = next s + Z.of_nat (length (omap issued (snd (run char_signed qsort cs s)))).
Proof.
  induction cs as [|c cs IH]; intros s Hlo Hhi; [cbn; split; lia|].
  cbn [length] in Hhi. simpl. pose proof (dispatch_next c s) as Hc.
  destruct (dispatch char_signed qsort c s) as [s1 o].
  specialize (IH s1).
  destruct (run char_signed qsort cs s1) as [s2 os].
  cbn [fst snd] in *. cbn [omap list_omap].
  destruct (issued o) as [id|].
  - destruct Hc as [-> Hnext]. cbn [length].
    assert (Hw : wrap_int (next s + 1) = next s + 1).
    { unfold wrap_int, INT_MIN, INT_MAX in *.
      rewrite Z.mod_small; lia. }
    rewrite Hw in Hnext. rewrite Hnext in IH.
    destruct IH as [IH1 IH2]; lia.
  - rewrite Hc in IH. destruct IH as [IH1 IH2]; lia.
Qed.

End Issued.

Lemma NoDup_first_ids (n : nat) : NoDup (first_ids n).
Proof.
  unfold first_ids. apply (NoDup_fmap_2 Z.of_nat), NoDup_seq.
Qed.

(** X4. From the empty database, over any sequence of fewer than
    [INT_MAX] commands, adds and deletes in any order and number: the ids
    reported by the successful patient adds of the whole run are
    pairwise distinct, so an id handed out once is never handed out
    again, not even after its record was deleted; the live patients
    carry pairwise distinct ids, each of them one of the ids handed out
    and below the next-patient-id counter.  The same holds for the
    appointments. *)
Theorem ids_never_reused (char_signed : bool)
    (qsort : (Patient.t -> Patient.t -> Z) -> list Patient.t -> list Patient.t)
    (cs : list command) :
  qsort_contract qsort -> Z.of_nat (length cs) < INT_MAX ->
  let s := fst (run char_signed qsort cs init_state) in
  let os := snd (run char_signed qsort cs init_state) in
  NoDup (patient_ids os) /\
  NoDup (map Patient.id (live_patients s)) /\
  (forall p, p ∈ live_patients s ->
     Patient.id p ∈ patient_ids os /\ 1 <= Patient.id p < nextPatientId s) /\
  NoDup (appointment_ids os) /\
  NoDup (map Appointment.id (live_appointments s)) /\
  (forall a, a ∈ live_appointments s ->
     Appointment.id a ∈ appointment_ids os /\
     1 <= Appointment.id a < nextAppointmentId s).
Proof.
  intros Hq Hlen s os. subst s os.
  destruct (run_distinct_ids char_signed qsort cs init_state Hq
              init_state_in_bounds init_state_distinct_ids)
    as (_ & Hpr & Hpn & _ & Har & Han); [cbn; lia | cbn; lia |].
  rewrite Forall_forall in Hpr. rewrite Forall_forall in Har.
  destruct (run_next char_signed qsort nextPatientId
                (fun o => match o with PatientAdded id _ => Some id | _ => None end)
              (dispatch_nextPatientId char_signed qsort) cs init_state)
    as [Hpl Hpnext]; [vm_compute; discriminate | cbn; lia |].
  destruct (run_next char_signed qsort nextAppointmentId
                (fun o => match o with AppointmentScheduled id _ => Some id | _ => None end)
              (dispatch_nextAppointmentId char_signed qsort) cs init_state)
    as [Hal Hanext]; [vm_compute; discriminate | cbn; lia |].
  pose proof (run_issued char_signed qsort nextPatientId
                (fun o => match o with PatientAdded id _ => Some id | _ => None end)
                (dispatch_nextPatientId char_signed qsort) cs init_state) as Hpi.
  pose proof (run_issued char_signed qsort nextAppointmentId
                (fun o => match o with AppointmentScheduled id _ => Some id | _ => None end)
                (dispatch_nextAppointmentId char_signed qsort) cs init_state) as Hai.
  fold (patient_ids (snd (run char_signed qsort cs init_state))) in Hpl, Hpnext, Hpi.
  fold (appointment_ids (snd (run char_signed qsort cs init_state))) in Hal, Hanext, Hai.
  change (nextPatientId init_state) with 1 in Hpnext, Hpi.
  change (nextAppointmentId init_state) with 1 in Hanext, Hai.
  rewrite <- first_ids_count_from in Hpi, Hai.
  specialize (Hpi ltac:(unfold INT_MIN; lia) ltac:(lia)).
  specialize (Hai ltac:(unfold INT_MIN; lia) ltac:(lia)).
  rewrite Hpi, Hai. clear Hpi Hai.
  split_and!.
  - apply NoDup_first_ids.
  - done.
  - intros p Hp. specialize (Hpr p Hp). split; [|done].
    apply elem_of_first_ids. lia.
  - apply NoDup_first_ids.
  - done.
  - intros a Ha. specialize (Har a Ha). split; [|done].
    apply elem_of_first_ids. lia.
Qed.

Lemma ids_never_reused_witness :
  let s := fst (run true merge_qsort busy_session init_state) in
  let os := snd (run true merge_qsort busy_session init_state) in
  NoDup (patient_ids os) /\
  NoDup (map Patient.id (live_patients s)) /\
  (forall p, p ∈ live_patients s ->
     Patient.id p ∈ patient_ids os /\ 1 <= Patient.id p < nextPatientId s) /\
  NoDup (appointment_ids os) /\
  NoDup (map Appointment.id (live_appointments s)) /\
  (forall a, a ∈ live_appointments s ->
     Appointment.id a ∈ appointment_ids os /\
     1 <= Appointment.id a < nextAppointmentId s).
Proof.
  exact (ids_never_reused true merge_qsort busy_session merge_qsort_contract eq_refl).
Defined.

(** ** Looking a patient up by id *)

(** With distinct ids the lookup by id finds the one live record that
    carries the id. *)
Lemma patient_with_id_Some (s : state) (id : Z) (p : Patient.t) :
  NoDup (map Patient.id (live_patients s)) ->
  patient_with_id s id = Some p <-> p ∈ live_patients s /\ Patient.id p = id.
Proof.
  intros Hnd. unfold patient_with_id. split.
  - destruct (findPatientIndex s id) as [i|] eqn:Hi; [|done].
    apply findPatientIndex_Some in Hi as (p' & Hp' & Hid & _ & Hlive).
    cbn. rewrite (list_lookup_total_correct _ _ _ Hp'). intros [= <-].
    split; [|done]. by apply (list_elem_of_lookup_2 _ i).
  - intros [Hin Hid].
    destruct (find_index_elem (fun q => Patient.id q = id) _ p Hin Hid) as [i Hi].
    change (findPatientIndex s id = Some i) in Hi. rewrite Hi. cbn. f_equal.
    apply findPatientIndex_Some in Hi as (p' & Hp' & Hid' & _ & Hlive).
    rewrite (list_lookup_total_correct _ _ _ Hp').
    apply list_elem_of_lookup in Hin as [j Hj].
    assert (i = j) as ->; [|congruence].
    eapply NoDup_lookup; [exact Hnd| |].
    + change (@map Patient.t Z) with (@fmap list _ Patient.t Z).
      rewrite list_lookup_fmap, Hlive. cbn. by rewrite Hid'.
    + change (@map Patient.t Z) with (@fmap list _ Patient.t Z).
      rewrite list_lookup_fmap, Hj. cbn. by rewrite Hid.
Qed.

Lemma patient_with_id_ext (s1 s2 : state) (id : Z) :
  NoDup (map Patient.id (live_patients s1)) ->
  NoDup (map Patient.id (live_patients s2)) ->
  (forall p, Patient.id p = id -> p ∈ live_patients s1 <-> p ∈ live_patients s2) ->
  patient_with_id s1 id = patient_with_id s2 id.
Proof.
  intros H1 H2 Hiff.
  destruct (patient_with_id s1 id) as [p|] eqn:E1.
  - apply patient_with_id_Some in E1 as [Hin Hid]; [|done].
    symmetry. apply patient_with_id_Some; [done|]. split; [|done]. by apply Hiff.
  - destruct (patient_with_id s2 id) as [p|] eqn:E2; [|done].
    apply patient_with_id_Some in E2 as [Hin Hid]; [|done].
    assert (patient_with_id s1 id = Some p) as E; [|congruence].
    apply patient_with_id_Some; [done|]. split; [|done]. by apply Hiff.
Qed.

Lemma c_take_c_take (n m : nat) (s : string) :
  (n <= m)%nat -> c_take n (c_take m s) = c_take n s.
Proof.
  revert m s. induction n as [|n IH]; intros [|m] [|c s] Hle; simpl; try done; try lia.
  destruct (char_code c =? 0) eqn:Ec; [done|].
  simpl. rewrite Ec, IH; [done|lia].
Qed.

(** X5. In a state whose live patient ids are distinct and below the
    counter, a successful [addPatient] can be read back: the id it
    reports looks up a record with that id, the age given and the first
    99 characters of the name typed, while every other id looks up what
    it looked up before. *)
Theorem addPatient_then_lookup (s : state) (name : string) (age : Z)
    (gender phone disease : string) (docId id : Z) (notice : assignment) :
  in_bounds s -> distinct_ids s ->
  snd (addPatient s name age gender phone disease docId) = PatientAdded id notice ->
  let s' := fst (addPatient s name age gender phone disease docId) in
  (exists p, patient_with_id s' id = Some p /\
             Patient.id p = id /\ Patient.age p = age /\
             Patient.name p = c_take 99 name) /\
  (forall j, j <> id -> patient_with_id s' j = patient_with_id s j).
Proof.
  intros (Hlp & _ & _ & _ & Hcp & _) (_ & Hpr & Hpn & _) Hout s'. subst s'.
  revert Hout. unfold addPatient.
  destruct (MAX_PATIENTS <=? patientCount s) eqn:Hfull; [done|].
  cbn zeta. case_match. cbn [snd fst]. intros [= <- _].
  set (p := Patient.mk (nextPatientId s) _ age _ _ _ _).
  assert (Hlive : live_patients
                    (set_patientCount (patientCount s + 1)
                       (set_patients (<[Z.to_nat (patientCount s) := p]> (patients s))
                          (set_nextPatientId (wrap_int (nextPatientId s + 1)) s)))
                  = live_patients s ++ [p]).
  { unfold live_patients. state_simpl.
    apply take_insert_next; [lia|]. rewrite Hlp. unfold MAX_PATIENTS in *. lia. }
  state_simpl.
  assert (Hnd' : NoDup (map Patient.id (live_patients s ++ [p]))).
  { eapply NoDup_fmap_snoc; [| |done].
    - eapply Forall_impl; [exact Hpr|]. intros q Hq. cbn in Hq. apply Hq.
    - cbn. lia. }
  split.
  - exists p. split_and!; try done.
    + apply patient_with_id_Some; rewrite Hlive; [done|].
      split; [|done]. apply elem_of_app. right. by apply list_elem_of_singleton.
    + subst p. cbn [Patient.name]. unfold strncpy_buf, getLine.
      apply c_take_c_take. lia.
  - intros j Hj. apply patient_with_id_ext; rewrite ?Hlive; try done.
    intros q Hq. rewrite elem_of_app, list_elem_of_singleton.
    split; [|by left]. intros [Hin | ->]; [done|]. by destruct Hj.
Qed.

Lemma ward_distinct_ids : distinct_ids ward.
Proof.
  unfold distinct_ids. split_and!.
  - by vm_compute.
  - repeat constructor; vm_compute; congruence.
  - vm_compute.
    repeat (constructor; [rewrite ?elem_of_cons, ?elem_of_nil; lia|]). constructor.
  - by vm_compute.
  - apply Forall_nil_2.
  - apply NoDup_nil_2.
Qed.

Lemma addPatient_then_lookup_witness :
  let s' := fst (addPatient ward "Dora" 27 "F" "555-0114" "Asthma" 0) in
  (exists p, patient_with_id s' 4 = Some p /\
             Patient.id p = 4 /\ Patient.age p = 27 /\ Patient.name p = "Dora"%string) /\
  (forall j, j <> 4 -> patient_with_id s' j = patient_with_id ward j).
Proof.
  exact (addPatient_then_lookup ward "Dora" 27 "F" "555-0114" "Asthma" 0 4 NoDoctorsInSystem
           ward_in_bounds ward_distinct_ids eq_refl).
Defined.

Lemma searchPatientById_lookup (s : state) (id : Z) :
  searchPatientById s id =
    if id <=? 0 then PatientInvalidId
    else match patient_with_id s id with
         | Some p =>
             PatientFound p
               (if negb (Patient.doctorId p =? 0) then
                  match findDoctorIndex s (Patient.doctorId p) with
                  | Some j => DoctorNamed (Doctor.name (doctors s !!! j))
                                          (Doctor.id (doctors s !!! j))
                  | None => DoctorUnknown (Patient.doctorId p)
                  end
                else DoctorNotAssigned)
         | None => PatientNotFound id
         end.
Proof.
  unfold searchPatientById, patient_with_id.
  destruct (id <=? 0); [done|]. by destruct (findPatientIndex s id).
Qed.

(** The live records after a confirmed delete, as a permutation. *)
Lemma deletePatient_live (s : state) (id : Z) (confirm : string) (p : Patient.t) :
  in_bounds s -> 0 < id -> confirmed (getLine 10 confirm) = true ->
  patient_with_id s id = Some p ->
  exists l1 l2,
    live_patients s = l1 ++ p :: l2 /\
    live_patients (fst (deletePatient s id confirm)) = l1 ++ l2 /\
    doctors (fst (deletePatient s id confirm)) = doctors s /\
    doctorCount (fst (deletePatient s id confirm)) = doctorCount s.
Proof.
  intros (Hlp & _ & _ & _ & Hcp & _) Hid Hyes Hp.
  unfold patient_with_id in Hp.
  destruct (findPatientIndex s id) as [i|] eqn:Hi; [|done].
  pose proof Hi as Hi'.
  apply findPatientIndex_Some in Hi' as (p' & Hp' & _ & Hlt & Hlive).
  cbn in Hp. rewrite (list_lookup_total_correct _ _ _ Hp') in Hp. injection Hp as ->.
  exists (take i (live_patients s)), (drop (S i) (live_patients s)).
  split; [by rewrite take_drop_middle|].
  unfold deletePatient. destruct (id <=? 0) eqn:Hneg; [lia|].
  rewrite Hi, Hyes. cbn [fst]. split; [|done].
  unfold live_patients at 1. state_simpl.
  rewrite shift_left_live by (rewrite ?Hlp; unfold MAX_PATIENTS in *; lia).
  unfold live_patients. rewrite take_take. do 2 f_equal. lia.
Qed.

(** X6. In a state with distinct live patient ids, once a patient is
    deleted (positive id, present, confirmed) its id looks up nothing
    and [searchPatientById] reports it as not found, while every other
    id still looks up the record it looked up before. *)
Theorem deletePatient_then_lookup (s : state) (id : Z) (confirm : string)
    (p : Patient.t) :
  in_bounds s -> NoDup (map Patient.id (live_patients s)) ->
  0 < id -> confirmed (getLine 10 confirm) = true ->
  patient_with_id s id = Some p ->
  let s' := fst (deletePatient s id confirm) in
  patient_with_id s' id = None /\
  searchPatientById s' id = PatientNotFound id /\
  (forall j, j <> id -> patient_with_id s' j = patient_with_id s j) /\
  (forall j, j <> id -> searchPatientById s' j = searchPatientById s j).
Proof.
  intros Hb Hnd Hid Hyes Hp s'.
  destruct (deletePatient_live s id confirm p Hb Hid Hyes Hp)
    as (l1 & l2 & Hl & Hl' & Hdocs & Hdc).
  fold s' in Hl', Hdocs, Hdc.
  pose proof (proj1 (patient_with_id_Some s id p Hnd) Hp) as [_ Hpid].
  assert (Hperm : live_patients s ≡ₚ p :: live_patients s').
  { rewrite Hl, Hl'. by rewrite Permutation_middle. }
  assert (Hnd' : NoDup (map Patient.id (live_patients s'))).
  { rewrite Hperm in Hnd. cbn in Hnd. by apply NoDup_cons in Hnd as [_ ?]. }
  assert (Hgone : patient_with_id s' id = None).
  { destruct (patient_with_id s' id) as [q|] eqn:Eq; [|done].
    apply patient_with_id_Some in Eq as [Hin Hq]; [|done].
    rewrite Hperm in Hnd. cbn in Hnd. apply NoDup_cons in Hnd as [Hnotin _].
    destruct Hnotin. rewrite Hpid, <- Hq. apply list_elem_of_fmap. eauto. }
  assert (Hother : forall j, j <> id -> patient_with_id s' j = patient_with_id s j).
  { intros j Hj. apply patient_with_id_ext; try done.
    intros q Hq. rewrite Hperm, elem_of_cons.
    split; [by right|]. intros [-> | Hin]; [|done]. congruence. }
  split_and!; try done.
  - rewrite searchPatientById_lookup, Hgone.
    destruct (id <=? 0) eqn:E; [lia | done].
  - intros j Hj. rewrite !searchPatientById_lookup, (Hother j Hj).
    unfold findDoctorIndex, live_doctors. by rewrite Hdocs, Hdc.
Qed.

Lemma deletePatient_then_lookup_witness :
  let s' := fst (deletePatient ward 2 "y") in
  patient_with_id s' 2 = None /\
  searchPatientById s' 2 = PatientNotFound 2 /\
  (forall j, j <> 2 -> patient_with_id s' j = patient_with_id ward j) /\
  (forall j, j <> 2 -> searchPatientById s' j = searchPatientById ward j).
Proof.
  destruct ward_distinct_ids as (_ & _ & Hnd & _).
  exact (deletePatient_then_lookup ward 2 "y"
           (Patient.mk 2 "alice" 34 "F" "555-0112" "Migraine" 0)
           ward_in_bounds Hnd eq_refl eq_refl eq_refl).
Defined.

(** X7. Sorting changes positions only: with a [qsort] that honours the
    C standard and distinct live patient ids, every id looks up the same
    record after [sortPatientsByName] as before, and [searchPatientById]
    reports the same. *)
Theorem sort_preserves_lookup (char_signed : bool)
    (qsort : (Patient.t -> Patient.t -> Z) -> list Patient.t -> list Patient.t)
    (s : state) (id : Z) :
  qsort_contract qsort -> in_bounds s ->
  NoDup (map Patient.id (live_patients s)) ->
  let s' := fst (sortPatientsByName char_signed qsort s) in
  patient_with_id s' id = patient_with_id s id /\
  searchPatientById s' id = searchPatientById s id.
Proof.
  intros Hq (Hlp & _ & _ & _ & Hcp & _) Hnd s'. subst s'.
  unfold sortPatientsByName.
  destruct (patientCount s <? 2); [done|]. cbn [fst].
  destruct (Hq (comparePatientsByName char_signed)
               (take (Z.to_nat (patientCount s)) (patients s))
               (comparePatientsByName_consistent char_signed)) as [Hperm _].
  set (s' := set_patients _ s).
  assert (Hlive : live_patients s' ≡ₚ live_patients s).
  { unfold live_patients. subst s'. state_simpl.
    rewrite take_app_length'; [done|].
    rewrite (Permutation_length Hperm), length_take, Hlp.
    unfold MAX_PATIENTS in *. lia. }
  assert (Hsame : patient_with_id s' id = patient_with_id s id).
  { apply patient_with_id_ext; try done.
    - by rewrite Hlive.
    - intros p _. by rewrite Hlive. }
  split; [done|].
  by rewrite !searchPatientById_lookup, Hsame.
Qed.

Lemma sort_preserves_lookup_witness :
  let s' := fst (sortPatientsByName true merge_qsort ward) in
  patient_with_id s' 1 = patient_with_id ward 1 /\
  searchPatientById s' 1 = searchPatientById ward 1.
Proof.
  destruct ward_distinct_ids as (_ & _ & Hnd & _).
  exact (sort_preserves_lookup true merge_qsort ward 1
           merge_qsort_contract ward_in_bounds Hnd).
Defined.

(** X8. [searchPatientById] finds exactly the live patients: when the
    live ids are distinct and positive, every live patient is found
    under its own id, and whatever the state a patient reported as found
    is a live record carrying the positive id asked for. *)
Theorem searchPatientById_finds (s : state) :
  (distinct_ids s ->
   forall p, p ∈ live_patients s ->
     exists doctor, searchPatientById s (Patient.id p) = PatientFound p doctor) /\
  (forall id p doctor,
     searchPatientById s id = PatientFound p doctor ->
     0 < id /\ p ∈ live_patients s /\ Patient.id p = id).
Proof.
  split.
  - intros (_ & Hpr & Hnd & _) p Hin.
    rewrite Forall_forall in Hpr. pose proof (Hpr p Hin) as Hrange.
    rewrite searchPatientById_lookup.
    destruct (Patient.id p <=? 0) eqn:E; [lia|].
    rewrite (proj2 (patient_with_id_Some s (Patient.id p) p Hnd)) by done.
    eauto.
  - intros id p doctor. unfold searchPatientById.
    destruct (id <=? 0) eqn:E; [done|].
    destruct (findPatientIndex s id) as [i|] eqn:Hi; [|done].
    apply findPatientIndex_Some in Hi as (p' & Hp' & Hid & _ & Hlive).
    rewrite (list_lookup_total_correct _ _ _ Hp'). intros [= <- _].
    split_and!; [lia | by apply (list_elem_of_lookup_2 _ i) | done].
Qed.

Lemma searchPatientById_finds_witness :
  exists doctor,
    searchPatientById ward 2 =
      PatientFound (Patient.mk 2 "alice" 34 "F" "555-0112" "Migraine" 0) doctor.
Proof.
  refine (proj1 (searchPatientById_finds ward) ward_distinct_ids
            (Patient.mk 2 "alice" 34 "F" "555-0112" "Migraine" 0) _).
  apply (list_elem_of_lookup_2 _ 1%nat). reflexivity.
Defined.

(** ** Listings show the doctor on record *)

Lemma findDoctorIndex_live (s : state) (id : Z) (j : nat) :
  findDoctorIndex s id = Some j ->
  doctors s !!! j ∈ live_doctors s /\ Doctor.id (doctors s !!! j) = id.
Proof.
  intros Hj. apply find_index_Some in Hj as (d & Hd & Hid & _).
  pose proof Hd as Hd'. apply lookup_take_Some_inv in Hd' as [Hd' _].
  rewrite (list_lookup_total_correct _ _ _ Hd').
  split; [by apply (list_elem_of_lookup_2 _ j) | done].
Qed.

Lemma patient_with_id_elem (s : state) (id : Z) (p : Patient.t) :
  patient_with_id s id = Some p -> p ∈ live_patients s /\ Patient.id p = id.
Proof.
  unfold patient_with_id.
  destruct (findPatientIndex s id) as [i|] eqn:Hi; [|done].
  apply findPatientIndex_Some in Hi as (p' & Hp' & Hid & _ & Hlive).
  cbn. rewrite (list_lookup_total_correct _ _ _ Hp'). intros [= <-].
  split; [|done]. by apply (list_elem_of_lookup_2 _ i).
Qed.

(** The content of the reference invariant in terms of the finder. *)
Lemma reachable_doctor_resolves (char_signed : bool)
    (qsort : (Patient.t -> Patient.t -> Z) -> list Patient.t -> list Patient.t)
    (s : state) :
  qsort_contract qsort -> reachable char_signed qsort s ->
  (forall a, a ∈ live_appointments s ->
     is_Some (findDoctorIndex s (Appointment.doctorId a))) /\
  (forall p, p ∈ live_patients s ->
     Patient.doctorId p = 0 \/ is_Some (findDoctorIndex s (Patient.doctorId p))).
Proof.
  intros Hq Hs.
  pose proof (reachable_dense_ids _ _ _ Hq Hs) as Hd.
  pose proof (reachable_wf _ _ _ Hq Hs) as ((_ & _ & _ & _ & _ & _ & Hcd & _) & _).
  destruct (reachable_references_ok _ _ _ Hq Hs) as [Hrp Hra].
  rewrite Forall_forall in Hrp. rewrite Forall_forall in Hra.
  split.
  - intros a Ha. apply is_Some_findDoctorIndex; [lia | done | by apply Hra].
  - intros p Hp. destruct (Hrp p Hp) as [E|E]; [by left|right].
    apply is_Some_findDoctorIndex; [lia | done | done].
Qed.

(** X9. In every reachable state the listings never show a dangling
    doctor: [viewPatients] and [searchPatientById] show, for a patient
    with a doctor, the name of the registered doctor with that id (and
    "Not Assigned" exactly for the patients with [doctorId] 0), and every
    entry of [displayAppointments] names the registered doctor of the
    appointment.  The "Unknown" doctor branches of the three functions
    are never taken. *)
Theorem listings_show_the_doctor (char_signed : bool)
    (qsort : (Patient.t -> Patient.t -> Z) -> list Patient.t -> list Patient.t)
    (s : state) :
  qsort_contract qsort -> reachable char_signed qsort s ->
  (forall rows p col,
     viewPatients s = PatientList rows -> (p, col) ∈ rows ->
     p ∈ live_patients s /\ doctor_line_right s p col) /\
  (forall id p col,
     searchPatientById s id = PatientFound p col -> doctor_line_right s p col) /\
  (forall rows r,
     snd (displayAppointments s) = AppointmentList rows -> r ∈ rows ->
     exists d, d ∈ live_doctors s /\ Doctor.id d = row_doctorId r /\
               row_doctor r = Doctor.name d).
Proof.
  intros Hq Hs.
  destruct (reachable_doctor_resolves char_signed qsort s Hq Hs) as [Hra Hrp].
  pose proof (reachable_wf _ _ _ Hq Hs) as (_ & _ & _ & _ & _ & _ & _ & Hwd & _).
  rewrite Forall_forall in Hwd.
  assert (Hcol : forall p, p ∈ live_patients s ->
            doctor_line_right s p
              (if negb (Patient.doctorId p =? 0) then
                 match findDoctorIndex s (Patient.doctorId p) with
                 | Some j => DoctorNamed (Doctor.name (doctors s !!! j))
                                         (Doctor.id (doctors s !!! j))
                 | None => DoctorUnknown (Patient.doctorId p)
                 end
               else DoctorNotAssigned)).
  { intros p Hp. destruct (Z.eqb_spec (Patient.doctorId p) 0) as [E|E]; cbn [negb].
    - by left.
    - right. split; [done|]. destruct (Hrp p Hp) as [?|[j Hj]]; [done|]. rewrite Hj.
      apply findDoctorIndex_live in Hj as [Hin Hid].
      exists (doctors s !!! j). by rewrite Hid. }
  split_and!.
  - intros rows p col. unfold viewPatients.
    destruct (patientCount s =? 0); [done|]. intros [= <-] Hin.
    apply list_elem_of_fmap in Hin as (q & [= -> ->] & Hq').
    split; [done|].
    destruct (Z.eqb_spec (Patient.doctorId q) 0) as [E|E]; cbn [negb].
    + by left.
    + right. split; [done|]. destruct (Hrp q Hq') as [?|[j Hj]]; [done|]. rewrite Hj.
      apply findDoctorIndex_live in Hj as [Hin Hid].
      exists (doctors s !!! j). split_and!; try done.
      f_equal. apply (Hwd _ Hin).
  - intros id p col Hfound.
    rewrite searchPatientById_lookup in Hfound.
    destruct (id <=? 0); [done|].
    destruct (patient_with_id s id) as [p'|] eqn:Hp'; [|done].
    apply patient_with_id_elem in Hp' as [Hin _].
    injection Hfound as -> <-. by apply Hcol.
  - intros rows r. unfold displayAppointments. cbn [snd]. intros [= <-] Hin.
    apply list_elem_of_fmap in Hin as (a & -> & Ha). cbn [row_doctorId row_doctor].
    destruct (Hra a Ha) as [j Hj]. rewrite Hj.
    apply findDoctorIndex_live in Hj as [Hin Hid].
    exists (doctors s !!! j). split_and!; try done.
    apply (Hwd _ Hin).
Qed.

Lemma listings_show_the_doctor_witness :
  let s := fst (run true merge_qsort busy_session init_state) in
  (forall rows p col,
     viewPatients s = PatientList rows -> (p, col) ∈ rows ->
     p ∈ live_patients s /\ doctor_line_right s p col) /\
  (forall id p col,
     searchPatientById s id = PatientFound p col -> doctor_line_right s p col) /\
  (forall rows r,
     snd (displayAppointments s) = AppointmentList rows -> r ∈ rows ->
     exists d, d ∈ live_doctors s /\ Doctor.id d = row_doctorId r /\
               row_doctor r = Doctor.name d).
Proof.
  exact (listings_show_the_doctor true merge_qsort _
           merge_qsort_contract busy_session_reachable).
Defined.

(** ** The comparison of names *)

Lemma tolower_range (c : Z) : 0 <= c < 256 -> 0 <= tolower c < 256.
Proof. unfold tolower. case_match; lia. Qed.

Lemma tolower_idem (c : Z) : tolower (tolower c) = tolower c.
Proof. unfold tolower. repeat case_match; lia. Qed.

Lemma tolower_eq_0 (c : Z) : 0 <= c -> (tolower c =? 0) = (c =? 0).
Proof. unfold tolower. intros. repeat case_match; lia. Qed.

Lemma char_code_lower (c : ascii) :
  char_code (ascii_of_N (Z.to_N (tolower (char_code c)))) = tolower (char_code c).
Proof.
  pose proof (tolower_range _ (char_code_range c)).
  unfold char_code at 1. rewrite N_ascii_embedding by lia. lia.
Qed.

Lemma deref_lower (s : string) : deref (lower s) = tolower (deref s).
Proof. destruct s as [|c s]; [done|]. apply char_code_lower. Qed.

Lemma stricmp_custom_lower (char_signed : bool) (a b : string) :
  stricmp_custom char_signed (lower a) (lower b) = stricmp_custom char_signed a b.
Proof.
  revert b. induction a as [|x a IH]; intros [|y b];
    cbn [lower stricmp_custom deref]; rewrite ?char_code_lower, ?tolower_idem; try done.
  pose proof (char_code_range x). pose proof (char_code_range y).
  rewrite !tolower_eq_0 by lia. by rewrite IH.
Qed.

Lemma stricmp_custom_refl (char_signed : bool) (a : string) :
  stricmp_custom char_signed a a = 0.
Proof. by apply stricmp_custom_eq. Qed.

(** X10. [stricmp_custom] is blind to the case of ASCII letters: lower-
    casing either or both arguments never changes its result, a string
    compares equal to itself and to its lower-cased form, and two
    strings compare equal exactly when their lower-cased forms are the
    same up to the terminator. *)
Theorem stricmp_custom_ignores_case (char_signed : bool) (a b : string) :
  stricmp_custom char_signed (lower a) (lower b) = stricmp_custom char_signed a b /\
  stricmp_custom char_signed (lower a) b = stricmp_custom char_signed a b /\
  stricmp_custom char_signed a (lower b) = stricmp_custom char_signed a b /\
  stricmp_custom char_signed a a = 0 /\
  stricmp_custom char_signed (lower a) a = 0 /\
  (stricmp_custom char_signed a b = 0 <->
   c_take (String.length a) (lower a) = c_take (String.length b) (lower b)).
Proof.
  assert (Hll : forall s, lower (lower s) = lower s).
  { induction s as [|c s IH]; [done|]. cbn [lower].
    by rewrite char_code_lower, tolower_idem, IH. }
  split_and!.
  - apply stricmp_custom_lower.
  - by rewrite <- (stricmp_custom_lower _ (lower a) b), Hll, stricmp_custom_lower.
  - by rewrite <- (stricmp_custom_lower _ a (lower b)), Hll, stricmp_custom_lower.
  - apply stricmp_custom_refl.
  - rewrite <- (stricmp_custom_lower _ (lower a) a), Hll, stricmp_custom_lower.
    apply stricmp_custom_refl.
  - rewrite stricmp_custom_eq. unfold ci_eq.
    assert (Hkey : forall s k,
              ci_key char_signed s = k <->
              map (to_char char_signed) (string_bytes (c_take (String.length s) (lower s)))
              = k).
    { induction s as [|c s IH]; intros k; [done|].
      cbn [ci_key lower String.length c_take]. rewrite char_code_lower.
      pose proof (char_code_range c).
      rewrite tolower_eq_0 by lia.
      destruct (char_code c =? 0); [done|].
      cbn [string_bytes map]. rewrite char_code_lower.
      destruct k as [|z k]; [done|].
      split; intros [= <- E]; f_equal; by apply IH. }
    split.
    + intros E.
      assert (Hinj : forall s t,
                Forall (fun c => 0 <= c < 256) (string_bytes s) ->
                Forall (fun c => 0 <= c < 256) (string_bytes t) ->
                map (to_char char_signed) (string_bytes s)
                = map (to_char char_signed) (string_bytes t) -> s = t).
      { induction s as [|c s IH]; intros [|d t] Hs Ht; cbn [string_bytes map];
          try done.
        apply Forall_cons in Hs as [Hc Hs]. apply Forall_cons in Ht as [Hd Ht].
        intros [= E1 E2]. f_equal; [|by apply IH].
        assert (char_code c = char_code d) as Hcd.
        { unfold to_char in E1. destruct char_signed; cbn [andb] in E1;
            repeat case_match; lia. }
        rewrite <- (ascii_of_char_code c), <- (ascii_of_char_code d). by rewrite Hcd. }
      apply Hinj.
      * clear. generalize (c_take (String.length a) (lower a)).
        induction s as [|c s IH]; constructor; [apply char_code_range | done].
      * clear. generalize (c_take (String.length b) (lower b)).
        induction s as [|c s IH]; constructor; [apply char_code_range | done].
      * by apply (Hkey a), (eq_sym), (Hkey b) in E.
    + intros E. apply (Hkey a). rewrite E. by apply (Hkey b).
Qed.

(** X11. [stricmp_custom] is a sound comparison function for [qsort]:
    swapping the arguments flips the sign of the result, "not greater"
    is transitive, and any two strings are comparable; so is
    [comparePatientsByName], which hands it the two names. *)
Theorem stricmp_custom_total_preorder (char_signed : bool) :
  (forall a b, Z.sgn (stricmp_custom char_signed b a)
               = - Z.sgn (stricmp_custom char_signed a b)) /\
  (forall a b c, stricmp_custom char_signed a b <= 0 ->
                 stricmp_custom char_signed b c <= 0 ->
                 stricmp_custom char_signed a c <= 0) /\
  (forall a b, stricmp_custom char_signed a b <= 0 \/
               stricmp_custom char_signed b a <= 0) /\
  (forall a b c, stricmp_custom char_signed a b = 0 ->
                 stricmp_custom char_signed b c = 0 ->
                 stricmp_custom char_signed a c = 0) /\
  consistent (comparePatientsByName char_signed).
Proof.
  split_and!.
  - intros a b. apply stricmp_custom_swap.
  - intros a b c. rewrite !stricmp_custom_le. apply lex_leb_trans.
  - intros a b. rewrite !stricmp_custom_le. apply lex_leb_total.
  - intros a b c. rewrite !stricmp_custom_eq. unfold ci_eq. congruence.
  - apply comparePatientsByName_consistent.
Qed.

Lemma stricmp_custom_ignores_case_witness :
  stricmp_custom true "Bob" "BOB" = 0.
Proof.
  destruct (stricmp_custom_ignores_case true "Bob" "BOB") as (_ & _ & _ & _ & _ & Hiff).
  apply Hiff. reflexivity.
Defined.

Lemma stricmp_custom_total_preorder_witness :
  stricmp_custom true "alice" "Charlie" <= 0.
Proof.
  destruct (stricmp_custom_total_preorder true) as (_ & Htrans & _).
  apply (Htrans "alice" "Bob" "Charlie")%string; vm_compute; discriminate.
Defined.

(** ** Integer input *)

(** ** Terminal input *)

Lemma string_length_app (a b : string) :
  String.length (a ++ b) = (String.length a + String.length b)%nat.
Proof. induction a as [|c a IH]; simpl; [done | by rewrite IH]. Qed.

Lemma string_app_assoc (a b c : string) : ((a ++ b) ++ c = a ++ (b ++ c))%string.
Proof. induction a as [|x a IH]; simpl; [done | by rewrite IH]. Qed.

Lemma plain_line_cons (c : ascii) (l : string) :
  plain_line (String c l) = true ->
  char_code c <> 0 /\ char_code c <> 10 /\ plain_line l = true.
Proof.
  simpl. intros H. apply andb_true_iff in H as [H Hl].
  apply andb_true_iff in H as [H0 H10].
  apply negb_true_iff, Z.eqb_neq in H0. apply negb_true_iff, Z.eqb_neq in H10.
  done.
Qed.

Lemma no_newline_cons (c : ascii) (l : string) :
  no_newline (String c l) = true -> char_code c <> 10 /\ no_newline l = true.
Proof.
  simpl. intros H. apply andb_true_iff in H as [H10 Hl].
  by apply negb_true_iff, Z.eqb_neq in H10.
Qed.

Lemma plain_line_no_newline (l : string) : plain_line l = true -> no_newline l = true.
Proof.
  induction l as [|c l IH]; [done|]. intros H.
  apply plain_line_cons in H as (_ & H10 & Hl). simpl.
  apply Z.eqb_neq in H10. rewrite H10. by apply IH.
Qed.

Lemma no_newline_app (a b : string) :
  no_newline a = true -> no_newline b = true -> no_newline (a ++ b) = true.
Proof.
  induction a as [|c a IH]; [done|]. intros Ha Hb.
  apply no_newline_cons in Ha as [H10 Ha]. simpl.
  apply Z.eqb_neq in H10. rewrite H10. by apply IH.
Qed.

Lemma no_newline_c_drop (l : string) (n : nat) :
  no_newline l = true -> no_newline (c_drop n l) = true.
Proof.
  revert n. induction l as [|c l IH]; intros [|n] H; try done.
  apply no_newline_cons in H as [_ H]. by apply IH.
Qed.

Lemma plain_line_c_take (l : string) (n : nat) :
  plain_line l = true -> plain_line (c_take n l) = true.
Proof.
  revert n. induction l as [|c l IH]; intros [|n] H; try done.
  pose proof H as H'. apply plain_line_cons in H' as (H0 & H10 & Hl).
  simpl. apply Z.eqb_neq in H0. rewrite H0. simpl.
  apply Z.eqb_neq in H10. rewrite H0, H10. by apply IH.
Qed.

Lemma plain_line_last (l : string) (k : nat) :
  plain_line l = true -> deref (c_drop k l) <> 10.
Proof.
  revert k. induction l as [|c l IH]; intros k H.
  - by destruct k.
  - apply plain_line_cons in H as (_ & H10 & Hl).
    destruct k as [|k]; [done|]. by apply IH.
Qed.

Lemma c_take_plain_all (l : string) (n : nat) :
  plain_line l = true -> (String.length l <= n)%nat -> c_take n l = l.
Proof.
  revert n. induction l as [|c l IH]; intros n H Hn.
  - by destruct n.
  - apply plain_line_cons in H as (H0 & _ & Hl).
    destruct n as [|n]; simpl in *; [lia|].
    apply Z.eqb_neq in H0. rewrite H0, IH; [done | done | lia].
Qed.

Lemma c_take_plain_app (l s : string) :
  plain_line l = true -> c_take (String.length l) (l ++ s) = l.
Proof.
  induction l as [|c l IH]; [done|]. intros H.
  apply plain_line_cons in H as (H0 & _ & Hl). simpl.
  apply Z.eqb_neq in H0. by rewrite H0, IH.
Qed.

Lemma c_take_plain_nul (l s : string) (n : nat) :
  plain_line l = true -> (String.length l < n)%nat ->
  c_take n (l ++ String nul s) = l.
Proof.
  revert n. induction l as [|c l IH]; intros n H Hn.
  - destruct n; [simpl in Hn; lia | done].
  - apply plain_line_cons in H as (H0 & _ & Hl).
    destruct n as [|n]; simpl in *; [lia|].
    apply Z.eqb_neq in H0. rewrite H0, IH; [done | done | lia].
Qed.

Lemma c_take_line (l : string) :
  plain_line l = true ->
  c_take (S (String.length l)) (l ++ String newline EmptyString)
  = (l ++ String newline EmptyString)%string.
Proof.
  induction l as [|c l IH]; [done|]. intros H.
  apply plain_line_cons in H as (H0 & _ & Hl).
  change (c_take (S (String.length (String c l))) (String c l ++ String newline EmptyString))
    with (if char_code c =? 0 then EmptyString
          else String c (c_take (S (String.length l)) (l ++ String newline EmptyString))).
  apply Z.eqb_neq in H0. by rewrite H0, IH.
Qed.

Lemma deref_c_drop_app (l s : string) :
  deref (c_drop (String.length l) (l ++ s)) = deref s.
Proof. induction l as [|c l IH]; simpl; [by destruct s | done]. Qed.

Lemma clear_input_line (l rest : string) :
  no_newline l = true -> clear_input (l ++ String newline rest) = rest.
Proof.
  induction l as [|c l IH]; [done|]. intros H.
  apply no_newline_cons in H as [H10 Hl]. simpl.
  apply Z.eqb_neq in H10. rewrite H10. by apply IH.
Qed.

Lemma clear_input_eof (l : string) :
  no_newline l = true -> clear_input l = EmptyString.
Proof.
  induction l as [|c l IH]; [done|]. intros H.
  apply no_newline_cons in H as [H10 Hl]. simpl.
  apply Z.eqb_neq in H10. rewrite H10. by apply IH.
Qed.

Lemma clear_input_length (s : string) :
  (String.length (clear_input s) <= String.length s)%nat.
Proof.
  induction s as [|c s IH]; simpl; [lia|].
  destruct (char_code c =? 10); simpl; lia.
Qed.

(** A whole line that fits is stored with its newline. *)
Lemma fgets_chars_line (l rest : string) (n : nat) :
  no_newline l = true -> (String.length l < n)%nat ->
  fgets_chars n (l ++ String newline rest) = ((l ++ String newline EmptyString)%string, rest).
Proof.
  revert n. induction l as [|c l IH]; intros n H Hn.
  - destruct n; [simpl in Hn; lia | done].
  - apply no_newline_cons in H as [H10 Hl].
    destruct n as [|n]; simpl in *; [lia|].
    apply Z.eqb_neq in H10. rewrite H10, IH; [done | done | lia].
Qed.

(** Of a line that does not fit, the first [n] characters are stored. *)
Lemma fgets_chars_long (l s : string) (n : nat) :
  plain_line l = true -> (n <= String.length l)%nat ->
  fgets_chars n (l ++ s) = (c_take n l, (c_drop n l ++ s)%string).
Proof.
  revert n. induction l as [|c l IH]; intros n H Hn.
  - destruct n; [by destruct s | simpl in Hn; lia].
  - pose proof H as H'. apply plain_line_cons in H' as (H0 & H10 & Hl).
    destruct n as [|n]; [done|]. simpl in *.
    apply Z.eqb_neq in H0. apply Z.eqb_neq in H10.
    rewrite H0, H10, IH; [done | done | lia].
Qed.

(** At the end of the input the characters left are stored. *)
Lemma fgets_chars_eof (l : string) (n : nat) :
  plain_line l = true -> fgets_chars n l = (c_take n l, c_drop n l).
Proof.
  revert n. induction l as [|c l IH]; intros n H.
  - by destruct n.
  - pose proof H as H'. apply plain_line_cons in H' as (H0 & H10 & Hl).
    destruct n as [|n]; [done|]. simpl.
    apply Z.eqb_neq in H0. apply Z.eqb_neq in H10.
    by rewrite H0, H10, IH.
Qed.

Lemma fgets_chars_rest (n : nat) (input stored rest : string) :
  fgets_chars n input = (stored, rest) ->
  (String.length rest <= String.length input)%nat /\
  (n <> 0%nat -> input <> EmptyString ->
   (String.length rest < String.length input)%nat).
Proof.
  revert input stored rest. induction n as [|n IH]; intros [|c input] stored rest; simpl.
  - intros [= <- <-]. split; [done | lia].
  - intros [= <- <-]. split; [done | lia].
  - intros [= <- <-]. split; [done | done].
  - destruct (char_code c =? 10).
    + intros [= <- <-]. split; lia.
    + destruct (fgets_chars n input) as [st r] eqn:E. intros [= <- <-].
      apply IH in E as [E _]. simpl. split; lia.
Qed.

Lemma fgets_nonempty (size : nat) (input : string) :
  input <> EmptyString -> fgets size input = Some (fgets_chars (size - 1) input).
Proof. by destruct input. Qed.

(** What [getLine] does once [fgets] has stored a plain, non-empty text
    that does not end in a newline. *)
Lemma getLine_no_newline_stored (size : nat) (input stored rest : string) :
  input <> EmptyString -> fgets_chars (size - 1) input = (stored, rest) ->
  plain_line stored = true -> stored <> EmptyString ->
  Stdin.getLine size input = Some (stored, clear_input rest).
Proof.
  intros Hin Hf Hp Hne. unfold Stdin.getLine.
  rewrite (fgets_nonempty _ _ Hin), Hf. cbv beta iota zeta.
  rewrite (c_take_plain_all stored _ Hp) by done.
  destruct stored as [|c st]; [done|].
  change (String.length (String c st)) with (S (String.length st)). cbv iota beta.
  destruct (deref (c_drop (String.length st) (String c st)) =? 10) eqn:E; [|done].
  apply Z.eqb_eq in E. by apply (plain_line_last (String c st)) in E.
Qed.

Lemma getLine_line (size : nat) (l rest : string) :
  (2 <= size)%nat -> plain_line l = true ->
  Stdin.getLine size (l ++ String newline rest) = Some (getLine size l, rest).
Proof.
  intros Hsize Hl.
  assert (Hin : (l ++ String newline rest)%string <> EmptyString) by by destruct l.
  destruct (decide (String.length l < size - 1)%nat) as [Hfit|Hlong].
  - unfold Stdin.getLine, getLine.
    rewrite (fgets_nonempty _ _ Hin).
    rewrite (fgets_chars_line l rest _ (plain_line_no_newline _ Hl) Hfit).
    cbv beta iota zeta.
    rewrite string_length_app. change (String.length (String newline EmptyString)) with 1%nat.
    rewrite Nat.add_1_r, (c_take_line l Hl).
    rewrite string_length_app. change (String.length (String newline EmptyString)) with 1%nat.
    rewrite Nat.add_1_r. cbv iota beta.
    rewrite deref_c_drop_app. change (deref (String newline EmptyString) =? 10) with true.
    cbv iota. rewrite (c_take_plain_app l _ Hl).
    rewrite (c_take_plain_all l _ Hl) by lia. done.
  - rewrite (getLine_no_newline_stored size _ (c_take (size - 1) l)
               (c_drop (size - 1) l ++ String newline rest)%string).
    + rewrite clear_input_line; [done|].
      apply no_newline_c_drop. by apply plain_line_no_newline.
    + done.
    + apply fgets_chars_long; [done | lia].
    + by apply plain_line_c_take.
    + destruct l as [|c l]; [simpl in Hlong; lia|].
      apply plain_line_cons in Hl as (H0 & _).
      destruct (size - 1)%nat as [|n] eqn:En; [lia|]. simpl.
      apply Z.eqb_neq in H0. by rewrite H0.
Qed.

Lemma getLine_last_line (size : nat) (l : string) :
  (2 <= size)%nat -> plain_line l = true ->
  Stdin.getLine size l = Some (getLine size l, EmptyString).
Proof.
  intros Hsize Hl. destruct l as [|c l].
  - unfold getLine. by destruct (size - 1)%nat.
  - rewrite (getLine_no_newline_stored size _ (c_take (size - 1) (String c l))
               (c_drop (size - 1) (String c l))).
    + rewrite clear_input_eof; [done|].
      apply no_newline_c_drop. by apply plain_line_no_newline.
    + done.
    + by apply fgets_chars_eof.
    + by apply plain_line_c_take.
    + apply plain_line_cons in Hl as (H0 & _).
      destruct (size - 1)%nat as [|n] eqn:En; [lia|]. simpl.
      apply Z.eqb_neq in H0. by rewrite H0.
Qed.

Lemma getLine_nul_inside (size : nat) (pre tail next rest : string) :
  plain_line pre = true -> pre <> EmptyString ->
  no_newline tail = true -> no_newline next = true ->
  (String.length pre + String.length tail + 2 < size)%nat ->
  Stdin.getLine size
    (pre ++ String nul (tail ++ String newline (next ++ String newline rest)))
  = Some (pre, rest).
Proof.
  intros Hpre Hne Htail Hnext Hfit.
  set (after := (next ++ String newline rest)%string).
  assert (Hline : no_newline (pre ++ String nul tail) = true).
  { apply no_newline_app; [by apply plain_line_no_newline | done]. }
  assert (Hlen : String.length (pre ++ String nul tail)
                 = S (String.length pre + String.length tail)).
  { rewrite string_length_app. simpl. lia. }
  assert (Hf : fgets_chars (size - 1)
                 (pre ++ String nul (tail ++ String newline after))
               = ((pre ++ String nul (tail ++ String newline EmptyString))%string, after)).
  { pose proof (fgets_chars_line (pre ++ String nul tail) after (size - 1) Hline) as H.
    rewrite !string_app_assoc in H. apply H. lia. }
  unfold Stdin.getLine.
  rewrite fgets_nonempty by by destruct pre.
  rewrite Hf. cbv beta iota zeta.
  rewrite (c_take_plain_nul pre _ _ Hpre).
  2:{ rewrite string_length_app. simpl. lia. }
  destruct pre as [|c pre']; [done|].
  change (String.length (String c pre')) with (S (String.length pre')). cbv iota beta.
  destruct (deref (c_drop (String.length pre') (String c pre')) =? 10) eqn:E10.
  { apply Z.eqb_eq in E10. by apply (plain_line_last (String c pre')) in E10. }
  unfold after. by rewrite clear_input_line.
Qed.

Lemma getLine_nul_first (size : nat) (rest : string) :
  (2 <= size)%nat -> Stdin.getLine size (String nul rest) = None.
Proof.
  intros Hsize. unfold Stdin.getLine, fgets.
  destruct (size - 1)%nat as [|n] eqn:En; [lia|]. simpl.
  by destruct (fgets_chars n rest).
Qed.

Lemma getLine_consumes (size : nat) (input buffer rest : string) :
  (2 <= size)%nat -> input <> EmptyString ->
  Stdin.getLine size input = Some (buffer, rest) ->
  (String.length rest < String.length input)%nat.
Proof.
  intros Hsize Hin. unfold Stdin.getLine.
  rewrite (fgets_nonempty _ _ Hin).
  destruct (fgets_chars (size - 1) input) as [stored r] eqn:Hf.
  cbv beta iota zeta.
  apply fgets_chars_rest in Hf as [_ Hf].
  specialize (Hf ltac:(lia) ltac:(done)).
  destruct (String.length (c_take (String.length stored) stored)); [done|].
  destruct (deref _ =? 10); intros [= <- <-]; [done|].
  pose proof (clear_input_length r). lia.
Qed.

(** X18. [getLine] on the standard input, for a buffer of at least two
    bytes.  A typed line without NUL characters is handed back cut to its
    first [size - 1] characters, and the input is left at the start of
    the next line, whether the line fits the buffer or not; the same
    holds for a last line that the end of the input closes.  A NUL
    character inside a line that fits makes [strlen] stop early, so the
    newline is not found in the buffer: the text before the NUL is handed
    back and the whole next line is thrown away.  A line that starts
    with a NUL character makes [getLine] read outside its buffer. *)
Theorem getLine_reads_one_line (size : nat) :
  (2 <= size)%nat ->
  (forall l rest, plain_line l = true ->
     Stdin.getLine size (l ++ String newline rest) = Some (getLine size l, rest)) /\
  (forall l, plain_line l = true ->
     Stdin.getLine size l = Some (getLine size l, EmptyString)) /\
  (forall pre tail next rest,
     plain_line pre = true -> pre <> EmptyString ->
     no_newline tail = true -> no_newline next = true ->
     (String.length pre + String.length tail + 2 < size)%nat ->
     Stdin.getLine size
       (pre ++ String nul (tail ++ String newline (next ++ String newline rest)))
     = Some (pre, rest)) /\
  (forall rest, Stdin.getLine size (String nul rest) = None).
Proof.
  intros Hsize. split_and!.
  - intros l rest. by apply getLine_line.
  - intros l. by apply getLine_last_line.
  - intros pre tail next rest. by apply getLine_nul_inside.
  - intros rest. by apply getLine_nul_first.
Qed.

Lemma getLine_reads_one_line_witness :
  Stdin.getLine 10 ("yes, delete it" ++ String newline "n")
    = Some ("yes, dele"%string, "n"%string) /\
  Stdin.getLine 100
    ("ab" ++ String nul ("" ++ String newline ("42" ++ String newline (typed ["7"%string] ""))))
    = Some ("ab"%string, typed ["7"%string] "") /\
  Stdin.getLine 100 (String nul (typed ["7"%string] "")) = None.
Proof.
  split_and!.
  - exact (proj1 (getLine_reads_one_line 10 ltac:(lia)) "yes, delete it"%string "n"%string
             eq_refl).
  - refine (proj1 (proj2 (proj2 (getLine_reads_one_line 100 ltac:(lia))))
              "ab"%string ""%string "42"%string _ eq_refl _ eq_refl eq_refl _).
    + discriminate.
    + simpl. lia.
  - exact (proj2 (proj2 (proj2 (getLine_reads_one_line 100 ltac:(lia)))) _).
Defined.

(** ** Integer input *)

Section IntegerInputFacts.

Variable strtol : string -> strtol_result.
Variable LONG_MIN LONG_MAX : Z.

(** A line that passes the checks yields the value [strtol] gave, which
    lies in the range of [int], so the cast to [int] changes nothing. *)
Lemma check_int_accepts (buffer : string) (v : Z) :
  check_int strtol LONG_MIN LONG_MAX buffer = inr v ->
  v = strtol_value (strtol buffer) /\ in_int v /\
  (0 < strtol_consumed (strtol buffer))%nat /\
  deref (c_drop (strtol_consumed (strtol buffer)) buffer) = 0.
Proof.
  unfold check_int.
  destruct (strtol_consumed (strtol buffer) =? 0)%nat eqn:Hc; [done|].
  destruct (deref (c_drop _ buffer) =? 0) eqn:Hend; cbn [negb]; [|done].
  destruct (strtol_erange (strtol buffer) && _); [done|].
  destruct ((INT_MAX <? strtol_value (strtol buffer))
            || (strtol_value (strtol buffer) <? INT_MIN)) eqn:Hrange; [done|].
  intros [= <-].
  apply orb_false_iff in Hrange as [H1 H2].
  assert (Hin : in_int (strtol_value (strtol buffer))) by (unfold in_int; lia).
  assert (Hcast : wrap_int (strtol_value (strtol buffer)) = strtol_value (strtol buffer)).
  { unfold in_int, INT_MIN, INT_MAX in Hin. unfold wrap_int. rewrite Z.mod_small; lia. }
  rewrite Hcast. apply Nat.eqb_neq in Hc. split_and!; [done | done | lia | lia].
Qed.

(** More rounds than the input has characters never change the result. *)
Lemma get_int_from_user_rounds_enough (n m : nat) :
  forall input,
    (String.length input < n)%nat -> (String.length input < m)%nat ->
    get_int_from_user_rounds strtol LONG_MIN LONG_MAX n input
    = get_int_from_user_rounds strtol LONG_MIN LONG_MAX m input.
Proof.
  revert m. induction n as [|n IH]; intros m input Hn Hm; [lia|].
  destruct m as [|m]; [lia|]. cbn [get_int_from_user_rounds].
  destruct (Stdin.getLine 100 input) as [[buffer rest]|] eqn:Hg; [|done].
  destruct (check_int strtol LONG_MIN LONG_MAX buffer) as [why|v]; [|done].
  destruct input as [|c input]; [done|].
  apply getLine_consumes in Hg; [|lia|done].
  f_equal. apply IH; lia.
Qed.

(** One round of the loop. *)
Lemma get_int_from_user_round (input : string) :
  get_int_from_user strtol LONG_MIN LONG_MAX input =
    match Stdin.getLine 100 input with
    | None => Some (OutOfBounds [])
    | Some (buffer, rest) =>
        match check_int strtol LONG_MIN LONG_MAX buffer with
        | inr v => Some (Returned v rest [])
        | inl why =>
            match input with
            | EmptyString => Some (NeverReturns [why])
            | _ => complain why <$> get_int_from_user strtol LONG_MIN LONG_MAX rest
            end
        end
    end.
Proof.
  unfold get_int_from_user at 1. cbn [get_int_from_user_rounds].
  destruct (Stdin.getLine 100 input) as [[buffer rest]|] eqn:Hg; [|done].
  destruct (check_int strtol LONG_MIN LONG_MAX buffer) as [why|v]; [|done].
  destruct input as [|c input]; [done|].
  apply getLine_consumes in Hg; [|lia|done].
  unfold get_int_from_user. f_equal. apply get_int_from_user_rounds_enough; lia.
Qed.

(** The rounds allotted always decide the loop. *)
Lemma get_int_from_user_decided (input : string) :
  is_Some (get_int_from_user strtol LONG_MIN LONG_MAX input).
Proof.
  remember (String.length input) as n eqn:Hn.
  revert input Hn. induction (lt_wf n) as [n _ IH]. intros input ->.
  rewrite get_int_from_user_round.
  destruct (Stdin.getLine 100 input) as [[buffer rest]|] eqn:Hg; [|done].
  destruct (check_int strtol LONG_MIN LONG_MAX buffer) as [why|v]; [|done].
  destruct input as [|c input]; [done|].
  apply getLine_consumes in Hg; [|lia|done].
  destruct (IH _ Hg rest eq_refl) as [r ->]. done.
Qed.

Lemma get_int_from_user_skips (rejected : list string) (whys : list rejection)
    (line rest : string) (v : Z) :
  forallb plain_line rejected = true -> plain_line line = true ->
  Forall2 (fun l why => check_int strtol LONG_MIN LONG_MAX (getLine 100 l) = inl why)
          rejected whys ->
  check_int strtol LONG_MIN LONG_MAX (getLine 100 line) = inr v ->
  get_int_from_user strtol LONG_MIN LONG_MAX (typed (rejected ++ [line]) rest)
  = Some (Returned v rest whys).
Proof.
  intros Hplain Hline Hrej Hok.
  induction Hrej as [|l why ls whys' Hl _ IH];
    cbn [app typed]; rewrite get_int_from_user_round.
  - rewrite getLine_line by (done || lia). by rewrite Hok.
  - cbn [forallb] in Hplain. apply andb_true_iff in Hplain as [Hpl Hpls].
    rewrite getLine_line by (done || lia). rewrite Hl, (IH Hpls).
    by destruct l.
Qed.

Lemma get_int_from_user_starves (rejected : list string) (whys : list rejection)
    (why0 : rejection) :
  forallb plain_line rejected = true ->
  Forall2 (fun l why => check_int strtol LONG_MIN LONG_MAX (getLine 100 l) = inl why)
          rejected whys ->
  check_int strtol LONG_MIN LONG_MAX EmptyString = inl why0 ->
  get_int_from_user strtol LONG_MIN LONG_MAX (typed rejected EmptyString)
  = Some (NeverReturns (whys ++ [why0])).
Proof.
  intros Hplain Hrej H0.
  induction Hrej as [|l why ls whys' Hl _ IH];
    cbn [app typed]; rewrite get_int_from_user_round.
  - change (Stdin.getLine 100 EmptyString) with (Some (EmptyString, EmptyString)).
    cbv beta iota. by rewrite H0.
  - cbn [forallb] in Hplain. apply andb_true_iff in Hplain as [Hpl Hpls].
    rewrite getLine_line by (done || lia). rewrite Hl, (IH Hpls).
    by destruct l.
Qed.

End IntegerInputFacts.

(** X12. Whatever [strtol] is: when the lines typed are free of NUL
    characters, [get_int_from_user] skips every line one of its four
    checks rejects, printing one complaint per rejected line, and
    returns at the first line that passes, with exactly the value
    [strtol] read from the first 99 characters of that line and with the
    input left at the start of the following line; this value lies
    within the range of [int].  If every line is rejected and the empty
    string is rejected too, the loop is still complaining at the end of
    the input and never returns. *)
Theorem get_int_from_user_first_valid (strtol : string -> strtol_result)
    (LONG_MIN LONG_MAX : Z)
    (rejected : list string) (whys : list rejection)
    (line rest : string) (v : Z) :
  forallb plain_line rejected = true -> plain_line line = true ->
  Forall2 (fun l why => check_int strtol LONG_MIN LONG_MAX (getLine 100 l) = inl why)
          rejected whys ->
  (check_int strtol LONG_MIN LONG_MAX (getLine 100 line) = inr v ->
   get_int_from_user strtol LONG_MIN LONG_MAX (typed (rejected ++ [line]) rest)
     = Some (Returned v rest whys) /\
   v = strtol_value (strtol (getLine 100 line)) /\
   INT_MIN <= v <= INT_MAX) /\
  (forall why0,
     check_int strtol LONG_MIN LONG_MAX EmptyString = inl why0 ->
     get_int_from_user strtol LONG_MIN LONG_MAX (typed rejected EmptyString)
       = Some (NeverReturns (whys ++ [why0]))).
Proof.
  intros Hplain Hline Hrej. split.
  - intros Hok. split; [by apply get_int_from_user_skips|].
    apply check_int_accepts in Hok as (Hv & Hin & _). by split.
  - intros why0 H0. by apply get_int_from_user_starves.
Qed.

Lemma get_int_from_user_first_valid_witness :
  get_int_from_user strtol10 (-9223372036854775808) 9223372036854775807
    (typed (["abc"; "12x"; ""; "99999999999"; "99999999999999999999999"] ++ ["  -42"])
           (typed ["7"] ""))%string
  = Some (Returned (-42) (typed ["7"%string] "")
            [NotANumber; NotOnlyANumber; NotANumber; OutOfIdRange; OutOfRange]) /\
  -42 = strtol_value (strtol10 (getLine 100 "  -42")) /\
  INT_MIN <= -42 <= INT_MAX.
Proof.
  refine (proj1 (get_int_from_user_first_valid strtol10 _ _
                   ["abc"; "12x"; ""; "99999999999"; "99999999999999999999999"]%string
                   [NotANumber; NotOnlyANumber; NotANumber; OutOfIdRange; OutOfRange]
                   "  -42"%string (typed ["7"%string] "") (-42) eq_refl eq_refl _) eq_refl).
  repeat constructor.
Defined.

(** ** The session loop and the save file *)

Section MainFacts.

Variable char_signed : bool.
Variable qsort : (Patient.t -> Patient.t -> Z) -> list Patient.t -> list Patient.t.
Variable writable : bool.
Variable junk : nat -> nat -> nat -> nat -> Z.

Lemma menu_loop_globals (cs : list menu_choice) :
  forall s f,
    globals (menu_loop char_signed qsort writable junk cs s f)
    = fst (run char_signed qsort (commands_of cs) s).
Proof.
  induction cs as [|c cs IH]; intros s f; [done|].
  destruct c; cbn [menu_loop commands_of run]; try apply IH.
  - destruct (dispatch char_signed qsort c s) as [s1 o]. cbn [globals].
    rewrite IH. by destruct (run char_signed qsort (commands_of cs) s1).
  - unfold saveData_file. destruct writable; cbn [globals]; apply IH.
  - unfold saveData_file. by destruct writable.
Qed.

Lemma menu_loop_file_kept (cs : list menu_choice) :
  forall s f,
    writable = false \/ ((ChooseSave ∉ cs) /\ (ChooseExit ∉ cs)) ->
    file (menu_loop char_signed qsort writable junk cs s f) = f.
Proof.
  induction cs as [|c cs IH]; intros s f Hkeep; [done|].
  assert (Hrest : writable = false \/ ((ChooseSave ∉ cs) /\ (ChooseExit ∉ cs))).
  { destruct Hkeep as [?|[H1 H2]]; [by left|right].
    split; intros ?; [apply H1 | apply H2]; by right. }
  destruct c; cbn [menu_loop]; try (cbn [file]; by apply IH).
  - destruct (dispatch char_signed qsort c s) as [s1 o]. cbn [file]. by apply IH.
  - destruct Hkeep as [-> | [H1 _]]; [cbn [saveData_file file]; by apply IH|].
    destruct H1. by left.
  - destruct Hkeep as [-> | [_ H2]]; [done|]. destruct H2. by left.
Qed.

Lemma menu_loop_exit (cs : list menu_choice) :
  forall s f,
    writable = true -> ChooseExit ∈ cs ->
    running (menu_loop char_signed qsort writable junk cs s f) = false /\
    exists n, file (menu_loop char_signed qsort writable junk cs s f)
              = Some (saveData (junk n) (fst (run char_signed qsort (commands_of cs) s))).
Proof.
  induction cs as [|c cs IH]; intros s f Hw Hin; [by apply elem_of_nil in Hin|].
  assert (Hrest : c <> ChooseExit -> ChooseExit ∈ cs).
  { intros Hc. apply elem_of_cons in Hin as [?|?]; [congruence | done]. }
  destruct c; cbn [menu_loop commands_of run];
    try (cbn [running file]; apply IH; [done | by apply Hrest]).
  - destruct (dispatch char_signed qsort c s) as [s1 o]. cbn [running file].
    destruct (IH s1 f Hw) as (Hr & n & Hn); [by apply Hrest|].
    split; [done|]. exists n. rewrite Hn.
    by destruct (run char_signed qsort (commands_of cs) s1).
  - revert IH. rewrite Hw. intros IH. cbn [saveData_file running file].
    apply IH; [done | by apply Hrest].
  - rewrite Hw. cbn [saveData_file running file fst]. eauto.
Qed.

End MainFacts.

(** X13. The menu loop changes the tables only through the table
    operations: the globals after any list of choices are those after
    running, in order, the table commands typed before the first Exit;
    the views, searches by id, saves and invalid choices leave them
    alone.  The save file is left as it was when it cannot be opened for
    writing, and when neither Save nor Exit is chosen. *)
Theorem menu_loop_runs_the_commands (char_signed : bool)
    (qsort : (Patient.t -> Patient.t -> Z) -> list Patient.t -> list Patient.t)
    (writable : bool) (junk : nat -> nat -> nat -> nat -> Z)
    (cs : list menu_choice) (s : state) (f : option (list Z)) :
  globals (menu_loop char_signed qsort writable junk cs s f)
    = fst (run char_signed qsort (commands_of cs) s) /\
  (writable = false -> file (menu_loop char_signed qsort writable junk cs s f) = f) /\
  (ChooseSave ∉ cs -> ChooseExit ∉ cs ->
   file (menu_loop char_signed qsort writable junk cs s f) = f).
Proof.
  split_and!.
  - apply menu_loop_globals.
  - intros Hw. apply menu_loop_file_kept. by left.
  - intros H1 H2. apply menu_loop_file_kept. by right.
Qed.

Lemma menu_loop_runs_the_commands_witness :
  file (menu_loop true merge_qsort false (fun _ _ _ _ => 0) busy_choices init_state None)
  = None.
Proof.
  destruct (menu_loop_runs_the_commands true merge_qsort false (fun _ _ _ _ => 0)
              busy_choices init_state None) as (_ & Hkept & _).
  apply Hkept. reflexivity.
Defined.

Lemma commands_of_valid (cs : list menu_choice) :
  Forall menu_choice_valid cs -> Forall command_valid (commands_of cs).
Proof.
  induction 1 as [|c cs Hc _ IH]; [done|].
  destruct c; cbn [commands_of]; try done. by constructor.
Qed.

(** X14. What a session leaves on disk is what the next one starts
    from.  Start [main] with no save file, or with one written by an
    earlier session; type valid input with an Exit somewhere; let the
    file be writable.  Then [main] returns, the file holds the save of
    the final state, and a new [main] on that file starts, before any
    choice is typed, from a state with the same counts, counters and
    live records. *)
Theorem session_persists (char_signed : bool)
    (qsort : (Patient.t -> Patient.t -> Z) -> list Patient.t -> list Patient.t)
    (junk junk' : nat -> nat -> nat -> nat -> Z)
    (f : option (list Z)) (cs : list menu_choice) :
  qsort_contract qsort ->
  f = None \/ (exists j s0, reachable char_signed qsort s0 /\ f = Some (saveData j s0)) ->
  Forall menu_choice_valid cs -> ChooseExit ∈ cs ->
  exists r r',
    main char_signed qsort true junk f cs = Some r /\
    running r = false /\
    reachable char_signed qsort (globals r) /\
    main char_signed qsort true junk' (file r) [] = Some r' /\
    same_data (globals r') (globals r).
Proof.
  intros Hq Hf Hvalid Hexit. unfold main.
  assert (Hstart : exists s1, loadData f init_state = Some s1 /\
                              reachable char_signed qsort s1).
  { destruct Hf as [-> | (j & s0 & Hs0 & ->)].
    - exists init_state. split; [done | apply reach_init].
    - destruct (loadData_saveData j s0 init_state (reachable_wf _ _ _ Hq Hs0))
        as (s1 & Hload & _).
      exists s1. split; [done|]. by eapply reach_load. }
  destruct Hstart as (s1 & -> & Hs1). cbn [mbind option_bind].
  destruct (menu_loop_exit char_signed qsort true junk cs s1 f eq_refl Hexit)
    as (Hstop & n & Hfile).
  assert (Hfinal : reachable char_signed qsort
                     (globals (menu_loop char_signed qsort true junk cs s1 f))).
  { rewrite menu_loop_globals. apply reachable_run; [done|]. by apply commands_of_valid. }
  rewrite <- menu_loop_globals with (writable := true) (junk := junk) (f := f) in Hfile.
  destruct (loadData_saveData (junk n) _ init_state (reachable_wf _ _ _ Hq Hfinal))
    as (s2 & Hload & Hsame & _).
  eexists. exists (mkSession s2 (file (menu_loop char_signed qsort true junk cs s1 f)) [] true).
  split_and!; try done.
  rewrite Hfile at 1. rewrite Hload. cbn [mbind option_bind menu_loop]. by rewrite Hfile.
Qed.

Lemma session_persists_witness :
  exists r r',
    main true merge_qsort true (fun _ _ _ _ => 204) None busy_choices = Some r /\
    running r = false /\
    reachable true merge_qsort (globals r) /\
    main true merge_qsort true (fun _ _ _ _ => 85) (file r) [] = Some r' /\
    same_data (globals r') (globals r).
Proof.
  apply (session_persists true merge_qsort).
  - exact merge_qsort_contract.
  - by left.
  - repeat constructor; vm_compute; congruence.
  - unfold busy_choices. rewrite !elem_of_cons. tauto.
Defined.

(** ** A save file that was cut short *)

Lemma fread_records_at_eof {A : Type} (size : nat) (decode : list Z -> A)
    (max count : Z) (arr : list A) :
  (0 < size)%nat -> 0 <= max ->
  fread_records size decode max count arr [] = Some (arr, []).
Proof.
  intros Hsize Hmax. unfold fread_records.
  destruct (0 <? count) eqn:Hpos; [|done].
  destruct (Z.to_nat count) as [|n] eqn:Hn; [lia|].
  cbn [fread_array length].
  destruct (size <=? 0)%nat eqn:Hle; [apply Nat.leb_le in Hle; lia|].
  cbn. rewrite (proj2 (Z.leb_le _ _)) by lia. done.
Qed.

(** X15. [loadData] takes the counts at their word.  On a file that
    ends right after its eight integers it reads no record, yet returns
    normally with the counts and counters of the file and the arrays
    untouched; loaded at start-up, such a file makes the program list as
    many all-zero patients (id 0, empty name) as the count says. *)
Theorem loadData_header_only (pc sc dc ac np ns nd na : Z) (s0 : state) :
  in_int pc -> in_int sc -> in_int dc -> in_int ac ->
  in_int np -> in_int ns -> in_int nd -> in_int na ->
  loadData (Some (header_only pc sc dc ac np ns nd na)) s0
    = Some (mkState (patients s0) (diseases s0) (doctors s0) (appointments s0)
                    pc sc dc ac np ns nd na) /\
  (0 <= pc <= MAX_PATIENTS ->
   exists s, loadData (Some (header_only pc sc dc ac np ns nd na)) init_state = Some s /\
             live_patients s = replicate (Z.to_nat pc) Patient.zero).
Proof.
  intros Hpc Hsc Hdc Hac Hnp Hns Hnd Hna.
  assert (Hload : forall s,
            loadData (Some (header_only pc sc dc ac np ns nd na)) s
            = Some (mkState (patients s) (diseases s) (doctors s) (appointments s)
                            pc sc dc ac np ns nd na)).
  { intros s. unfold loadData, header_only.
    rewrite <- (app_nil_r (int_bytes na)).
    repeat (rewrite fread_int_int_bytes by assumption; cbn [mbind option_bind]).
    repeat (rewrite fread_records_at_eof by (vm_compute; first [lia | discriminate]);
            cbn [mbind option_bind]).
    done. }
  split; [apply Hload|].
  intros Hrange. eexists. split; [apply Hload|].
  unfold live_patients, init_state. state_simpl.
  rewrite take_replicate. f_equal. unfold MAX_PATIENTS in *. lia.
Qed.

Lemma loadData_header_only_witness :
  exists s, loadData (Some (header_only 3 0 0 0 4 1 1 1)) init_state = Some s /\
            live_patients s = replicate 3 Patient.zero.
Proof.
  destruct (loadData_header_only 3 0 0 0 4 1 1 1 init_state) as [_ H];
    try (split; vm_compute; discriminate).
  apply H. split; vm_compute; discriminate.
Defined.

(** ** The successful paths of the adds *)

(** X16. Intake with a doctor id that resolves: when the patient table
    has room, the id typed is not 0 and names a registered doctor, the
    patient is appended to the live records with the next patient id,
    the first 99 characters of the name and that doctor as [doctorId],
    the assignment is confirmed, the count grows by one and the id
    counter moves on by one (as an [int]). *)
Theorem addPatient_known_doctor (s : state) (name : string) (age : Z)
    (gender phone disease : string) (docId : Z) :
  in_bounds s -> patientCount s < MAX_PATIENTS ->
  docId <> 0 -> is_Some (findDoctorIndex s docId) ->
  let s' := fst (addPatient s name age gender phone disease docId) in
  snd (addPatient s name age gender phone disease docId)
    = PatientAdded (nextPatientId s) (DoctorAssigned docId) /\
  live_patients s' =
    live_patients s ++
      [Patient.mk (nextPatientId s) (c_take 99 name) age (c_take 9 gender)
         (c_take 19 phone) (c_take 99 disease) docId] /\
  patientCount s' = patientCount s + 1 /\
  nextPatientId s' = wrap_int (nextPatientId s + 1).
Proof.
  intros (Hlp & _ & _ & _ & Hcp & _) Hroom Hnz Hdoc s'. subst s'.
  pose proof Hdoc as [j Hj]. apply findDoctorIndex_Some in Hj.
  unfold addPatient.
  destruct (MAX_PATIENTS <=? patientCount s) eqn:Hfull; [lia|].
  change (findDoctorIndex (set_nextPatientId (wrap_int (nextPatientId s + 1)) s) docId)
    with (findDoctorIndex s docId).
  cbn [set_nextPatientId doctorCount patientCount patients].
  rewrite (proj2 (Z.ltb_lt _ _)) by lia.
  rewrite (proj2 (Z.eqb_neq _ _)) by done.
  rewrite bool_decide_eq_true_2 by done. cbn [negb andb].
  unfold live_patients. state_simpl. split_and!; try done.
  rewrite take_insert_next by (rewrite ?Hlp; unfold MAX_PATIENTS in *; lia).
  unfold strncpy_buf, getLine. by rewrite !c_take_c_take by lia.
Qed.

Lemma addPatient_known_doctor_witness :
  let s' := fst (addPatient small_clinic "Jane" 30 "F" "555-0101" "Asthma" 1) in
  snd (addPatient small_clinic "Jane" 30 "F" "555-0101" "Asthma" 1)
    = PatientAdded 2 (DoctorAssigned 1) /\
  live_patients s' =
    live_patients small_clinic ++ [Patient.mk 2 "Jane" 30 "F" "555-0101" "Asthma" 1] /\
  patientCount s' = 2 /\
  nextPatientId s' = 3.
Proof.
  apply (addPatient_known_doctor small_clinic "Jane" 30 "F" "555-0101" "Asthma" 1).
  - repeat split; vm_compute; congruence.
  - reflexivity.
  - discriminate.
  - exists 0%nat. reflexivity.
Defined.

(** X17. Registering a doctor or a disease into a table with room
    appends one record, with the next id of its table and each text cut
    to what its buffer holds (99 characters for the names and the
    specialization, 19 for the phone, 199 for symptoms and treatment),
    and leaves the earlier records, the patients and the appointments as
    they were. *)
Theorem addDoctor_addDisease_append (s : state) (a b c : string) :
  in_bounds s ->
  (doctorCount s < MAX_DOCTORS ->
   let s' := fst (addDoctor s a b c) in
   snd (addDoctor s a b c) = DoctorAdded (nextDoctorId s) /\
   live_doctors s' =
     live_doctors s ++ [Doctor.mk (nextDoctorId s) (c_take 99 a) (c_take 99 b) (c_take 19 c)] /\
   doctorCount s' = doctorCount s + 1 /\
   live_patients s' = live_patients s /\ live_appointments s' = live_appointments s /\
   live_diseases s' = live_diseases s) /\
  (diseaseCount s < MAX_DISEASES ->
   let s' := fst (addDisease s a b c) in
   snd (addDisease s a b c) = DiseaseAdded (nextDiseaseId s) /\
   live_diseases s' =
     live_diseases s ++
       [Disease.mk (nextDiseaseId s) (c_take 99 a) (c_take 199 b) (c_take 199 c)] /\
   diseaseCount s' = diseaseCount s + 1 /\
   live_patients s' = live_patients s /\ live_appointments s' = live_appointments s /\
   live_doctors s' = live_doctors s).
Proof.
  intros (_ & Hls & Hld & _ & _ & Hcs & Hcd & _). split.
  - intros Hroom s'. subst s'. unfold addDoctor.
    destruct (MAX_DOCTORS <=? doctorCount s) eqn:Hfull; [lia|].
    unfold live_doctors, live_patients, live_appointments, live_diseases. state_simpl.
    split_and!; try done.
    rewrite take_insert_next by (rewrite ?Hld; unfold MAX_DOCTORS in *; lia).
    unfold strncpy_buf, getLine. by rewrite !c_take_c_take by lia.
  - intros Hroom s'. subst s'. unfold addDisease.
    destruct (MAX_DISEASES <=? diseaseCount s) eqn:Hfull; [lia|].
    unfold live_doctors, live_patients, live_appointments, live_diseases. state_simpl.
    split_and!; try done.
    rewrite take_insert_next by (rewrite ?Hls; unfold MAX_DISEASES in *; lia).
    unfold strncpy_buf, getLine. by rewrite !c_take_c_take by lia.
Qed.

Lemma addDoctor_addDisease_append_witness :
  live_doctors (fst (addDoctor small_clinic "Dr. Jones" "Neurology" "555-0102"))
  = live_doctors small_clinic ++ [Doctor.mk 2 "Dr. Jones" "Neurology" "555-0102"] /\
  live_diseases (fst (addDisease small_clinic "Asthma" "Wheezing" "Inhaler"))
  = live_diseases small_clinic ++ [Disease.mk 1 "Asthma" "Wheezing" "Inhaler"].
Proof.
  assert (Hb : in_bounds small_clinic) by (repeat split; vm_compute; congruence).
  destruct (addDoctor_addDisease_append small_clinic
              "Dr. Jones" "Neurology" "555-0102" Hb) as [Hd _].
  destruct (addDoctor_addDisease_append small_clinic
              "Asthma" "Wheezing" "Inhaler" Hb) as [_ Hs].
  split.
  - apply Hd. reflexivity.
  - apply Hs. reflexivity.
Defined.

(** ** Text fields *)

(** X19. In every reachable state every text of every live record fits
    the buffer the C struct gives it: names, diseases and
    specializations have at most 99 characters, symptoms and treatments
    199, phones and dates 19, genders and times 9.  No input, however
    long, makes a stored text overrun its field. *)
Theorem stored_text_fits (char_signed : bool)
    (qsort : (Patient.t -> Patient.t -> Z) -> list Patient.t -> list Patient.t)
    (s : state) :
  qsort_contract qsort -> reachable char_signed qsort s ->
  (forall p, p ∈ live_patients s ->
     (String.length (Patient.name p) <= 99)%nat /\
     (String.length (Patient.gender p) <= 9)%nat /\
     (String.length (Patient.phone p) <= 19)%nat /\
     (String.length (Patient.disease p) <= 99)%nat) /\
  (forall d, d ∈ live_diseases s ->
     (String.length (Disease.name d) <= 99)%nat /\
     (String.length (Disease.symptoms d) <= 199)%nat /\
     (String.length (Disease.treatment d) <= 199)%nat) /\
  (forall d, d ∈ live_doctors s ->
     (String.length (Doctor.name d) <= 99)%nat /\
     (String.length (Doctor.specialization d) <= 99)%nat /\
     (String.length (Doctor.phone d) <= 19)%nat) /\
  (forall a, a ∈ live_appointments s ->
     (String.length (Appointment.date a) <= 19)%nat /\
     (String.length (Appointment.time a) <= 9)%nat).
Proof.
  intros Hq Hs.
  pose proof (reachable_wf _ _ _ Hq Hs) as (_ & _ & _ & _ & _ & Hwp & Hws & Hwd & Hwa).
  rewrite Forall_forall in Hwp. rewrite Forall_forall in Hws.
  rewrite Forall_forall in Hwd. rewrite Forall_forall in Hwa.
  split_and!.
  - intros p Hp. destruct (Hwp p Hp) as (_ & H1 & _ & H2 & H3 & H4 & _).
    split_and!; by apply (c_take_fixed_length _ _) in H1, H2, H3, H4.
  - intros d Hd. destruct (Hws d Hd) as (_ & H1 & H2 & H3).
    split_and!; by apply (c_take_fixed_length _ _) in H1, H2, H3.
  - intros d Hd. destruct (Hwd d Hd) as (_ & H1 & H2 & H3).
    split_and!; by apply (c_take_fixed_length _ _) in H1, H2, H3.
  - intros a Ha. destruct (Hwa a Ha) as (_ & _ & _ & H1 & H2).
    split_and!; by apply (c_take_fixed_length _ _) in H1, H2.
Qed.

Lemma stored_text_fits_witness :
  (forall p, p ∈ live_patients (fst (run true merge_qsort busy_session init_state)) ->
     (String.length (Patient.name p) <= 99)%nat /\
     (String.length (Patient.gender p) <= 9)%nat /\
     (String.length (Patient.phone p) <= 19)%nat /\
     (String.length (Patient.disease p) <= 99)%nat) /\
  (forall a, a ∈ live_appointments (fst (run true merge_qsort busy_session init_state)) ->
     (String.length (Appointment.date a) <= 19)%nat /\
     (String.length (Appointment.time a) <= 9)%nat).
Proof.
  pose proof (stored_text_fits true merge_qsort _
                merge_qsort_contract busy_session_reachable) as (Hp & _ & _ & Ha).
  exact (conj Hp Ha).
Defined.

(** ** Names for prompts, and complete listings *)

(** X20. [getPatientName] gives "Unknown" for an id no live patient
    carries and otherwise the name of a live patient with that id;
    with distinct live ids, that is the name of every live patient asked
    for by its own id. *)
Theorem getPatientName_names (s : state) :
  (forall id, (forall p, p ∈ live_patients s -> Patient.id p <> id) ->
     getPatientName s id = "Unknown"%string) /\
  (forall id, (exists p, p ∈ live_patients s /\ Patient.id p = id) ->
     exists p, p ∈ live_patients s /\ Patient.id p = id /\
               getPatientName s id = Patient.name p) /\
  (NoDup (map Patient.id (live_patients s)) ->
   forall p, p ∈ live_patients s -> getPatientName s (Patient.id p) = Patient.name p).
Proof.
  assert (Hname : forall id, getPatientName s id =
            match patient_with_id s id with
            | Some p => Patient.name p | None => "Unknown"%string end).
  { intros id. unfold getPatientName, patient_with_id.
    by destruct (findPatientIndex s id). }
  split_and!.
  - intros id Habs. rewrite Hname.
    destruct (patient_with_id s id) as [p|] eqn:E; [|done].
    apply patient_with_id_elem in E as [Hin Hid]. by destruct (Habs p Hin).
  - intros id (p & Hin & Hid).
    destruct (find_index_elem (fun q => Patient.id q = id) _ p Hin Hid) as [i Hi].
    change (findPatientIndex s id = Some i) in Hi.
    rewrite Hname. unfold patient_with_id. rewrite Hi. cbn.
    apply findPatientIndex_Some in Hi as (p' & Hp' & Hid' & _ & Hlive).
    rewrite (list_lookup_total_correct _ _ _ Hp').
    exists p'. split_and!; try done. by apply (list_elem_of_lookup_2 _ i).
  - intros Hnd p Hin. rewrite Hname.
    by rewrite (proj2 (patient_with_id_Some s (Patient.id p) p Hnd)).
Qed.

Lemma getPatientName_names_witness :
  getPatientName ward 7 = "Unknown"%string /\
  getPatientName ward 3 = "Charlie"%string.
Proof.
  destruct (getPatientName_names ward) as (Habs & _ & Hone).
  destruct ward_distinct_ids as (_ & _ & Hnd & _).
  split.
  - apply Habs. intros p Hp.
    unfold ward in Hp. vm_compute in Hp.
    repeat (apply elem_of_cons in Hp as [->|Hp]; [vm_compute; discriminate|]).
    by apply elem_of_nil in Hp.
  - apply (Hone Hnd (Patient.mk 3 "Charlie" 8 "M" "555-0113" "Measles" 0)).
    apply (list_elem_of_lookup_2 _ 2%nat). reflexivity.
Defined.

(** X21. In every reachable state each listing is complete and in table
    order: [viewPatients] shows the live patients, [displayDiseases] the
    live diseases, [displayDoctors] the live doctors with the ids
    1, 2, ..., and [displayAppointments] one entry per live appointment;
    each of the first three reports that there is nothing to show
    exactly when its table has no live record. *)
Theorem listings_are_complete (char_signed : bool)
    (qsort : (Patient.t -> Patient.t -> Z) -> list Patient.t -> list Patient.t)
    (s : state) :
  qsort_contract qsort -> reachable char_signed qsort s ->
  (live_patients s = [] /\ viewPatients s = NothingToShow \/
   live_patients s <> [] /\
   exists rows, viewPatients s = PatientList rows /\ map fst rows = live_patients s) /\
  (live_diseases s = [] /\ displayDiseases s = NothingToShow \/
   live_diseases s <> [] /\ displayDiseases s = DiseaseList (live_diseases s)) /\
  (live_doctors s = [] /\ displayDoctors s = NothingToShow \/
   live_doctors s <> [] /\
   exists rows, displayDoctors s = DoctorList rows /\
                map (fun r => fst (fst r)) rows = first_ids (Z.to_nat (doctorCount s)) /\
                map (fun r => snd (fst r)) rows = map Doctor.name (live_doctors s)) /\
  (exists rows, snd (displayAppointments s) = AppointmentList rows /\
                map row_id rows = map Appointment.id (live_appointments s) /\
                map row_patientId rows = map Appointment.patientId (live_appointments s)).
Proof.
  intros Hq Hs.
  pose proof (reachable_wf _ _ _ Hq Hs)
    as ((Hlp & Hls & Hld & _ & Hcp & Hcs & Hcd & _) & _).
  destruct (reachable_dense_ids _ _ _ Hq Hs) as (Hd & _).
  assert (Hempty : forall (A : Type) (arr : list A) (n max : Z),
            length arr = Z.to_nat max -> 0 <= n <= max ->
            (n =? 0) = true /\ take (Z.to_nat n) arr = [] \/
            (n =? 0) = false /\ take (Z.to_nat n) arr <> []).
  { intros A arr n max Hlen Hn. destruct (Z.eqb_spec n 0) as [->|Hne]; [by left|right].
    split; [done|]. intros E. apply (f_equal length) in E.
    rewrite length_take in E. simpl in E. lia. }
  split_and!.
  - unfold viewPatients, live_patients.
    destruct (Hempty _ (patients s) _ _ Hlp Hcp) as [[-> E]|[-> E]]; [by left|right].
    split; [done|]. eexists. split; [done|].
    rewrite map_map. cbn [fst]. apply map_id.
  - unfold displayDiseases, live_diseases.
    destruct (Hempty _ (diseases s) _ _ Hls Hcs) as [[-> E]|[-> E]]; [by left | by right].
  - unfold displayDoctors.
    destruct (Hempty _ (doctors s) _ _ Hld Hcd) as [[-> E]|[-> E]]; [by left|right].
    split; [done|]. eexists. split; [done|].
    rewrite !map_map. cbn [fst snd]. by split.
  - eexists. split; [done|]. rewrite !map_map. by cbn [row_id row_patientId].
Qed.

Lemma listings_are_complete_witness :
  let s := fst (run true merge_qsort busy_session init_state) in
  exists rows, snd (displayAppointments s) = AppointmentList rows /\
               map row_id rows = map Appointment.id (live_appointments s) /\
               map row_patientId rows = map Appointment.patientId (live_appointments s).
Proof.
  exact (proj2 (proj2 (proj2 (listings_are_complete true merge_qsort _
                                merge_qsort_contract busy_session_reachable)))).
Defined.
